(** * Portfolio chatbot core: KnowledgeBase, QueryProcessor, ConversationManager

    A shallow embedding of [src/chatbot/KnowledgeBase.js] (classes
    [KnowledgeBase] and [QueryProcessor]), of
    [src/chatbot/ConversationManager.js] and of the storage functions of the
    entry point [src/unnamed/part_001], together with the part of the
    JavaScript run time they call.

    Conventions of the embedding.
    - A JavaScript value is a term of [JS.Value]: plain data as the knowledge
      base and [JSON.parse] build it.  An object is the list of its own
      enumerable properties in enumeration order.
    - Text is a [string] of 8-bit code units.  Case conversion, white space
      and the regular-expression class [\w] are those of the ASCII range; a
      unit above 127 is an uncased symbol that is neither space nor word
      character.
    - A number is an exact rational ([Q], kept reduced); NaN and the two
      infinities are arguments of their own ([JS.Argument]).  The id counter
      is rounded to binary64 as the source rounds it.  Timestamps,
      half-point scores and the differences between a length and a limit or
      a count are computed exactly, and integers print in plain decimal
      notation: the statements say where that is what the source computes.
    - [Date.now()] is an input: every operation that reads the clock takes
      the readings as arguments. *)

From Stdlib Require Import Bool Arith ZArith NArith QArith Qreduction Qround.
From Stdlib Require Import Lia Lqa List.
From Stdlib Require Qcanon.
From Stdlib Require Import Ascii String Sorted Permutation.
Import ListNotations.

Local Open Scope string_scope.
Local Close Scope Q_scope.
Local Open Scope bool_scope.

(** ** JavaScript values and the built-ins the classes use *)

#[local] Set Warnings "-register-all".

Module JS.

Inductive Value : Type :=
| Undefined
| Null
| Bool (b : bool)
| Num (q : Q)
| Str (s : string)
| Arr (items : list Value)
| Obj (props : list (string * Value)).

(** Outcome of a call that may [throw new Error(msg)]. *)
Inductive Result (A : Type) : Type :=
| Ok (a : A)
| Throw (msg : string).
Arguments Ok {A} a.
Arguments Throw {A} msg.

Definition typeof (v : Value) : string :=
  match v with
  | Undefined => "undefined"
  | Null => "object"
  | Bool _ => "boolean"
  | Num _ => "number"
  | Str _ => "string"
  | Arr _ => "object"
  | Obj _ => "object"
  end.

(** ToBoolean: what [if (v)] and [!v] test. *)
Definition truthy (v : Value) : bool :=
  match v with
  | Undefined => false
  | Null => false
  | Bool b => b
  | Num q => negb (Qeq_bool q 0)
  | Str s => negb (s =? "")
  | Arr _ => true
  | Obj _ => true
  end.

Definition isArray (v : Value) : bool :=
  match v with Arr _ => true | _ => false end.

(** *** Characters *)

Definition isUpper (c : ascii) : bool := (("A" <=? c) && (c <=? "Z"))%char.
Definition isLower (c : ascii) : bool := (("a" <=? c) && (c <=? "z"))%char.
Definition isDigit (c : ascii) : bool := (("0" <=? c) && (c <=? "9"))%char.

Definition toLowerChar (c : ascii) : ascii :=
  if isUpper c then ascii_of_N (N_of_ascii c + 32) else c.

Definition toUpperChar (c : ascii) : ascii :=
  if isLower c then ascii_of_N (N_of_ascii c - 32) else c.

(** The class [\w] of a regular expression: [A-Za-z0-9_]. *)
Definition isWordChar (c : ascii) : bool :=
  isUpper c || isLower c || isDigit c || (c =? "_")%char.

(** White space and line terminators: TAB, LF, VT, FF, CR, SP. *)
Definition isWhiteSpace (c : ascii) : bool :=
  let n := N_of_ascii c in ((9 <=? n) && (n <=? 13) || (n =? 32))%N.

(** *** Strings *)

Fixpoint mapString (f : ascii -> ascii) (s : string) : string :=
  match s with
  | EmptyString => EmptyString
  | String c r => String (f c) (mapString f r)
  end.

Definition toLowerCase (s : string) : string := mapString toLowerChar s.

Fixpoint trimStart (s : string) : string :=
  match s with
  | String c r => if isWhiteSpace c then trimStart r else s
  | EmptyString => EmptyString
  end.

(** [trimEnd]: a character is dropped when it is white space and everything
    after it has been dropped. *)
Fixpoint trimEnd (s : string) : string :=
  match s with
  | EmptyString => EmptyString
  | String c r =>
      match trimEnd r with
      | EmptyString => if isWhiteSpace c then EmptyString else String c EmptyString
      | r' => String c r'
      end
  end.

Definition trim (s : string) : string := trimEnd (trimStart s).

(** [text.includes(pat)] *)
Fixpoint includes (text pat : string) : bool :=
  String.prefix pat text ||
  match text with
  | EmptyString => false
  | String _ r => includes r pat
  end.

(** [parts.join(sep)] on an array of strings. *)
Fixpoint join (sep : string) (parts : list string) : string :=
  match parts with
  | [] => ""
  | [p] => p
  | p :: rest => p ++ sep ++ join sep rest
  end.

(** [s.split(re)] for a regular expression [re] that matches a non-empty run
    of characters of the class [sep]: the pieces between the runs, an empty
    piece first or last when the text starts or ends with a run. *)
Fixpoint splitRuns (sep : ascii -> bool) (inRun : bool) (s : string)
  : list string :=
  match s with
  | EmptyString => [EmptyString]
  | String c r =>
      if sep c then
        if inRun then splitRuns sep true r
        else EmptyString :: splitRuns sep true r
      else
        match splitRuns sep false r with
        | [] => [String c EmptyString]
        | p :: ps => String c p :: ps
        end
  end.

Definition split (sep : ascii -> bool) (s : string) : list string :=
  splitRuns sep false s.

(** *** Number to string *)

Definition digitChar (d : N) : ascii := ascii_of_N (48 + d).

Fixpoint decimalDigits (fuel : nat) (n : N) (acc : string) : string :=
  let acc' := String (digitChar (n mod 10)) acc in
  match fuel with
  | O => acc'
  | S f => if (n <? 10)%N then acc' else decimalDigits f (n / 10) acc'
  end.

Definition N_toString (n : N) : string :=
  decimalDigits (N.to_nat (N.log2 n)) n "".

Definition Z_toString (z : Z) : string :=
  match z with
  | Z0 => "0"
  | Zpos p => N_toString (Npos p)
  | Zneg p => "-" ++ N_toString (Npos p)
  end.

Fixpoint fractionDigits (fuel : nat) (r den : N) : string :=
  match fuel with
  | O => ""
  | S f =>
      if (r =? 0)%N then ""
      else String (digitChar (r * 10 / den))
                  (fractionDigits f ((r * 10) mod den) den)
  end.

(** Number::toString in positional notation: an integer prints its decimal
    digits, any other value its integer part, a point and the digits of its
    fraction.  This is what the source prints for an integer of magnitude up
    to 2^53, which is what the clock readings, counters and timestamps of
    the statements below are; beyond that the source prints the shortest
    digits that identify the binary64 value, in exponent notation from 1e21
    on and below 1e-6. *)
Definition Number_toString (q : Q) : string :=
  let q' := Qred q in
  let n := Qnum q' in
  let d := Zpos (Qden q') in
  if (d =? 1)%Z then Z_toString n
  else
    (if (n <? 0)%Z then "-" else "") ++
    Z_toString (Z.abs n / d) ++ "." ++
    fractionDigits (S (Pos.size_nat (Qden q')))
                   (Z.to_N (Z.abs n mod d)) (Npos (Qden q')).

(** [String(v)] for plain data; [None] when the conversion throws a
    TypeError.  An array joins its elements with commas (null and undefined
    elements print as nothing).  A plain object prints as "[object Object]"
    through the [toString] it inherits; when it has an own property
    [toString], which in plain data is never a function, neither that nor
    the inherited [valueOf] yields a primitive and the conversion throws.
    A number prints as [Number_toString] says. *)
Fixpoint ToString (v : Value) : option string :=
  match v with
  | Undefined => Some "undefined"
  | Null => Some "null"
  | Bool true => Some "true"
  | Bool false => Some "false"
  | Num q => Some (Number_toString q)
  | Str s => Some s
  | Arr items =>
      option_map (join ",")
        ((fix each (l : list Value) : option (list string) :=
            match l with
            | [] => Some []
            | x :: r =>
                match match x with
                      | Undefined | Null => Some ""
                      | _ => ToString x
                      end, each r with
                | Some p, Some ps => Some (p :: ps)
                | _, _ => None
                end
            end) items)
  | Obj props =>
      if existsb (fun kv => fst kv =? "toString") props then None
      else Some "[object Object]"
  end.

(** *** Arithmetic in binary64

    The result of an arithmetic operation of the source is the binary64
    value nearest to the exact result, ties going to the even significand.
    [binary64] rounds an exact result; a magnitude beyond the largest finite
    value, where the source yields Infinity, is outside the numbers of the
    embedding (adding one to a finite value does not reach it). *)

(** [floor (log2 (n / d))] for positive [n] and [d]. *)
Definition exponentOf (n d : Z) : Z :=
  let c := (Z.log2 n - Z.log2 d)%Z in
  let below :=
    if (0 <=? c)%Z then (n <? d * 2 ^ c)%Z else (n * 2 ^ (- c) <? d)%Z in
  if below then (c - 1)%Z else c.

(** The integer nearest to [a / b] for positive [a] and [b], a tie going to
    the even one. *)
Definition roundHalfEven (a b : Z) : Z :=
  let f := (a / b)%Z in
  match (2 * (a mod b) ?= b)%Z with
  | Lt => f
  | Gt => (f + 1)%Z
  | Eq => if Z.even f then f else (f + 1)%Z
  end.

Definition binary64 (q : Q) : Q :=
  let n := Z.abs (Qnum q) in
  let d := Zpos (Qden q) in
  if (n =? 0)%Z then 0%Q
  else
    let e := exponentOf n d in
    let p := Z.max (e - 52) (-1074) in
    let magnitude :=
      if (0 <=? p)%Z then
        inject_Z (roundHalfEven n (d * 2 ^ p) * 2 ^ p)
      else
        Qmake (roundHalfEven (n * 2 ^ (- p)) d) (Z.to_pos (2 ^ (- p))) in
    Qred (if (Qnum q <? 0)%Z then Qopp magnitude else magnitude).

(** *** Arguments

    What a caller can pass: plain data, or one of the three numbers plain
    data cannot hold. *)
Inductive Argument : Type :=
| Plain (v : Value)
| NaN
| Infinity (negative : bool).

Coercion Plain : Value >-> Argument.

(** *** Properties *)

Fixpoint lookup (key : string) (props : list (string * Value)) : option Value :=
  match props with
  | [] => None
  | (k, v) :: rest => if k =? key then Some v else lookup key rest
  end.

(** The index a canonical array-index string denotes. *)
Definition arrayIndex (key : string) (len : nat) : option nat :=
  find (fun i => N_toString (N.of_nat i) =? key) (seq 0 len).

(** [v[key]] for an own property of an object or an array; [undefined]
    when there is none.  Reading a property of [null] or [undefined] throws
    and is handled by the callers. *)
Definition get (v : Value) (key : string) : Value :=
  match v with
  | Obj props => match lookup key props with Some x => x | None => Undefined end
  | Arr items =>
      if key =? "length" then Num (inject_Z (Z.of_nat (List.length items)))
      else match arrayIndex key (List.length items) with
           | Some i => nth i items Undefined
           | None => Undefined
           end
  | _ => Undefined
  end.

(** [Object.keys(v)] *)
Definition keys (v : Value) : list string :=
  match v with
  | Obj props => map fst props
  | Arr items => map (fun i => N_toString (N.of_nat i)) (seq 0 (List.length items))
  | _ => []
  end.

(** [Object.values(v)] *)
Definition values (v : Value) : list Value :=
  match v with
  | Obj props => map snd props
  | Arr items => items
  | _ => []
  end.

(** *** Regular expressions

    The classes build one kind of pattern at run time:
    [new RegExp(`\\b${escaped}\\b`, 'i')].  A pattern source is compiled to
    a sequence of atoms; the fragment covers the assertion [\b], an escaped
    syntax character and a plain character.  Any other syntax is outside the
    fragment ([None]). *)

Inductive Atom : Type :=
| WordBoundary
| Lit (c : ascii).

(** SyntaxCharacter of the pattern grammar. *)
Definition isSyntaxChar (c : ascii) : bool :=
  existsb (Ascii.eqb c) (list_ascii_of_string "^$\.*+?()[]{}|").

Fixpoint compileRegex (source : string) : option (list Atom) :=
  match source with
  | EmptyString => Some []
  | String c r =>
      if (c =? "\")%char then
        match r with
        | EmptyString => None
        | String e r' =>
            if (e =? "b")%char then option_map (cons WordBoundary) (compileRegex r')
            else if isSyntaxChar e then option_map (cons (Lit e)) (compileRegex r')
            else None
        end
      else if isSyntaxChar c then None
      else option_map (cons (Lit c)) (compileRegex r)
  end.

(** Comparison of two characters under the flag [i]. *)
Definition canonEq (a b : ascii) : bool :=
  (toUpperChar a =? toUpperChar b)%char.

Definition wordCharOpt (c : option ascii) : bool :=
  match c with Some x => isWordChar x | None => false end.

Definition head (s : string) : option ascii :=
  match s with String c _ => Some c | EmptyString => None end.

(** Match the atoms at the current position; [prev] is the character before
    it, [None] at the start of the text. *)
Fixpoint matchAtoms (atoms : list Atom) (prev : option ascii) (text : string)
  : bool :=
  match atoms with
  | [] => true
  | WordBoundary :: rest =>
      xorb (wordCharOpt prev) (wordCharOpt (head text)) &&
      matchAtoms rest prev text
  | Lit p :: rest =>
      match text with
      | EmptyString => false
      | String c text' => canonEq p c && matchAtoms rest (Some c) text'
      end
  end.

Fixpoint searchAtoms (atoms : list Atom) (prev : option ascii) (text : string)
  : bool :=
  matchAtoms atoms prev text ||
  match text with
  | EmptyString => false
  | String c text' => searchAtoms atoms (Some c) text'
  end.

(** [new RegExp(source, 'i').test(text)] *)
Definition RegExp_test_i (source text : string) : bool :=
  match compileRegex source with
  | Some atoms => searchAtoms atoms None text
  | None => false
  end.

(** *** Array.prototype.sort

    [a.sort(compare)] with a consistent comparator: the stable sort, written
    as insertion from the right.  [compare x y > 0] moves [y] before [x]. *)
Section Sort.
Context {A : Type} (compare : A -> A -> Q).

Fixpoint insertSorted (x : A) (l : list A) : list A :=
  match l with
  | [] => [x]
  | y :: r =>
      if Qlt_le_dec 0 (compare x y) then y :: insertSorted x r
      else x :: y :: r
  end.

Definition sort (l : list A) : list A := fold_right insertSorted [] l.
End Sort.

End JS.

(** ** KnowledgeBase (src/chatbot/KnowledgeBase.js, lines 10-588) *)

Module KnowledgeBase.
Import JS.

(** [static HIGH_CONFIDENCE_THRESHOLD = 0.85].  A relevance is a ratio
    [k / (2 * n)] of small integers, so comparing it with the exact 17/20
    decides as the comparison of the two binary64 values does. *)
Definition HIGH_CONFIDENCE_THRESHOLD : Q := (85 # 100)%Q.

Record t : Type := {
  data : Value;
  categories : list string;
  highConfidenceThreshold : Q
}.

(** [{ data, relevance, category, field? }]; [category] is [null] ([None])
    when the caller gives none, [field] is absent ([None]) unless the entry
    comes from an array nested in an object. *)
Record SearchResult : Type := {
  result_data : Value;
  relevance : Q;
  category : option string;
  field : option string
}.

(** [constructor(data, options)]; the option is the number
    [options.highConfidenceThreshold], [None] when absent. *)
Definition constructor (data : Value) (threshold : option Q) : Result t :=
  if negb (truthy data) || negb (typeof data =? "object") then
    Throw "KnowledgeBase requires a valid data object"
  else
    Ok {| data := data;
          categories := keys data;
          highConfidenceThreshold :=
            match threshold with
            | Some q => if truthy (Num q) then q else HIGH_CONFIDENCE_THRESHOLD
            | None => HIGH_CONFIDENCE_THRESHOLD
            end |}.

(** [_escapeRegex]: [str.replace(/[.*+?^${}()|[\]\\]/g, '\\$&')] *)
Definition isEscaped (c : ascii) : bool :=
  existsb (Ascii.eqb c) (list_ascii_of_string ".*+?^${}()|[]\").

Fixpoint _escapeRegex (str : string) : string :=
  match str with
  | EmptyString => EmptyString
  | String c r =>
      if isEscaped c then String "\" (String c (_escapeRegex r))
      else String c (_escapeRegex r)
  end.

(** [new RegExp(`\\b${this._escapeRegex(keyword)}\\b`, 'i').test(text)] *)
Definition wordBoundaryTest (keyword text : string) : bool :=
  RegExp_test_i ("\b" ++ _escapeRegex keyword ++ "\b") text.

Fixpoint _itemToSearchText (item : Value) : string :=
  match item with
  | Str s => s
  | Num q => Number_toString q
  | Bool b => if b then "true" else "false"
  | Arr items => join " " (map _itemToSearchText items)
  | Obj props => join " " (map (fun kv => _itemToSearchText (snd kv)) props)
  | Undefined | Null => ""
  end.

(** One turn of the loop of [_calculateRelevance] over the pair
    [(matchCount, totalWeight)]. *)
Definition scoreKeyword (searchText : string) (acc : Q * Q) (keyword : string)
  : Q * Q :=
  let '(matchCount, totalWeight) := acc in
  if (String.length keyword <? 2)%nat then acc
  else
    let totalWeight := (totalWeight + 1)%Q in
    if wordBoundaryTest keyword searchText then ((matchCount + 1)%Q, totalWeight)
    else if includes searchText keyword then ((matchCount + (1 # 2))%Q, totalWeight)
    else (matchCount, totalWeight).

Definition _calculateRelevance (item : Value) (keywords : list string) : Q :=
  if negb (truthy item) || (List.length keywords =? 0)%nat then 0%Q
  else
    let searchText := toLowerCase (_itemToSearchText item) in
    if searchText =? "" then 0%Q
    else
      let '(matchCount, totalWeight) :=
        fold_left (scoreKeyword searchText) keywords (0%Q, 0%Q) in
      if Qeq_bool totalWeight 0 then 0%Q
      else Qred (matchCount / totalWeight).

(** [/[\s,;]+/] *)
Definition isKeywordSeparator (c : ascii) : bool :=
  isWhiteSpace c || (c =? ",")%char || (c =? ";")%char.

Definition nonEmpty (k : string) : bool := (0 <? String.length k)%nat.

Definition _normalizeKeywords (keywords : Value) : list string :=
  if negb (truthy keywords) then []
  else
    match keywords with
    | Str s =>
        filter nonEmpty (map trim (split isKeywordSeparator (toLowerCase s)))
    | Arr items =>
        filter nonEmpty
          (map (fun k => trim (toLowerCase k))
             (flat_map (fun k => match k with Str s => [s] | _ => [] end) items))
    | _ => []
    end.

Definition _wrapWithRelevance (data : Value) (relevance : Q)
  (category : option string) : list SearchResult :=
  match data with
  | Arr items =>
      map (fun item => {| result_data := item; relevance := relevance;
                          category := category; field := None |}) items
  | _ => [{| result_data := data; relevance := relevance;
             category := category; field := None |}]
  end.

(** [for (const item of items)] of [_searchInData]: push every item that
    scores above zero. *)
Fixpoint collectItems (keywords : list string) (category fld : option string)
  (items : list Value) (results : list SearchResult) : list SearchResult :=
  match items with
  | [] => results
  | item :: rest =>
      let relevance := _calculateRelevance item keywords in
      if Qlt_le_dec 0 relevance then
        collectItems keywords category fld rest
          (results ++ [{| result_data := item; relevance := relevance;
                          category := category; field := fld |}])%list
      else collectItems keywords category fld rest results
  end.

(** [for (const key of Object.keys(data))] of [_searchInData]. *)
Fixpoint collectFields (keywords : list string) (category : option string)
  (data : Value) (ks : list string) (results : list SearchResult)
  : list SearchResult :=
  match ks with
  | [] => results
  | key :: rest =>
      match get data key with
      | Arr items =>
          collectFields keywords category data rest
            (collectItems keywords category (Some key) items results)
      | _ => collectFields keywords category data rest results
      end
  end.

Definition _searchInData (data : Value) (keywords : list string)
  (category : option string) : list SearchResult :=
  match data with
  | Arr items => collectItems keywords category None items []
  | Obj _ =>
      let relevance := _calculateRelevance data keywords in
      let results :=
        if Qlt_le_dec 0 relevance then
          [{| result_data := data; relevance := relevance;
              category := category; field := None |}]
        else [] in
      collectFields keywords category data (keys data) results
  | _ => []
  end.

(** [relevance >= this.highConfidenceThreshold] *)
Definition highConfidence (kb : t) (relevance : Q) : bool :=
  Qle_bool (highConfidenceThreshold kb) relevance.

(** The array loops of [_searchInDataOptimized].  The second component tells
    whether the loop left the function through [return results]. *)
Fixpoint scanItems (kb : t) (keywords : list string)
  (category fld : option string) (enableEarlyTermination : bool)
  (items : list Value) (results : list SearchResult)
  : list SearchResult * bool :=
  match items with
  | [] => (results, false)
  | item :: rest =>
      let relevance := _calculateRelevance item keywords in
      if Qlt_le_dec 0 relevance then
        let results :=
          (results ++ [{| result_data := item; relevance := relevance;
                          category := category; field := fld |}])%list in
        if enableEarlyTermination && highConfidence kb relevance then
          (results, true)
        else
          scanItems kb keywords category fld enableEarlyTermination rest results
      else
        scanItems kb keywords category fld enableEarlyTermination rest results
  end.

Fixpoint scanFields (kb : t) (keywords : list string)
  (category : option string) (enableEarlyTermination : bool)
  (data : Value) (ks : list string) (results : list SearchResult)
  : list SearchResult * bool :=
  match ks with
  | [] => (results, false)
  | key :: rest =>
      match get data key with
      | Arr items =>
          let '(results, returned) :=
            scanItems kb keywords category (Some key) enableEarlyTermination
              items results in
          if returned then (results, true)
          else scanFields kb keywords category enableEarlyTermination data
                 rest results
      | _ => scanFields kb keywords category enableEarlyTermination data
               rest results
      end
  end.

Definition _searchInDataOptimized (kb : t) (data : Value)
  (keywords : list string) (category : option string)
  (enableEarlyTermination : bool) : list SearchResult :=
  match data with
  | Arr items =>
      fst (scanItems kb keywords category None enableEarlyTermination items [])
  | Obj _ =>
      let relevance := _calculateRelevance data keywords in
      if Qlt_le_dec 0 relevance then
        let results := [{| result_data := data; relevance := relevance;
                           category := category; field := None |}] in
        if enableEarlyTermination && highConfidence kb relevance then results
        else fst (scanFields kb keywords category enableEarlyTermination data
                    (keys data) results)
      else
        fst (scanFields kb keywords category enableEarlyTermination data
               (keys data) [])
  | _ => []
  end.

(** [(a, b) => b.relevance - a.relevance] *)
Definition byRelevanceDescending (a b : SearchResult) : Q :=
  (relevance b - relevance a)%Q.

(** [for (const category of this.categories)] of [search].
    [categoryResults.find(...)] yields a result object, which is truthy, or
    [undefined]. *)
Fixpoint searchCategories (kb : t) (keywords : list string)
  (enableEarlyTermination : bool) (cats : list string)
  (results : list SearchResult) : list SearchResult :=
  match cats with
  | [] => sort byRelevanceDescending results
  | category :: rest =>
      let categoryData := get (data kb) category in
      let categoryResults :=
        _searchInDataOptimized kb categoryData keywords (Some category)
          enableEarlyTermination in
      let results := (results ++ categoryResults)%list in
      if enableEarlyTermination
         && (0 <? List.length categoryResults)%nat
         && existsb (fun r => highConfidence kb (relevance r)) categoryResults
      then sort byRelevanceDescending results
      else searchCategories kb keywords enableEarlyTermination rest results
  end.

(** [search(keywords, options = {})].  Reading [options.earlyTermination]
    of [null] throws a TypeError, which the surrounding [catch] turns into
    the empty result. *)
Definition search (kb : t) (keywords options : Value) : list SearchResult :=
  let keywordArray := _normalizeKeywords keywords in
  if (List.length keywordArray =? 0)%nat then []
  else
    match options with
    | Null => []
    | _ =>
        let enableEarlyTermination :=
          match get options "earlyTermination" with
          | Bool false => false
          | _ => true
          end in
        searchCategories kb keywordArray enableEarlyTermination
          (categories kb) []
    end.

(** [getByCategory(category)].  [this.data[name]] is read among the own
    properties of the data.  The names looked up first are in lower case:
    for the two lower-case names every object inherits, constructor and
    __proto__, the source reads the inherited function or object when the
    data has no such property of its own, which is no value of this model. *)
Definition getByCategory (kb : t) (category : Value) : Value :=
  match category with
  | Str c =>
      if negb (truthy category) then Null
      else
        let normalizedCategory := trim (toLowerCase c) in
        match get (data kb) normalizedCategory with
        | Undefined =>
            match find (fun key => toLowerCase key =? normalizedCategory)
                       (categories kb) with
            | Some matchingKey =>
                if truthy (Str matchingKey) then get (data kb) matchingKey
                else Null
            | None => Null
            end
        | found => found
        end
  | _ => Null
  end.

(** [query(category, keywords)] *)
Definition query (kb : t) (category keywords : Value) : list SearchResult :=
  let categoryData := getByCategory kb category in
  if negb (truthy categoryData) then []
  else
    let keywordArray := _normalizeKeywords keywords in
    if (List.length keywordArray =? 0)%nat then
      _wrapWithRelevance categoryData 1%Q None
    else _searchInData categoryData keywordArray None.

(** [static DEFAULT_FALLBACK_RESPONSE] *)
Definition DEFAULT_FALLBACK_RESPONSE : string :=
  "I'm having trouble accessing that information right now. You can ask me about my experience, skills, projects, awards, certifications, or contact information.".

(** [{ success, data, fallback? }] as [querySafe] and [searchSafe] return
    it; [fallback] is absent ([None]) on success. *)
Record SafeResult : Type := {
  success : bool;
  safe_data : list SearchResult;
  fallback : option string
}.

(** [querySafe(category, keywords)].  The fallback text is built when the
    category data was found, that is for a non-empty string [category]; a
    conversion that threw would be answered by the [catch]. *)
Definition querySafe (kb : t) (category keywords : Value) : SafeResult :=
  let categoryData := getByCategory kb category in
  if negb (truthy categoryData) then
    {| success := false; safe_data := [];
       fallback := Some DEFAULT_FALLBACK_RESPONSE |}
  else
    let keywordArray := _normalizeKeywords keywords in
    if (List.length keywordArray =? 0)%nat then
      {| success := true;
         safe_data := _wrapWithRelevance categoryData 1%Q None;
         fallback := None |}
    else
      let results := _searchInData categoryData keywordArray None in
      if (List.length results =? 0)%nat then
        match ToString category with
        | Some name =>
            {| success := false; safe_data := [];
               fallback :=
                 Some ("I don't have specific information about that in the " ++
                       name ++
                       " category. You can ask me about my experience, skills, projects, awards, certifications, or contact information.") |}
        | None =>
            {| success := false; safe_data := [];
               fallback := Some DEFAULT_FALLBACK_RESPONSE |}
        end
      else
        {| success := true; safe_data := results; fallback := None |}.

(** [for (const category of this.categories)] of [searchSafe], with the
    statements that follow the loop. *)
Fixpoint searchCategoriesSafe (kb : t) (keywords : list string)
  (enableEarlyTermination : bool) (cats : list string)
  (results : list SearchResult) : SafeResult :=
  match cats with
  | [] =>
      let results := sort byRelevanceDescending results in
      if (List.length results =? 0)%nat then
        {| success := false; safe_data := [];
           fallback :=
             Some "I couldn't find information matching your query. You can ask me about my experience, skills, projects, awards, certifications, or contact information." |}
      else {| success := true; safe_data := results; fallback := None |}
  | category :: rest =>
      let categoryData := get (data kb) category in
      let categoryResults :=
        _searchInDataOptimized kb categoryData keywords (Some category)
          enableEarlyTermination in
      let results := (results ++ categoryResults)%list in
      if enableEarlyTermination
         && (0 <? List.length categoryResults)%nat
         && existsb (fun r => highConfidence kb (relevance r)) categoryResults
      then {| success := true;
              safe_data := sort byRelevanceDescending results;
              fallback := None |}
      else searchCategoriesSafe kb keywords enableEarlyTermination rest results
  end.

(** [searchSafe(keywords, options = {})].  Reading
    [options.earlyTermination] of [null] throws a TypeError, which the
    surrounding [catch] answers with the default fallback. *)
Definition searchSafe (kb : t) (keywords options : Value) : SafeResult :=
  let keywordArray := _normalizeKeywords keywords in
  if (List.length keywordArray =? 0)%nat then
    {| success := false; safe_data := [];
       fallback :=
         Some "Please provide a search term. You can ask me about my experience, skills, projects, awards, certifications, or contact information." |}
  else
    match options with
    | Null =>
        {| success := false; safe_data := [];
           fallback := Some DEFAULT_FALLBACK_RESPONSE |}
    | _ =>
        let enableEarlyTermination :=
          match get options "earlyTermination" with
          | Bool false => false
          | _ => true
          end in
        searchCategoriesSafe kb keywordArray enableEarlyTermination
          (categories kb) []
    end.

(** [getAllCategories()]: a copy of [this.categories]. *)
Definition getAllCategories (kb : t) : list string := categories kb.

End KnowledgeBase.

(** ** QueryProcessor.detectIntent (src/chatbot/KnowledgeBase.js, lines 611-1228) *)

Module QueryProcessor.
Import JS.

Record Patterns : Type := {
  high : list string;
  medium : list string
}.

(** [this.intentPatterns], in the order [Object.entries] enumerates it. *)
Definition intentPatterns : list (string * Patterns) :=
  [ ("experience",
     {| high := ["experience"; "career"; "employment"; "job history";
                 "work history"; "positions held"; "professional background";
                 "positions"; "work experience"];
        medium := ["work"; "job"; "worked"; "working"; "position"; "role";
                   "company"; "amazon"; "werp"; "history"; "background";
                   "professional"; "timeline"; "years"; "held"; "jobs"] |});
    ("skills",
     {| high := ["skill"; "skills"; "technology"; "technologies";
                 "programming"; "technical abilities"; "expertise"];
        medium := ["tech"; "know"; "language"; "languages"; "framework";
                   "frameworks"; "tool"; "tools"; "proficient"; "capable";
                   "ability"; "abilities"; "competent"; "python";
                   "javascript"; "playwright"; "selenium"; "pytest"; "aws";
                   "cloud"] |});
    ("projects",
     {| high := ["project"; "projects"; "portfolio work";
                 "what have you built"; "what did you build";
                 "framework development"];
        medium := ["built"; "build"; "created"; "developed"; "development";
                   "savings"; "cost"; "impact"; "solutions"] |});
    ("awards",
     {| high := ["award"; "awards"; "recognition"; "recognized"; "honors";
                 "prize"; "prizes"; "accomplishment"; "accomplishments";
                 "accolades"];
        medium := ["achievement"; "achievements"; "honor"; "won"; "received";
                   "innovation"; "excellence"; "leadership"] |});
    ("contact",
     {| high := ["contact"; "email"; "linkedin"; "github"; "reach out";
                 "get in touch"; "how to reach"];
        medium := ["reach"; "connect"; "social"; "message"; "hire"; "hiring";
                   "location"; "where"; "based"; "live"; "located"; "find";
                   "touch"] |});
    ("certifications",
     {| high := ["certification"; "certifications"; "certified";
                 "certificate"; "certificates"; "qualifications";
                 "credentials"; "credential"];
        medium := ["course"; "courses"; "training"; "learn"; "learned";
                   "education"; "qualification"] |});
    ("personal",
     {| high := ["who are you"; "about yourself"; "introduce yourself";
                 "introduction"; "dinakaran"];
        medium := ["who"; "yourself"; "introduce"; "name"; "summary";
                   "overview"; "describe yourself"] |}) ].

(** [_escapeRegex] of QueryProcessor, the same text as KnowledgeBase's. *)
Definition _escapeRegex : string -> string := KnowledgeBase._escapeRegex.

Definition wordBoundaryTest (pattern text : string) : bool :=
  RegExp_test_i ("\b" ++ _escapeRegex pattern ++ "\b") text.

(** One turn of the loop over [patterns.high]. *)
Definition scoreHigh (normalizedQuery : string) (score : Z) (pattern : string)
  : Z :=
  if includes normalizedQuery pattern then (score + 5)%Z
  else if wordBoundaryTest pattern normalizedQuery then (score + 4)%Z
  else score.

(** One turn of the loop over [patterns.medium]. *)
Definition scoreMedium (normalizedQuery : string) (score : Z) (pattern : string)
  : Z :=
  if wordBoundaryTest pattern normalizedQuery then (score + 2)%Z
  else if includes normalizedQuery pattern then (score + 1)%Z
  else score.

(** [scores[intent]] once both loops are over. *)
Definition scoreIntent (normalizedQuery : string) (patterns : Patterns) : Z :=
  fold_left (scoreMedium normalizedQuery) (medium patterns)
    (fold_left (scoreHigh normalizedQuery) (high patterns) 0%Z).

(** The object [scores]; its keys are those of the pattern table, which are
    pairwise distinct, in the same order. *)
Definition computeScores (table : list (string * Patterns))
  (normalizedQuery : string) : list (string * Z) :=
  map (fun entry => (fst entry, scoreIntent normalizedQuery (snd entry))) table.

(** One turn of the loop that keeps [(maxScore, detectedIntent)]. *)
Definition keepMax (best : Z * string) (entry : string * Z) : Z * string :=
  let '(maxScore, detectedIntent) := best in
  let '(intent, score) := entry in
  if (maxScore <? score)%Z then (score, intent) else best.

Definition detectIntentIn (table : list (string * Patterns)) (query : Value)
  : string :=
  match query with
  | Str q =>
      if negb (truthy query) then "general"
      else
        let normalizedQuery := trim (toLowerCase q) in
        let scores := computeScores table normalizedQuery in
        let '(maxScore, detectedIntent) :=
          fold_left keepMax scores (0%Z, "general") in
        if (maxScore <? 2)%Z then "general" else detectedIntent
  | _ => "general"
  end.

Definition detectIntent (query : Value) : string :=
  detectIntentIn intentPatterns query.

(** [this.stopWords], the elements of the set literal as written. *)
Definition stopWords : list string :=
  [ "a"; "an"; "the"; "is"; "are"; "was"; "were"; "be"; "been"; "being";
    "have"; "has"; "had"; "do"; "does"; "did"; "will"; "would"; "could";
    "should"; "may"; "might"; "must"; "shall"; "can"; "need"; "dare";
    "ought"; "used"; "to"; "of"; "in"; "for"; "on"; "with"; "at"; "by";
    "from"; "as"; "into"; "through"; "during"; "before"; "after"; "above";
    "below"; "between"; "under"; "again"; "further"; "then"; "once";
    "here"; "there"; "when"; "where"; "why"; "how"; "all"; "each"; "few";
    "more"; "most"; "other"; "some"; "such"; "no"; "nor"; "not"; "only";
    "own"; "same"; "so"; "than"; "too"; "very"; "just"; "and"; "but";
    "if"; "or"; "because"; "until"; "while"; "although"; "though";
    "i"; "me"; "my"; "myself"; "we"; "our"; "ours"; "ourselves"; "you";
    "your"; "yours"; "yourself"; "yourselves"; "he"; "him"; "his";
    "himself"; "she"; "her"; "hers"; "herself"; "it"; "its"; "itself";
    "they"; "them"; "their"; "theirs"; "themselves"; "what"; "which";
    "who"; "whom"; "this"; "that"; "these"; "those"; "am"; "been";
    "being"; "having"; "doing"; "would"; "could"; "should"; "might";
    "tell"; "know"; "please"; "thanks"; "thank"; "hello"; "hi"; "hey" ].

(** [set.has(token)] *)
Definition has (set : list string) (token : string) : bool :=
  existsb (String.eqb token) set.

(** [/[^\w\s]/]: neither a word character nor white space.  A unit above
    127 is replaced by a space when it is not white space and separates
    tokens when it is, so the tokens are the same under both readings. *)
Definition isPunctuation (c : ascii) : bool :=
  negb (isWordChar c) && negb (isWhiteSpace c).

(** [s.replace(/[^\w\s]/g, ' ')] *)
Definition replacePunctuation (s : string) : string :=
  mapString (fun c => if isPunctuation c then " "%char else c) s.

(** [[...new Set(keywords)]]: the first occurrence of every keyword, in
    order; [seen] holds the elements already in the set. *)
Fixpoint unique (seen keywords : list string) : list string :=
  match keywords with
  | [] => []
  | k :: rest =>
      if has seen k then unique seen rest
      else k :: unique (k :: seen) rest
  end.

(** [extractKeywords(query)] *)
Definition extractKeywords (query : Value) : list string :=
  match query with
  | Str q =>
      if negb (truthy query) then []
      else
        let tokens :=
          filter (fun token => (1 <? String.length token)%nat)
            (split isWhiteSpace (replacePunctuation (toLowerCase q))) in
        let keywords := filter (fun token => negb (has stopWords token)) tokens in
        unique [] keywords
  | _ => []
  end.

(** [this.suggestionsByIntent] *)
Definition suggestionsByIntent : list (string * list string) :=
  [ ("experience",
     ["What technologies do you use at Amazon?";
      "Tell me about your projects";
      "What awards have you received?"]);
    ("skills",
     ["What projects have you worked on?";
      "Tell me about your experience";
      "What certifications do you have?"]);
    ("projects",
     ["What was the impact of your projects?";
      "What technologies do you know?";
      "How can I contact you?"]);
    ("awards",
     ["Tell me about your experience at Amazon";
      "What projects have you worked on?";
      "What are your skills?"]);
    ("contact",
     ["Tell me about your experience";
      "What projects have you worked on?";
      "What are your skills?"]);
    ("certifications",
     ["What skills do you have?";
      "Tell me about your experience";
      "What projects have you worked on?"]);
    ("personal",
     ["What is your experience?";
      "What technologies do you know?";
      "Tell me about your projects"]);
    ("general",
     ["What is your experience?";
      "What technologies do you know?";
      "Tell me about your projects";
      "How can I contact you?"]) ].

(** The property names an object literal inherits from [Object.prototype]. *)
Definition inheritedNames : list string :=
  [ "constructor"; "__proto__"; "hasOwnProperty"; "isPrototypeOf";
    "propertyIsEnumerable"; "toLocaleString"; "toString"; "valueOf";
    "__defineGetter__"; "__defineSetter__"; "__lookupGetter__";
    "__lookupSetter__" ].

Fixpoint lookupList (key : string) (table : list (string * list string))
  : option (list string) :=
  match table with
  | [] => None
  | (k, v) :: rest => if k =? key then Some v else lookupList key rest
  end.

(** [getSuggestions(intent)]:
    [this.suggestionsByIntent[intent] || this.suggestionsByIntent.general].
    An array is truthy.  For a name inherited from [Object.prototype] the
    lookup yields a function or an object, which is truthy and is no list of
    suggestions ([None]). *)
Definition getSuggestions (intent : string) : option (list string) :=
  match lookupList intent suggestionsByIntent with
  | Some suggestions => Some suggestions
  | None =>
      if has inheritedNames intent then None
      else lookupList "general" suggestionsByIntent
  end.

End QueryProcessor.

(** ** JSON.stringify and JSON.parse on plain data *)

Module JSON.
Import JS.

Definition quote : ascii := "034"%char.

Definition hexDigit (n : N) : ascii :=
  if (n <? 10)%N then ascii_of_N (48 + n) else ascii_of_N (87 + n).

(** QuoteJSONString, one code unit. *)
Definition escapeChar (c : ascii) : string :=
  let n := N_of_ascii c in
  if (n =? 8)%N then "\b"
  else if (n =? 9)%N then "\t"
  else if (n =? 10)%N then "\n"
  else if (n =? 12)%N then "\f"
  else if (n =? 13)%N then "\r"
  else if (c =? quote)%char then String "\" (String quote "")
  else if (c =? "\")%char then "\\"
  else if (n <? 32)%N then
    "\u00" ++ String (hexDigit (n / 16)) (String (hexDigit (n mod 16)) "")
  else String c "".

Fixpoint escapeString (s : string) : string :=
  match s with
  | EmptyString => EmptyString
  | String c r => escapeChar c ++ escapeString r
  end.

Definition QuoteJSONString (s : string) : string :=
  String quote (escapeString s ++ String quote "").

(** SerializeJSONProperty: [None] is [undefined], the value of a property
    that is left out of an object and printed as null in an array. *)
Fixpoint stringify (v : Value) : option string :=
  match v with
  | Undefined => None
  | Null => Some "null"
  | Bool true => Some "true"
  | Bool false => Some "false"
  | Num q => Some (Number_toString q)
  | Str s => Some (QuoteJSONString s)
  | Arr items =>
      Some ("[" ++
            join "," (map (fun x => match stringify x with
                                    | Some text => text
                                    | None => "null"
                                    end) items) ++
            "]")
  | Obj props =>
      Some ("{" ++
            join "," (flat_map
                        (fun kv => match stringify (snd kv) with
                                   | Some text =>
                                       [QuoteJSONString (fst kv) ++ ":" ++ text]
                                   | None => []
                                   end) props) ++
            "}")
  end.

(** *** JSON.parse *)

(** JSON white space: TAB, LF, CR, SP. *)
Definition isJsonSpace (c : ascii) : bool :=
  let n := N_of_ascii c in ((n =? 9) || (n =? 10) || (n =? 13) || (n =? 32))%N.

Fixpoint skipWs (s : string) : string :=
  match s with
  | String c r => if isJsonSpace c then skipWs r else s
  | EmptyString => EmptyString
  end.

Definition hexValue (c : ascii) : option N :=
  let n := N_of_ascii c in
  if isDigit c then Some (n - 48)%N
  else if (("a" <=? c) && (c <=? "f"))%char then Some (n - 87)%N
  else if (("A" <=? c) && (c <=? "F"))%char then Some (n - 55)%N
  else None.

Definition hexValue4 (a b c d : ascii) : option N :=
  match hexValue a, hexValue b, hexValue c, hexValue d with
  | Some x, Some y, Some z, Some w => Some (((x * 16 + y) * 16 + z) * 16 + w)%N
  | _, _, _, _ => None
  end.

(** The character a two-character escape denotes. *)
Definition unescape (e : ascii) : option ascii :=
  if (e =? quote)%char then Some quote
  else if (e =? "\")%char then Some "\"%char
  else if (e =? "/")%char then Some "/"%char
  else if (e =? "b")%char then Some "008"%char
  else if (e =? "f")%char then Some "012"%char
  else if (e =? "n")%char then Some "010"%char
  else if (e =? "r")%char then Some "013"%char
  else if (e =? "t")%char then Some "009"%char
  else None.

Definition consChar (c : ascii) (r : option (string * string))
  : option (string * string) :=
  match r with
  | Some (s, rest) => Some (String c s, rest)
  | None => None
  end.

(** The characters of a string literal after its opening quote, and the text
    after its closing quote.  An escape [\uXXXX] above FF has no 8-bit code
    unit and is refused. *)
Fixpoint parseStringBody (s : string) : option (string * string) :=
  match s with
  | EmptyString => None
  | String c r =>
      if (c =? quote)%char then Some (EmptyString, r)
      else if (c =? "\")%char then
        match r with
        | EmptyString => None
        | String e r1 =>
            if (e =? "u")%char then
              match r1 with
              | String h1 (String h2 (String h3 (String h4 r2))) =>
                  match hexValue4 h1 h2 h3 h4 with
                  | Some n =>
                      if (n <? 256)%N
                      then consChar (ascii_of_N n) (parseStringBody r2)
                      else None
                  | None => None
                  end
              | _ => None
              end
            else
              match unescape e with
              | Some ch => consChar ch (parseStringBody r1)
              | None => None
              end
        end
      else if (N_of_ascii c <? 32)%N then None
      else consChar c (parseStringBody r)
  end.

(** A run of decimal digits: its value on top of [acc], its length, the text
    after it. *)
Fixpoint parseDigits (acc : N) (count : nat) (s : string) : N * nat * string :=
  match s with
  | String c r =>
      if isDigit c
      then parseDigits (acc * 10 + (N_of_ascii c - 48)) (S count) r
      else (acc, count, s)
  | EmptyString => (acc, count, s)
  end.

Definition pow10 (e : Z) : Q :=
  match e with
  | Z0 => 1%Q
  | Zpos p => inject_Z (10 ^ Zpos p)
  | Zneg p => (1 # (10 ^ p))%Q
  end.

(** int: [0] or a non-zero digit followed by digits. *)
Definition parseInt (s : string) : option (N * string) :=
  match s with
  | String c r =>
      if (c =? "0")%char then Some (0%N, r)
      else if isDigit c then
        let '(n, _, rest) := parseDigits 0 0 s in Some (n, rest)
      else None
  | EmptyString => None
  end.

(** frac: a point and at least one digit; the digits and their number. *)
Definition parseFrac (s : string) : option (N * nat * string) :=
  match s with
  | String c r =>
      if (c =? ".")%char then
        let '(n, k, rest) := parseDigits 0 0 r in
        match k with O => None | S _ => Some (n, k, rest) end
      else Some (0%N, O, s)
  | EmptyString => Some (0%N, O, s)
  end.

(** exp: [e] or [E], an optional sign and at least one digit. *)
Definition parseExp (s : string) : option (Z * string) :=
  match s with
  | String c r =>
      if (c =? "e")%char || (c =? "E")%char then
        let '(negative, r1) :=
          match r with
          | String sg r' =>
              if (sg =? "-")%char then (true, r')
              else if (sg =? "+")%char then (false, r')
              else (false, r)
          | EmptyString => (false, r)
          end in
        let '(n, k, rest) := parseDigits 0 0 r1 in
        match k with
        | O => None
        | S _ => Some (if negative then (- Z.of_N n)%Z else Z.of_N n, rest)
        end
      else Some (0%Z, s)
  | EmptyString => Some (0%Z, s)
  end.

(** A JSON number and the text after it; the value is exact. *)
Definition parseNumber (s : string) : option (Q * string) :=
  let '(negative, s1) :=
    match s with
    | String c r => if (c =? "-")%char then (true, r) else (false, s)
    | EmptyString => (false, s)
    end in
  match parseInt s1 with
  | None => None
  | Some (i, s2) =>
      match parseFrac s2 with
      | None => None
      | Some (f, k, s3) =>
          match parseExp s3 with
          | None => None
          | Some (e, s4) =>
              let mantissa := (Z.of_N i * 10 ^ Z.of_nat k + Z.of_N f)%Z in
              let signed := if negative then (- mantissa)%Z else mantissa in
              Some (Qred (inject_Z signed * pow10 (e - Z.of_nat k)), s4)
          end
      end
  end.

(** CreateDataProperty on the object under construction: a repeated key
    keeps its place and takes the new value.  Keys stay in textual order;
    array-index keys, which an engine enumerates first, do not occur in the
    texts [serialize] writes. *)
Fixpoint defineProperty (props : list (string * Value)) (key : string)
  (v : Value) : list (string * Value) :=
  match props with
  | [] => [(key, v)]
  | (k, x) :: rest =>
      if k =? key then (k, v) :: rest
      else (k, x) :: defineProperty rest key v
  end.

(** The text after the prefix [word], when the text starts with it. *)
Fixpoint stripPrefix (word s : string) : option string :=
  match word with
  | EmptyString => Some s
  | String a word' =>
      match s with
      | String b s' => if (a =? b)%char then stripPrefix word' s' else None
      | EmptyString => None
      end
  end.

(** One of the literals [true], [false], [null]. *)
Definition literal (word : string) (v : Value) (s : string)
  : option (Value * string) :=
  match stripPrefix word s with
  | Some rest => Some (v, rest)
  | None => None
  end.

(** Recursive descent.  [fuel] bounds the depth of the calls; a call that
    reads [n] characters needs no more than [2 * n + 1] of it, so that
    [parse] never runs out (lemma [parse_complete]). *)
Fixpoint parseValue (fuel : nat) (s : string) : option (Value * string) :=
  match fuel with
  | O => None
  | S fuel' =>
      match s with
      | EmptyString => None
      | String c r =>
          if (c =? "{")%char then
            match skipWs r with
            | String c' r' =>
                if (c' =? "}")%char then Some (Obj [], r')
                else parseMembers fuel' (skipWs r) []
            | EmptyString => None
            end
          else if (c =? "[")%char then
            match skipWs r with
            | String c' r' =>
                if (c' =? "]")%char then Some (Arr [], r')
                else parseElements fuel' (skipWs r) []
            | EmptyString => None
            end
          else if (c =? quote)%char then
            match parseStringBody r with
            | Some (str, rest) => Some (Str str, rest)
            | None => None
            end
          else if (c =? "t")%char then literal "true" (Bool true) s
          else if (c =? "f")%char then literal "false" (Bool false) s
          else if (c =? "n")%char then literal "null" Null s
          else
            match parseNumber s with
            | Some (q, rest) => Some (Num q, rest)
            | None => None
            end
      end
  end

with parseElements (fuel : nat) (s : string) (acc : list Value)
  : option (Value * string) :=
  match fuel with
  | O => None
  | S fuel' =>
      match parseValue fuel' s with
      | Some (v, rest) =>
          match skipWs rest with
          | String c r =>
              if (c =? ",")%char then parseElements fuel' (skipWs r) (acc ++ [v])
              else if (c =? "]")%char then Some (Arr (acc ++ [v]), r)
              else None
          | EmptyString => None
          end
      | None => None
      end
  end

with parseMembers (fuel : nat) (s : string) (acc : list (string * Value))
  : option (Value * string) :=
  match fuel with
  | O => None
  | S fuel' =>
      match s with
      | String q r =>
          if (q =? quote)%char then
            match parseStringBody r with
            | Some (key, rest) =>
                match skipWs rest with
                | String colon r1 =>
                    if (colon =? ":")%char then
                      match parseValue fuel' (skipWs r1) with
                      | Some (v, rest') =>
                          match skipWs rest' with
                          | String c r2 =>
                              if (c =? ",")%char then
                                parseMembers fuel' (skipWs r2)
                                  (defineProperty acc key v)
                              else if (c =? "}")%char then
                                Some (Obj (defineProperty acc key v), r2)
                              else None
                          | EmptyString => None
                          end
                      | None => None
                      end
                    else None
                | EmptyString => None
                end
            | None => None
            end
          else None
      | EmptyString => None
      end
  end.

(** [JSON.parse(text)]; [None] when it throws a SyntaxError. *)
Definition parse (text : string) : option Value :=
  match parseValue (2 * String.length text + 2) (skipWs text) with
  | Some (v, rest) =>
      match skipWs rest with
      | EmptyString => Some v
      | String _ _ => None
      end
  | None => None
  end.

End JSON.

(** ** ConversationManager (src/chatbot/ConversationManager.js) *)

Module ConversationManager.
Import JS.

(** [static MAX_MESSAGE_HISTORY = 100] *)
Definition MAX_MESSAGE_HISTORY : Q := inject_Z 100.

Record t : Type := {
  messages : list Value;
  messageIdCounter : Q;
  maxMessages : Q
}.

(** [constructor(options = {})]; the option is the number
    [options.maxMessages], [None] when absent. *)
Definition constructor (maxMessagesOption : option Q) : t :=
  {| messages := [];
     messageIdCounter := 0%Q;
     maxMessages :=
       match maxMessagesOption with
       | Some q => if truthy (Num q) then q else MAX_MESSAGE_HISTORY
       | None => MAX_MESSAGE_HISTORY
       end |}.

(** [_generateId()]; [now] is the reading of [Date.now()].  The counter is
    a binary64 number: [this.messageIdCounter++] stores the sum rounded, so
    a counter that has reached 2^53 stays there. *)
Definition _generateId (now : Z) (mgr : t) : string * t :=
  let counter := binary64 (messageIdCounter mgr + 1) in
  ("msg_" ++ Number_toString (inject_Z now) ++ "_" ++ Number_toString counter,
   {| messages := messages mgr;
      messageIdCounter := counter;
      maxMessages := maxMessages mgr |}).

(** [this.messages.splice(0, excessCount)] when the history is longer than
    the limit; the count is truncated to an integer by [splice].  The
    difference is computed exactly, as the source does for a limit that is
    an integer.  For another limit the source rounds the difference to
    binary64, which can only raise the count when the limit is positive: the
    statements below take an integer limit or hold under either reading. *)
Definition _enforceMessageLimit (mgr : t) : t :=
  let len := inject_Z (Z.of_nat (List.length (messages mgr))) in
  if Qlt_le_dec (maxMessages mgr) len then
    let excessCount := (len - maxMessages mgr)%Q in
    {| messages := skipn (Z.to_nat (Qfloor excessCount)) (messages mgr);
       messageIdCounter := messageIdCounter mgr;
       maxMessages := maxMessages mgr |}
  else mgr.

Definition quoted (word : string) : string :=
  String JSON.quote (word ++ String JSON.quote "").

(** [validSenders.includes(sender)] *)
Definition isValidSender (sender : Value) : bool :=
  match sender with
  | Str s => (s =? "user") || (s =? "bot")
  | _ => false
  end.

(** [timestamp !== null ? timestamp : Date.now()], where an omitted
    (undefined) argument has become [null]. *)
Definition timestampOrNow (timestamp : Value) (now : Z) : Value :=
  match timestamp with
  | Undefined | Null => Num (inject_Z now)
  | _ => timestamp
  end.

(** [addMessage(message, sender, timestamp = null)]; [nowId] is the clock
    reading taken by [_generateId], [nowTimestamp] the one taken for the
    default timestamp.  The result is what the call returns or throws,
    together with the manager after the call: the two validations throw
    before anything changes, whereas [String(message)] is evaluated after
    [_generateId()] and, when it throws its TypeError (whose wording is the
    engine's), leaves the counter advanced. *)
Definition addMessage (nowId nowTimestamp : Z)
  (message sender timestamp : Value) (mgr : t) : Result Value * t :=
  match message with
  | Undefined | Null => (Throw "Message content is required", mgr)
  | _ =>
      if negb (truthy sender) || negb (isValidSender sender) then
        (Throw ("Sender must be either " ++ quoted "user" ++ " or " ++
                quoted "bot"), mgr)
      else
        let '(id, mgr1) := _generateId nowId mgr in
        match ToString message with
        | None => (Throw "Cannot convert object to primitive value", mgr1)
        | Some content =>
            let messageObject :=
              Obj [ ("id", Str id);
                    ("content", Str content);
                    ("sender", sender);
                    ("timestamp", timestampOrNow timestamp nowTimestamp) ] in
            let mgr2 :=
              {| messages := (messages mgr1 ++ [messageObject])%list;
                 messageIdCounter := messageIdCounter mgr1;
                 maxMessages := maxMessages mgr1 |} in
            (Ok messageObject, _enforceMessageLimit mgr2)
        end
  end.

Definition getMaxMessages (mgr : t) : Q := maxMessages mgr.

Definition setMaxMessages (limit : Value) (mgr : t) : t :=
  match limit with
  | Num q =>
      if Qlt_le_dec 0 q then
        _enforceMessageLimit
          {| messages := messages mgr;
             messageIdCounter := messageIdCounter mgr;
             maxMessages := q |}
      else mgr
  | _ => mgr
  end.

Definition getHistory (mgr : t) : list Value := messages mgr.

Definition clear (mgr : t) : t :=
  {| messages := [];
     messageIdCounter := messageIdCounter mgr;
     maxMessages := maxMessages mgr |}.

(** [serialize()]: the object literal has no undefined member, so
    [JSON.stringify] yields text. *)
Definition serialize (mgr : t) : string :=
  match JSON.stringify
          (Obj [ ("messages", Arr (messages mgr));
                 ("messageIdCounter", Num (messageIdCounter mgr)) ]) with
  | Some text => text
  | None => "undefined"
  end.

(** [restore(data)].  The [catch] is reached when [JSON.parse] throws and
    when [parsed] is null, where reading [parsed.messages] throws. *)
Definition restore (data : string) (mgr : t) : bool * t :=
  match JSON.parse data with
  | None => (false, mgr)
  | Some Null => (false, mgr)
  | Some parsed =>
      let mgr1 :=
        match get parsed "messages" with
        | Arr items =>
            {| messages := items;
               messageIdCounter := messageIdCounter mgr;
               maxMessages := maxMessages mgr |}
        | _ => mgr
        end in
      let mgr2 :=
        match get parsed "messageIdCounter" with
        | Num q =>
            {| messages := messages mgr1;
               messageIdCounter := q;
               maxMessages := maxMessages mgr1 |}
        | _ => mgr1
        end in
      (true, mgr2)
  end.

(** [this.messages.slice(Math.max(0, this.messages.length - messageCount))]
    for a finite [messageCount].  The start index is not negative, so
    [slice] truncates it downwards.  The difference is computed exactly, as
    the source does for a count that is an integer; for another count the
    source rounds it to binary64, which moves the start index by less than
    one. *)
Definition recent (messageCount : Q) (mgr : t) : list Value :=
  let len := inject_Z (Z.of_nat (List.length (messages mgr))) in
  let startIndex :=
    if Qlt_le_dec 0 (len - messageCount) then (len - messageCount)%Q
    else 0%Q in
  skipn (Z.to_nat (Qfloor startIndex)) (messages mgr).

(** [getContext(messageCount = 5)].  An argument that is not a number, or
    is below zero, is replaced by 5.  NaN is a number and is not below
    zero: the start index is NaN, which [slice] takes for 0.  With
    Infinity the difference is -Infinity and the start index 0. *)
Definition getContext (messageCount : Argument) (mgr : t) : list Value :=
  match messageCount with
  | Plain (Num q) => if Qlt_le_dec q 0 then recent 5%Q mgr else recent q mgr
  | Plain _ => recent 5%Q mgr
  | NaN => messages mgr
  | Infinity false => messages mgr
  | Infinity true => recent 5%Q mgr
  end.

(** [getMessageCount()] *)
Definition getMessageCount (mgr : t) : nat := List.length (messages mgr).

(** [hasMessages()] *)
Definition hasMessages (mgr : t) : bool :=
  (0 <? List.length (messages mgr))%nat.

(** [getLastMessage()] *)
Definition getLastMessage (mgr : t) : Value :=
  if (List.length (messages mgr) =? 0)%nat then Null
  else nth (List.length (messages mgr) - 1) (messages mgr) Undefined.

(** [msg.sender === sender] for a string [sender]; reading the property of
    [null] or [undefined] throws a TypeError ([None]). *)
Definition sentBy (sender : string) (msg : Value) : option bool :=
  match msg with
  | Undefined | Null => None
  | _ =>
      match get msg "sender" with
      | Str s => Some (s =? sender)
      | _ => Some false
      end
  end.

(** [this.messages.filter(msg => msg.sender === sender)] *)
Fixpoint filterBySender (sender : string) (msgs : list Value)
  : option (list Value) :=
  match msgs with
  | [] => Some []
  | msg :: rest =>
      match sentBy sender msg with
      | None => None
      | Some keep =>
          match filterBySender sender rest with
          | None => None
          | Some kept => Some (if keep then msg :: kept else kept)
          end
      end
  end.

(** [getMessagesBySender(sender)] for a string [sender]; [None] when it
    throws. *)
Definition getMessagesBySender (sender : string) (mgr : t)
  : option (list Value) :=
  filterBySender sender (messages mgr).

End ConversationManager.

(** ** Reference notions the statements compare the code with *)

Module Reference.
Import JS.

(** A keyword counts when it has at least two characters. *)
Definition qualifies (keyword : string) : bool :=
  (2 <=? String.length keyword)%nat.

(** Points of one keyword against the lowercase text of an item. *)
Definition points (text keyword : string) : Q :=
  if KnowledgeBase.wordBoundaryTest keyword text then 1%Q
  else if includes text keyword then (1 # 2)%Q
  else 0%Q.

Definition sumPoints (text : string) (keywords : list string) : Q :=
  fold_right (fun k acc => (points text k + acc)%Q) 0%Q
    (filter qualifies keywords).

Definition countQualifying (keywords : list string) : nat :=
  List.length (filter qualifies keywords).

(** The flattened lowercase text of an item. *)
Definition textOf (item : Value) : string :=
  toLowerCase (KnowledgeBase._itemToSearchText item).

(** The relevance formula of the specification. *)
Definition relevanceFormula (item : Value) (keywords : list string) : Q :=
  match countQualifying keywords with
  | O => 0%Q
  | S _ =>
      (sumPoints (textOf item) keywords /
       inject_Z (Z.of_nat (countQualifying keywords)))%Q
  end.

(** The prefix of a list that ends with its first element satisfying [p];
    the whole list when there is none. *)
Fixpoint cutAfter {A : Type} (p : A -> bool) (l : list A) : list A :=
  match l with
  | [] => []
  | x :: r => if p x then [x] else x :: cutAfter p r
  end.

(** Scan all, then sort: every category searched by [_searchInData]. *)
Definition scanAll (kb : KnowledgeBase.t) (keywords : list string)
  : list KnowledgeBase.SearchResult :=
  flat_map
    (fun category =>
       KnowledgeBase._searchInData (get (KnowledgeBase.data kb) category)
         keywords (Some category))
    (KnowledgeBase.categories kb).

(** The last [n] elements of a list. *)
Definition lastn {A : Type} (n : nat) (l : list A) : list A :=
  skipn (List.length l - n) l.

(** Score of a category as the specification words it: a sum over the high
    patterns and a sum over the medium patterns. *)
Definition highPoints (query pattern : string) : Z :=
  if includes query pattern then 5%Z
  else if QueryProcessor.wordBoundaryTest pattern query then 4%Z
  else 0%Z.

Definition mediumPoints (query pattern : string) : Z :=
  if QueryProcessor.wordBoundaryTest pattern query then 2%Z
  else if includes query pattern then 1%Z
  else 0%Z.

Definition aggregateScore (query : string) (patterns : QueryProcessor.Patterns)
  : Z :=
  (fold_right Z.add 0 (map (highPoints query) (QueryProcessor.high patterns)) +
   fold_right Z.add 0 (map (mediumPoints query) (QueryProcessor.medium patterns)))%Z.

(** A message as [addMessage] builds it for textual content: four string or
    integer fields. *)
Record Message : Type := {
  msg_id : string;
  msg_content : string;
  msg_sender : string;
  msg_timestamp : Z
}.

Definition messageObject (m : Message) : Value :=
  Obj [ ("id", Str (msg_id m));
        ("content", Str (msg_content m));
        ("sender", Str (msg_sender m));
        ("timestamp", Num (inject_Z (msg_timestamp m))) ].

(** One call of [addMessage], with the two clock readings it may take. *)
Record Call : Type := {
  nowId : Z;
  nowTimestamp : Z;
  message : Value;
  sender : Value;
  timestamp : Value
}.

Definition call (c : Call) (mgr : ConversationManager.t)
  : Result Value * ConversationManager.t :=
  ConversationManager.addMessage (nowId c) (nowTimestamp c)
    (message c) (sender c) (timestamp c) mgr.

(** A sequence of calls of [addMessage] none of which throws: the messages
    returned, in order, and the final state. *)
Fixpoint addAll (calls : list Call) (mgr : ConversationManager.t)
  : Result (list Value * ConversationManager.t) :=
  match calls with
  | [] => Ok ([], mgr)
  | c :: rest =>
      match call c mgr with
      | (Ok msg, mgr') =>
          match addAll rest mgr' with
          | Ok (msgs, final) => Ok (msg :: msgs, final)
          | Throw e => Throw e
          end
      | (Throw e, _) => Throw e
      end
  end.

(** Operations of a session.  After a call of [addMessage] that throws the
    session goes on with the manager as the call left it. *)
Inductive Op : Type :=
| OpAddMessage (c : Call)
| OpClear
| OpSetMaxMessages (limit : Value).

(** The messages a session creates, in order, and its final state. *)
Fixpoint run (ops : list Op) (mgr : ConversationManager.t)
  : list Value * ConversationManager.t :=
  match ops with
  | [] => ([], mgr)
  | OpAddMessage c :: rest =>
      match call c mgr with
      | (Ok msg, mgr') =>
          let '(msgs, final) := run rest mgr' in (msg :: msgs, final)
      | (Throw _, mgr') => run rest mgr'
      end
  | OpClear :: rest => run rest (ConversationManager.clear mgr)
  | OpSetMaxMessages limit :: rest =>
      run rest (ConversationManager.setMaxMessages limit mgr)
  end.

End Reference.

(** ** Auxiliary notions of the proofs *)

Module Auxiliary.
Import JS KnowledgeBase JSON Reference.

(** The count of qualifying keywords, as a number. *)
Definition countQ (kws : list string) : Q :=
  inject_Z (Z.of_nat (countQualifying kws)).

(** The early-exit predicate of [search], on a result. *)
Definition confident (kb : t) (r : SearchResult) : bool :=
  highConfidence kb (relevance r).

(** Every hit carries the score of its entry, and that score is positive. *)
Definition scored (keywords : list string) (r : SearchResult) : Prop :=
  relevance r = _calculateRelevance (result_data r) keywords /\
  (0 < relevance r)%Q.

(** A text that does not go on with a digit. *)
Definition endsDigits (rest : string) : Prop :=
  match rest with
  | EmptyString => True
  | String c _ => isDigit c = false
  end.

(** Every character of a text satisfies [p]. *)
Fixpoint allChars (p : ascii -> bool) (s : string) : bool :=
  match s with
  | EmptyString => true
  | String c r => p c && allChars p r
  end.

(** A digit or the minus sign. *)
Definition isNumberChar (c : ascii) : bool := isDigit c || (c =? "-")%char.

(** A text that cannot continue a number. *)
Definition endsNumber (rest : string) : Prop :=
  match rest with
  | EmptyString => True
  | String c _ =>
      isDigit c = false /\ (c =? ".")%char = false /\
      (c =? "e")%char = false /\ (c =? "E")%char = false
  end.

(** The text [JSON.stringify] writes for a message, followed by [rest]. *)
Definition messageText (m : Message) (rest : string) : string :=
  String "{"
    (QuoteJSONString "id" ++ String ":"
       (QuoteJSONString (msg_id m) ++ String ","
          (QuoteJSONString "content" ++ String ":"
             (QuoteJSONString (msg_content m) ++ String ","
                (QuoteJSONString "sender" ++ String ":"
                   (QuoteJSONString (msg_sender m) ++ String ","
                      (QuoteJSONString "timestamp" ++ String ":"
                         (Z_toString (msg_timestamp m) ++
                          String "}" rest)))))))).

(** The elements of a non-empty array of messages, comma separated. *)
Fixpoint elementsText (m : Message) (ms : list Message) (rest : string)
  : string :=
  match ms with
  | [] => messageText m rest
  | m' :: ms' => messageText m (String "," (elementsText m' ms' rest))
  end.

(** The text of an array of messages. *)
Definition arrayText (ms : list Message) (rest : string) : string :=
  match ms with
  | [] => String "[" (String "]" rest)
  | m :: ms' => String "[" (elementsText m ms' (String "]" rest))
  end.

(** What [serialize] writes for a history of messages and an integer
    counter. *)
Definition stateText (ms : list Message) (counter : Z) : string :=
  String "{"
    (QuoteJSONString "messages" ++ String ":"
       (arrayText ms
          (String ","
             (QuoteJSONString "messageIdCounter" ++ String ":"
                (Z_toString counter ++ String "}" ""))))).

(** The object literal [serialize] hands to [JSON.stringify]. *)
Definition stateValue (ms : list Message) (counter : Z) : Value :=
  Obj [ ("messages", Arr (map messageObject ms));
        ("messageIdCounter", Num (inject_Z counter)) ].

(** The outcome of [detectIntent] read off the table of scores. *)
Definition outcome (scores : list (string * Z)) (result : string) : Prop :=
  (Forall (fun e => (snd e < 2)%Z) scores /\ result = "general") \/
  (exists pre intent m post,
      scores = (pre ++ (intent, m) :: post)%list /\
      (2 <= m)%Z /\
      Forall (fun e => (snd e < m)%Z) pre /\
      Forall (fun e => (snd e <= m)%Z) post /\
      result = intent).

(** The id [_generateId] builds from a clock reading and a counter. *)
Definition idText (now : Z) (counter : Q) : string :=
  "msg_" ++ Number_toString (inject_Z now) ++ "_" ++ Number_toString counter.

(** The message object a successful call builds around the converted
    content. *)
Definition built (c : Call) (counter : Q) (content : string) : Value :=
  Obj [ ("id", Str (idText (nowId c) counter));
        ("content", Str content);
        ("sender", sender c);
        ("timestamp",
         ConversationManager.timestampOrNow (timestamp c) (nowTimestamp c)) ].

Definition notUnderscore (c : ascii) : bool := negb (c =? "_")%char.

(** [msg.id] *)
Definition idOf (msg : Value) : Value := get msg "id".

(** A message whose id carries a counter above [n]. *)
Definition idAbove (n : nat) (msg : Value) : Prop :=
  exists now k, (n < k)%nat /\
    idOf msg = Str (idText now (inject_Z (Z.of_nat k))).

(** What a successful call guarantees: it reads at least one character, and
    it succeeds with the same result on any fuel above a bound given by the
    number of characters read. *)
Definition valueOk (fuel : nat) : Prop :=
  forall s v rest,
    parseValue fuel s = Some (v, rest) ->
    (String.length rest < String.length s)%nat /\
    forall fuel',
      (2 * (String.length s - String.length rest) <= fuel')%nat ->
      parseValue fuel' s = Some (v, rest).

Definition elementsOk (fuel : nat) : Prop :=
  forall s acc v rest,
    parseElements fuel s acc = Some (v, rest) ->
    (String.length rest < String.length s)%nat /\
    forall fuel',
      (2 * (String.length s - String.length rest) + 1 <= fuel')%nat ->
      parseElements fuel' s acc = Some (v, rest).

Definition membersOk (fuel : nat) : Prop :=
  forall s acc v rest,
    parseMembers fuel s acc = Some (v, rest) ->
    (String.length rest < String.length s)%nat /\
    forall fuel',
      (2 * (String.length s - String.length rest) + 1 <= fuel')%nat ->
      parseMembers fuel' s acc = Some (v, rest).

(** An argument [getContext] replaces by 5: one that is not a number, and
    a number below zero. *)
Definition defaulted (a : Argument) : bool :=
  match a with
  | Plain (Num q) => negb (Qle_bool 0 q)
  | Plain _ => true
  | NaN => false
  | Infinity negative => negative
  end.

(** A name every object inherits from [Object.prototype]: reading it from
    an object without such a property of its own does not give undefined. *)
Definition inherited (name : string) : bool :=
  QueryProcessor.has QueryProcessor.inheritedNames name.

(** A text of the ASCII range, where the case and white-space rules of the
    embedding are those of the source. *)
Definition isASCII (s : string) : bool :=
  allChars (fun c => (N_of_ascii c <? 128)%N) s.

(** A call that passes the two validations of [addMessage], and so
    generates an id. *)
Definition passesValidation (c : Call) : bool :=
  match message c with
  | Undefined | Null => false
  | _ =>
      truthy (sender c) && ConversationManager.isValidSender (sender c)
  end.



(** A call whose content has a string conversion. *)
Definition converts (c : Call) : bool :=
  match ToString (message c) with
  | Some _ => true
  | None => false
  end.

(** The calls of a session that generate an id, and those among them that
    create a message. *)
Definition generating (ops : list Op) : list Op :=
  filter (fun op => match op with
                    | OpAddMessage c => passesValidation c
                    | _ => false
                    end) ops.

Definition creating (ops : list Op) : list Op :=
  filter (fun op => match op with
                    | OpAddMessage c => passesValidation c && converts c
                    | _ => false
                    end) ops.

(** The largest integer up to which a binary64 counter counts. *)
Definition counterLimit : Z := 2 ^ 53.

(** A manager whose id counter is an integer within that range. *)
Definition counting (mgr : ConversationManager.t) : Prop :=
  exists k : Z,
    (0 <= k <= counterLimit)%Z /\
    ConversationManager.messageIdCounter mgr = inject_Z k.

(** A message object whose sender is one of the two [addMessage] admits. *)
Definition knownSender (msg : Value) : bool :=
  match msg with
  | Obj _ =>
      match get msg "sender" with
      | Str s => (s =? "user") || (s =? "bot")
      | _ => false
      end
  | _ => false
  end.

(** A text without upper-case letters, as [toLowerCase] leaves it. *)
Definition noUpper (s : string) : bool :=
  allChars (fun c => negb (isUpper c)) s.

(** A check of all 256 characters. *)
Definition forallAscii (p : ascii -> bool) : bool :=
  forallb (fun n => p (ascii_of_nat n)) (seq 0 256).

(** The characters of an extracted keyword: [a-z0-9_]. *)
Definition isKeywordChar (c : ascii) : bool :=
  isLower c || isDigit c || (c =? "_")%char.

(** The number of high patterns a query contains. *)
Definition containedIn (query : string) (patterns : list string) : Z :=
  Z.of_nat (List.length (filter (includes query) patterns)).

(** The history holds no more messages than the limit, rounded up, allows. *)
Definition bounded (mgr : ConversationManager.t) : Prop :=
  (List.length (ConversationManager.messages mgr) <=
   Z.to_nat (Qceiling (ConversationManager.maxMessages mgr)))%nat.

(** Every message of the history has a known sender. *)
Definition allKnown (mgr : ConversationManager.t) : Prop :=
  Forall (fun msg => knownSender msg = true) (ConversationManager.messages mgr).

(** The entries of a category that a search can return: the items of an
    array; an object itself and the items of the arrays it holds. *)
Definition entriesOf (data : Value) : list Value :=
  match data with
  | Arr items => items
  | Obj _ =>
      data ::
      flat_map (fun key => match get data key with
                           | Arr items => items
                           | _ => []
                           end) (keys data)
  | _ => []
  end.

(** A result that names a category of the knowledge base and holds one of
    its entries. *)
Definition fromCategory (kb : t) (r : SearchResult) : Prop :=
  exists c,
    category r = Some c /\ In c (categories kb) /\
    In (result_data r) (entriesOf (get (data kb) c)).

(** A session whose [addMessage] calls leave the timestamp to the clock, as
    the calls of the chatbot do. *)
Definition defaultTimestamps (ops : list Op) : bool :=
  forallb (fun op => match op with
                     | OpAddMessage c =>
                         match timestamp c with
                         | Undefined | Null => true
                         | _ => false
                         end
                     | _ => true
                     end) ops.

(** A history of messages with textual fields and integer timestamps. *)
Definition plain (mgr : ConversationManager.t) : Prop :=
  exists ms, ConversationManager.messages mgr = map messageObject ms.

(** A value with every text in it put in lower case; the keys of objects
    stay as they are. *)
Fixpoint lowerValue (v : Value) : Value :=
  match v with
  | Str s => Str (toLowerCase s)
  | Arr items => Arr (map lowerValue items)
  | Obj props => Obj (map (fun kv => (fst kv, lowerValue (snd kv))) props)
  | _ => v
  end.

End Auxiliary.

(** ** Concrete data for examples *)

Module Fixture.
Import JS.

Definition build (data : Value) : KnowledgeBase.t :=
  {| KnowledgeBase.data := data;
     KnowledgeBase.categories := keys data;
     KnowledgeBase.highConfidenceThreshold :=
       KnowledgeBase.HIGH_CONFIDENCE_THRESHOLD |}.

(** Two categories that both hold an entry matching "foo" as a word. *)
Definition twoCategories : KnowledgeBase.t :=
  build (Obj [ ("a", Arr [Str "foo"]); ("b", Arr [Str "foo bar"]) ]).

(** One category whose first entry matches "foo" inside a word only. *)
Definition mixedMatches : KnowledgeBase.t :=
  build (Obj [ ("a", Arr [Str "foobar baz"; Str "foo bar"]) ]).

Definition say (now : Z) (text : string) : Reference.Call :=
  {| Reference.nowId := now;
     Reference.nowTimestamp := now;
     Reference.message := Str text;
     Reference.sender := Str "user";
     Reference.timestamp := Undefined |}.

Definition threeCalls : list Reference.Call :=
  [say 1700 "one"; say 1700 "two"; say 1701 "three"].

(** A new manager after one message. *)
Definition afterHello : ConversationManager.t :=
  snd (Reference.call (say 1700 "hello") (ConversationManager.constructor None)).

(** A manager that holds more messages than its limit of one and a half
    allows, as [restore] can leave it. *)
Definition overfull : ConversationManager.t :=
  {| ConversationManager.messages := [Str "a"; Str "b"; Str "c"];
     ConversationManager.messageIdCounter := 3%Q;
     ConversationManager.maxMessages := (3 # 2)%Q |}.

(** A session of the chatbot: a question, an answer, a change of limit. *)
Definition shortSession : list Reference.Op :=
  [ Reference.OpAddMessage (say 1700 "hello");
    Reference.OpAddMessage
      {| Reference.nowId := 1701;
         Reference.nowTimestamp := 1702;
         Reference.message := Str "Hi there";
         Reference.sender := Str "bot";
         Reference.timestamp := Null |};
    Reference.OpSetMaxMessages (Num 50) ].

(** Stored conversations that hold a counter only: 0, and 2^53. *)
Definition storedCounterZero : string :=
  "{" ++ ConversationManager.quoted "messageIdCounter" ++ ":0}".

Definition storedCounterAtLimit : string :=
  "{" ++ ConversationManager.quoted "messageIdCounter" ++ ":9007199254740992}".

(** Two messages in the same millisecond; between them a call with a sender
    that is rejected, a [clear], and a call whose content has no string
    conversion. *)
Definition mixedSession : list Reference.Op :=
  [ Reference.OpAddMessage (say 1700 "one");
    Reference.OpAddMessage
      {| Reference.nowId := 1700;
         Reference.nowTimestamp := 1700;
         Reference.message := Str "hi";
         Reference.sender := Str "admin";
         Reference.timestamp := Null |};
    Reference.OpClear;
    Reference.OpAddMessage
      {| Reference.nowId := 1700;
         Reference.nowTimestamp := 1700;
         Reference.message := Obj [("toString", Num 1)];
         Reference.sender := Str "user";
         Reference.timestamp := Null |};
    Reference.OpAddMessage (say 1700 "two") ].

End Fixture.

(** ** Persistence of the conversation (src/unnamed/part_001) *)

Module Chatbot.
Import JS.

Definition CONVERSATION_STORAGE_KEY : string := "portfolio_chatbot_conversation".

(** [sessionStorage]: the items it holds.  Whether the storage can be used
    at all and whether it accepts a write (it throws when it is unavailable
    or full) are inputs of the operations, as the clock is. *)
Definition Storage : Type := list (string * string).

(** [sessionStorage.getItem(key)]; [None] is [null]. *)
Fixpoint getItem (key : string) (storage : Storage) : option string :=
  match storage with
  | [] => None
  | (k, v) :: rest => if k =? key then Some v else getItem key rest
  end.

(** [sessionStorage.setItem(key, value)] when it is accepted. *)
Fixpoint setItem (key value : string) (storage : Storage) : Storage :=
  match storage with
  | [] => [(key, value)]
  | (k, v) :: rest =>
      if k =? key then (k, value) :: rest
      else (k, v) :: setItem key value rest
  end.

(** [saveConversationToStorage(conversationManager)]; a write that throws
    is caught and leaves the storage as it was. *)
Definition saveConversationToStorage (accepted : bool)
  (conversationManager : ConversationManager.t) (storage : Storage)
  : Storage :=
  let serialized := ConversationManager.serialize conversationManager in
  if accepted then setItem CONVERSATION_STORAGE_KEY serialized storage
  else storage.

(** [restoreConversationFromStorage(conversationManager)]; a storage that
    cannot be read throws, which is caught. *)
Definition restoreConversationFromStorage (available : bool)
  (conversationManager : ConversationManager.t) (storage : Storage)
  : bool * ConversationManager.t :=
  if available then
    match getItem CONVERSATION_STORAGE_KEY storage with
    | Some stored =>
        if truthy (Str stored) then
          ConversationManager.restore stored conversationManager
        else (false, conversationManager)
    | None => (false, conversationManager)
    end
  else (false, conversationManager).

End Chatbot.

(** * Proofs *)

(** ** Facts about the run-time model *)

Module JSFacts.
Import JS Auxiliary.

Section SortByKey.
Context {A : Type} (key : A -> Q).

(** The comparator [(a, b) => key(b) - key(a)]. *)
Let descending (a b : A) : Q := (key b - key a)%Q.
Let before (a b : A) : Prop := (key b <= key a)%Q.

Lemma insertSorted_perm (x : A) (l : list A) :
  Permutation (insertSorted descending x l) (x :: l).
Proof.
  induction l as [|y r IH]; simpl.
  - apply Permutation_refl.
  - destruct (Qlt_le_dec 0 (descending x y)).
    + eapply Permutation_trans; [apply perm_skip, IH | apply perm_swap].
    + apply Permutation_refl.
Qed.

Lemma sort_perm (l : list A) : Permutation (sort descending l) l.
Proof.
  induction l as [|x r IH]; simpl.
  - constructor.
  - eapply Permutation_trans; [apply insertSorted_perm | now apply perm_skip].
Qed.

Lemma insertSorted_sorted (x : A) (l : list A) :
  StronglySorted before l -> StronglySorted before (insertSorted descending x l).
Proof.
  induction l as [|y r IH]; simpl; intros Hs.
  - repeat constructor.
  - inversion Hs as [|? ? Hr Hall]; subst.
    destruct (Qlt_le_dec 0 (descending x y)) as [Hlt|Hle].
    + constructor; [now apply IH|].
      assert (Hyx : before y x).
      { unfold before, descending in *.
        apply Qlt_le_weak. apply (Qplus_lt_l _ _ (- key x)%Q).
        setoid_replace (key x + - key x)%Q with 0%Q by ring. exact Hlt. }
      eapply Permutation_Forall; [apply Permutation_sym, insertSorted_perm|].
      constructor; assumption.
    + assert (Hxy : before x y).
      { unfold before, descending in *.
        apply (Qplus_le_l _ _ (- key x)%Q).
        setoid_replace (key x + - key x)%Q with 0%Q by ring. exact Hle. }
      constructor; [assumption|].
      constructor; [assumption|].
      eapply Forall_impl; [|exact Hall].
      intros z Hz. unfold before in *. eapply Qle_trans; eassumption.
Qed.

Lemma sort_sorted (l : list A) : StronglySorted before (sort descending l).
Proof.
  induction l as [|x r IH]; simpl.
  - constructor.
  - now apply insertSorted_sorted.
Qed.
End SortByKey.

End JSFacts.

(** ** The patterns the classes compile *)

Module RegexFacts.
Import JS KnowledgeBase Auxiliary.

(** [_escapeRegex] escapes exactly the syntax characters, and neither the
    letter b nor anything else. *)
Lemma escaped_char (c : ascii) :
  isEscaped c = true ->
  (c =? "b")%char = false /\ isSyntaxChar c = true.
Proof.
  destruct c as [[] [] [] [] [] [] [] []]; intros H;
    try discriminate H; split; reflexivity.
Qed.

Lemma plain_char (c : ascii) :
  isEscaped c = false ->
  (c =? "\")%char = false /\ isSyntaxChar c = false.
Proof.
  destruct c as [[] [] [] [] [] [] [] []]; intros H;
    try discriminate H; split; reflexivity.
Qed.

Lemma compileRegex_escaped (keyword tail : string) (atoms : list Atom) :
  compileRegex tail = Some atoms ->
  compileRegex (_escapeRegex keyword ++ tail) =
  Some (map Lit (list_ascii_of_string keyword) ++ atoms)%list.
Proof.
  intros Htail. induction keyword as [|c r IH]; [exact Htail|].
  cbn [_escapeRegex list_ascii_of_string map app].
  destruct (isEscaped c) eqn:Ec.
  - destruct (escaped_char c Ec) as [Hb Hs].
    cbn [append compileRegex].
    change (("\" =? "\")%char) with true. cbv iota.
    now rewrite Hb, Hs, IH.
  - destruct (plain_char c Ec) as [Hb Hs].
    cbn [append compileRegex]. now rewrite Hb, Hs, IH.
Qed.

(** The pattern built for a keyword is inside the modelled fragment: a word
    boundary, the characters of the keyword taken literally, a word
    boundary. *)
Lemma wordBoundaryTest_atoms (keyword text : string) :
  wordBoundaryTest keyword text =
  searchAtoms
    (WordBoundary :: map Lit (list_ascii_of_string keyword) ++ [WordBoundary])
    None text.
Proof.
  unfold wordBoundaryTest, RegExp_test_i.
  change ("\b" ++ _escapeRegex keyword ++ "\b")
    with (String "\" (String "b" (_escapeRegex keyword ++ "\b"))).
  cbn [compileRegex].
  change (("\" =? "\")%char) with true. change (("b" =? "b")%char) with true.
  cbv iota.
  now rewrite (compileRegex_escaped keyword "\b" [WordBoundary] eq_refl).
Qed.

Example whole_word_examples :
  wordBoundaryTest "foo" "a foo, b" = true /\
  wordBoundaryTest "foo" "foobar" = false /\
  wordBoundaryTest "FOO" "a foo" = true /\
  wordBoundaryTest "c++" "c++ code" = false /\
  wordBoundaryTest "c++" "c++code" = true /\
  wordBoundaryTest "a.c" "abc" = false.
Proof. repeat split. Qed.

End RegexFacts.

(** ** The model on examples *)

(** ** The relevance score *)

Module RelevanceFacts.
Import JS KnowledgeBase Reference Auxiliary.

Lemma qualifies_short (k : string) :
  (String.length k <? 2)%nat = negb (qualifies k).
Proof.
  unfold qualifies.
  destruct (Nat.ltb_spec (String.length k) 2), (Nat.leb_spec 2 (String.length k));
    simpl; auto; lia.
Qed.

Lemma points_bounds (text k : string) : (0 <= points text k <= 1)%Q.
Proof.
  unfold points.
  destruct (wordBoundaryTest k text); [split; discriminate|].
  destruct (includes text k); split; discriminate.
Qed.

Lemma sumPoints_cons (text k : string) (kws : list string) :
  sumPoints text (k :: kws) =
  if qualifies k then (points text k + sumPoints text kws)%Q
  else sumPoints text kws.
Proof. unfold sumPoints; simpl. now destruct (qualifies k). Qed.

Lemma countQualifying_cons (k : string) (kws : list string) :
  countQualifying (k :: kws) =
  if qualifies k then S (countQualifying kws) else countQualifying kws.
Proof. unfold countQualifying; simpl. now destruct (qualifies k). Qed.

Lemma countQ_S (n : nat) :
  (inject_Z (Z.of_nat (S n)) == inject_Z (Z.of_nat n) + 1)%Q.
Proof.
  rewrite Nat2Z.inj_succ. unfold Z.succ. rewrite inject_Z_plus. reflexivity.
Qed.

Lemma sumPoints_bounds (text : string) (kws : list string) :
  (0 <= sumPoints text kws <= countQ kws)%Q.
Proof.
  unfold countQ.
  induction kws as [|k r IH].
  - split; discriminate.
  - rewrite sumPoints_cons, countQualifying_cons.
    destruct (qualifies k); [|exact IH].
    destruct IH as [IH0 IH1], (points_bounds text k) as [P0 P1].
    rewrite countQ_S. split.
    + setoid_replace 0%Q with (0 + 0)%Q by ring. now apply Qplus_le_compat.
    + rewrite (Qplus_comm (inject_Z _) 1). now apply Qplus_le_compat.
Qed.

(** The loop of [_calculateRelevance] adds the points to [matchCount] and
    counts the qualifying keywords in [totalWeight]. *)
Lemma fold_scoreKeyword (text : string) (kws : list string) :
  forall m w : Q,
    (fst (fold_left (scoreKeyword text) kws (m, w)) == m + sumPoints text kws)%Q /\
    (snd (fold_left (scoreKeyword text) kws (m, w)) == w + countQ kws)%Q.
Proof.
  unfold countQ.
  induction kws as [|k r IH]; intros m w.
  - simpl. unfold sumPoints, countQualifying; simpl. split; ring.
  - cbn [fold_left]. rewrite sumPoints_cons, countQualifying_cons.
    unfold scoreKeyword at 2 4. rewrite qualifies_short.
    destruct (qualifies k); cbn [negb].
    + unfold points.
      destruct (wordBoundaryTest k text);
        [|destruct (includes text k)];
        match goal with
        | |- context [fold_left _ r (?a, ?b)] => destruct (IH a b) as [E1 E2]
        end;
        rewrite E1, E2, countQ_S; split; ring.
    + apply IH.
Qed.

Lemma wordBoundaryTest_empty (k : string) : wordBoundaryTest k "" = false.
Proof.
  unfold wordBoundaryTest, RegExp_test_i.
  change ("\b" ++ _escapeRegex k ++ "\b")
    with (String "\" (String "b" (_escapeRegex k ++ "\b"))).
  cbn [compileRegex].
  change (("\" =? "\")%char) with true. change (("b" =? "b")%char) with true.
  cbv iota.
  destruct (compileRegex (_escapeRegex k ++ "\b")); reflexivity.
Qed.

Lemma points_empty (k : string) : qualifies k = true -> points "" k = 0%Q.
Proof.
  intros Hq. unfold points. rewrite wordBoundaryTest_empty.
  destruct k; [discriminate|]. reflexivity.
Qed.

Lemma sumPoints_empty (kws : list string) : (sumPoints "" kws == 0)%Q.
Proof.
  induction kws as [|k r IH]; [reflexivity|].
  rewrite sumPoints_cons. destruct (qualifies k) eqn:Hq; [|exact IH].
  rewrite points_empty, IH by assumption. reflexivity.
Qed.

Lemma countQ_zero (kws : list string) :
  (countQ kws == 0)%Q -> countQualifying kws = 0%nat.
Proof.
  unfold countQ. intros H.
  destruct (countQualifying kws); [reflexivity|].
  unfold Qeq in H; simpl in H. lia.
Qed.

Lemma countQ_pos (kws : list string) :
  countQualifying kws <> 0%nat -> (0 < countQ kws)%Q.
Proof.
  unfold countQ. intros H. rewrite <- (Zlt_Qlt 0). lia.
Qed.

(** The code computes the formula on every item that passes the guard
    [!item]. *)
Lemma calculateRelevance_formula (item : Value) (kws : list string) :
  truthy item = true ->
  (_calculateRelevance item kws == relevanceFormula item kws)%Q.
Proof.
  intros Ht. unfold _calculateRelevance, relevanceFormula. rewrite Ht.
  cbn [negb orb].
  destruct kws as [|k0 r0] eqn:Ek; [reflexivity|]. rewrite <- Ek.
  replace (List.length kws =? 0)%nat with false by (subst; reflexivity).
  fold (textOf item).
  destruct (textOf item =? "") eqn:Etext.
  - apply String.eqb_eq in Etext. rewrite Etext.
    destruct (countQualifying kws); [reflexivity|].
    rewrite sumPoints_empty. reflexivity.
  - destruct (fold_scoreKeyword (textOf item) kws 0%Q 0%Q) as [E1 E2].
    destruct (fold_left (scoreKeyword (textOf item)) kws (0%Q, 0%Q))
      as [m w] eqn:Ef.
    cbn [fst snd] in E1, E2.
    rewrite Qplus_0_l in E1, E2.
    destruct (Qeq_bool w 0) eqn:Ew.
    + apply Qeq_bool_iff in Ew. rewrite E2 in Ew.
      rewrite (countQ_zero _ Ew). reflexivity.
    + assert (Hc : countQualifying kws <> 0%nat).
      { intros Hc. apply Qeq_bool_neq in Ew. apply Ew. rewrite E2.
        unfold countQ. rewrite Hc. reflexivity. }
      destruct (countQualifying kws) eqn:Ec; [congruence|].
      rewrite Qred_correct, E1, E2. unfold countQ. rewrite Ec. reflexivity.
Qed.

Lemma calculateRelevance_falsy (item : Value) (kws : list string) :
  truthy item = false -> _calculateRelevance item kws = 0%Q.
Proof.
  intros Ht. unfold _calculateRelevance. rewrite Ht. reflexivity.
Qed.

Lemma relevanceFormula_bounds (item : Value) (kws : list string) :
  (0 <= relevanceFormula item kws <= 1)%Q.
Proof.
  unfold relevanceFormula.
  destruct (countQualifying kws) eqn:Ec; [split; discriminate|].
  rewrite <- Ec.
  assert (Hpos : (0 < countQ kws)%Q) by (apply countQ_pos; lia).
  destruct (sumPoints_bounds (textOf item) kws) as [H0 H1].
  fold (countQ kws). split.
  - apply Qle_shift_div_l; [assumption|]. now rewrite Qmult_0_l.
  - apply Qle_shift_div_r; [assumption|]. now rewrite Qmult_1_l.
Qed.

Lemma calculateRelevance_bounds (item : Value) (kws : list string) :
  (0 <= _calculateRelevance item kws <= 1)%Q.
Proof.
  destruct (truthy item) eqn:Ht.
  - rewrite (calculateRelevance_formula _ _ Ht). apply relevanceFormula_bounds.
  - rewrite (calculateRelevance_falsy _ _ Ht). split; discriminate.
Qed.

End RelevanceFacts.

(** ** Searching, with and without early termination *)

Module SearchFacts.
Import JS KnowledgeBase Reference Auxiliary.

Section CutAfter.
Context {A : Type} (p : A -> bool).

Lemma cutAfter_app (a b : list A) :
  cutAfter p (a ++ b) =
  if existsb p a then cutAfter p a else (a ++ cutAfter p b)%list.
Proof.
  induction a as [|x r IH]; simpl; [reflexivity|].
  destruct (p x); simpl; [reflexivity|]. rewrite IH.
  now destruct (existsb p r).
Qed.

Lemma cutAfter_none (l : list A) : existsb p l = false -> cutAfter p l = l.
Proof.
  induction l as [|x r IH]; simpl; [reflexivity|].
  destruct (p x); simpl; [discriminate|]. intros H. now rewrite IH.
Qed.

Lemma existsb_cutAfter (l : list A) : existsb p (cutAfter p l) = existsb p l.
Proof.
  induction l as [|x r IH]; simpl; [reflexivity|].
  destruct (p x) eqn:E; simpl; rewrite E; simpl; [reflexivity|exact IH].
Qed.

(** What is cut is a prefix. *)
Lemma cutAfter_prefix (l : list A) : exists rest, l = (cutAfter p l ++ rest)%list.
Proof.
  induction l as [|x r [rest IH]]; simpl.
  - now exists [].
  - destruct (p x).
    + now exists r.
    + exists rest. simpl. now rewrite <- IH.
Qed.

Lemma cutAfter_incl (l : list A) : incl (cutAfter p l) l.
Proof.
  destruct (cutAfter_prefix l) as [rest E]. rewrite E at 2.
  apply incl_appl, incl_refl.
Qed.
End CutAfter.

Section Loops.
Variable kb : t.
Variable keywords : list string.
Variable category : option string.

Lemma collectItems_app (fld : option string) (items : list Value) :
  forall results,
    collectItems keywords category fld items results =
    (results ++ collectItems keywords category fld items [])%list.
Proof.
  induction items as [|item rest IH]; intros results; simpl.
  - now rewrite app_nil_r.
  - destruct (Qlt_le_dec 0 (_calculateRelevance item keywords)).
    + rewrite IH. rewrite (IH [_]). now rewrite app_assoc.
    + apply IH.
Qed.

Lemma collectFields_app (data : Value) (ks : list string) :
  forall results,
    collectFields keywords category data ks results =
    (results ++ collectFields keywords category data ks [])%list.
Proof.
  induction ks as [|key rest IH]; intros results; simpl.
  - now rewrite app_nil_r.
  - destruct (get data key); try apply IH.
    rewrite IH, (IH (collectItems _ _ _ _ [])).
    rewrite (collectItems_app _ _ results). now rewrite app_assoc.
Qed.

(** Without early termination the optimized loops are the plain ones. *)
Lemma scanItems_false (fld : option string) (items : list Value) :
  forall results,
    scanItems kb keywords category fld false items results =
    (collectItems keywords category fld items results, false).
Proof.
  induction items as [|item rest IH]; intros results; simpl; [reflexivity|].
  destruct (Qlt_le_dec 0 (_calculateRelevance item keywords)); apply IH.
Qed.

Lemma scanFields_false (data : Value) (ks : list string) :
  forall results,
    scanFields kb keywords category false data ks results =
    (collectFields keywords category data ks results, false).
Proof.
  induction ks as [|key rest IH]; intros results; simpl; [reflexivity|].
  destruct (get data key); try apply IH.
  rewrite scanItems_false. apply IH.
Qed.

Lemma searchInDataOptimized_false (data : Value) :
  _searchInDataOptimized kb data keywords category false =
  _searchInData data keywords category.
Proof.
  destruct data; simpl; try reflexivity.
  - now rewrite scanItems_false.
  - destruct (Qlt_le_dec 0 _); simpl; now rewrite scanFields_false.
Qed.

(** With early termination a loop stops after the first confident hit. *)
Lemma scanItems_true (fld : option string) (items : list Value) :
  forall results,
    scanItems kb keywords category fld true items results =
    ((results ++
      cutAfter (confident kb) (collectItems keywords category fld items []))%list,
     existsb (confident kb) (collectItems keywords category fld items [])).
Proof.
  induction items as [|item rest IH]; intros results; simpl.
  - now rewrite app_nil_r.
  - destruct (Qlt_le_dec 0 (_calculateRelevance item keywords)); [|apply IH].
    rewrite (collectItems_app _ _ [_]). simpl.
    unfold confident at 1 3; simpl.
    destruct (highConfidence kb (_calculateRelevance item keywords)); simpl.
    + reflexivity.
    + rewrite IH. rewrite <- app_assoc. reflexivity.
Qed.

Lemma scanFields_true (data : Value) (ks : list string) :
  forall results,
    scanFields kb keywords category true data ks results =
    ((results ++
      cutAfter (confident kb) (collectFields keywords category data ks []))%list,
     existsb (confident kb) (collectFields keywords category data ks [])).
Proof.
  induction ks as [|key rest IH]; intros results; simpl.
  - now rewrite app_nil_r.
  - destruct (get data key); try apply IH.
    rewrite scanItems_true.
    rewrite (collectFields_app _ _ (collectItems _ _ _ _ [])).
    rewrite cutAfter_app, existsb_app.
    destruct (existsb (confident kb) (collectItems _ _ _ _ [])) eqn:E; simpl.
    + reflexivity.
    + rewrite IH, (cutAfter_none _ _ E). now rewrite <- app_assoc.
Qed.

Lemma searchInDataOptimized_true (data : Value) :
  _searchInDataOptimized kb data keywords category true =
  cutAfter (confident kb) (_searchInData data keywords category).
Proof.
  destruct data; simpl; try reflexivity.
  - now rewrite scanItems_true.
  - destruct (Qlt_le_dec 0 _); simpl.
    + rewrite (collectFields_app _ _ [_]). simpl.
      unfold confident at 1; simpl.
      destruct (highConfidence kb _); [reflexivity|].
      now rewrite scanFields_true.
    + now rewrite scanFields_true.
Qed.
End Loops.

Section Categories.
Variable kb : t.
Variable keywords : list string.

Let hits (c : string) : list SearchResult :=
  _searchInData (get (data kb) c) keywords (Some c).

Lemma searchCategories_false (cats : list string) :
  forall results,
    searchCategories kb keywords false cats results =
    sort byRelevanceDescending (results ++ flat_map hits cats).
Proof.
  induction cats as [|c rest IH]; intros results; simpl.
  - now rewrite app_nil_r.
  - rewrite IH, searchInDataOptimized_false. now rewrite <- app_assoc.
Qed.

Lemma searchCategories_true (cats : list string) :
  forall results,
    searchCategories kb keywords true cats results =
    sort byRelevanceDescending
      (results ++ cutAfter (confident kb) (flat_map hits cats)).
Proof.
  induction cats as [|c rest IH]; intros results; simpl.
  - now rewrite app_nil_r.
  - rewrite searchInDataOptimized_true. fold (hits c).
    rewrite cutAfter_app.
    fold (confident kb).
    change (fun r : SearchResult => highConfidence kb (relevance r))
      with (confident kb).
    rewrite existsb_cutAfter.
    destruct (existsb (confident kb) (hits c)) eqn:E.
    + destruct (cutAfter (confident kb) (hits c)) eqn:Ec.
      * rewrite <- existsb_cutAfter, Ec in E. discriminate.
      * reflexivity.
    + rewrite andb_false_r. rewrite IH.
      rewrite (cutAfter_none _ _ E). now rewrite <- app_assoc.
Qed.
End Categories.

(** No keyword, no hit. *)
Lemma calculateRelevance_nil (item : Value) : _calculateRelevance item [] = 0%Q.
Proof. unfold _calculateRelevance. now rewrite orb_true_r. Qed.

Lemma collectItems_nil (category fld : option string) (items : list Value) :
  forall results, collectItems [] category fld items results = results.
Proof.
  induction items as [|item rest IH]; intros results; simpl; [reflexivity|].
  rewrite calculateRelevance_nil. simpl. apply IH.
Qed.

Lemma collectFields_nil (category : option string) (data : Value)
  (ks : list string) :
  forall results, collectFields [] category data ks results = results.
Proof.
  induction ks as [|key rest IH]; intros results; simpl; [reflexivity|].
  destruct (get data key); try apply IH.
  rewrite collectItems_nil. apply IH.
Qed.

Lemma searchInData_nil (data : Value) (category : option string) :
  _searchInData data [] category = [].
Proof.
  destruct data; simpl; try reflexivity.
  - apply collectItems_nil.
  - apply collectFields_nil.
Qed.

Lemma scanAll_nil (kb : t) : scanAll kb [] = [].
Proof.
  unfold scanAll. induction (categories kb) as [|c cs IH]; simpl; [reflexivity|].
  now rewrite searchInData_nil, IH.
Qed.

(** [search] with early termination off is scan all, then sort. *)
Lemma search_full (kb : t) (keywords : Value) :
  search kb keywords (Obj [("earlyTermination", Bool false)]) =
  sort byRelevanceDescending (scanAll kb (_normalizeKeywords keywords)).
Proof.
  unfold search.
  destruct (_normalizeKeywords keywords) as [|k r] eqn:E.
  - now rewrite scanAll_nil.
  - cbn [List.length Nat.eqb get lookup String.eqb].
    change (("earlyTermination" =? "earlyTermination")) with true. cbv iota.
    now rewrite searchCategories_false.
Qed.

(** [search] with the default options sorts the scan cut after its first
    confident hit. *)
Lemma search_early (kb : t) (keywords : Value) :
  search kb keywords Undefined =
  sort byRelevanceDescending
    (cutAfter (confident kb) (scanAll kb (_normalizeKeywords keywords))).
Proof.
  unfold search.
  destruct (_normalizeKeywords keywords) as [|k r] eqn:E.
  - now rewrite scanAll_nil.
  - cbn [List.length Nat.eqb get]. now rewrite searchCategories_true.
Qed.

Lemma collectItems_scored (keywords : list string)
  (category fld : option string) (items : list Value) :
  forall results,
    Forall (scored keywords) results ->
    Forall (scored keywords) (collectItems keywords category fld items results).
Proof.
  induction items as [|item rest IH]; intros results H; simpl; [exact H|].
  destruct (Qlt_le_dec 0 (_calculateRelevance item keywords)) as [Hpos|];
    apply IH; [|exact H].
  apply Forall_app; split; [exact H|].
  constructor; [|constructor]. split; [reflexivity|exact Hpos].
Qed.

Lemma collectFields_scored (keywords : list string)
  (category : option string) (data : Value) (ks : list string) :
  forall results,
    Forall (scored keywords) results ->
    Forall (scored keywords) (collectFields keywords category data ks results).
Proof.
  induction ks as [|key rest IH]; intros results H; simpl; [exact H|].
  destruct (get data key); try (apply IH; exact H).
  apply IH. now apply collectItems_scored.
Qed.

Lemma searchInData_scored (data : Value) (keywords : list string)
  (category : option string) :
  Forall (scored keywords) (_searchInData data keywords category).
Proof.
  destruct data; simpl; try constructor.
  - apply collectItems_scored. constructor.
  - apply collectFields_scored.
    destruct (Qlt_le_dec 0 _) as [Hpos|]; constructor; [|constructor].
    split; [reflexivity|exact Hpos].
Qed.

Lemma scanAll_scored (kb : t) (keywords : list string) :
  Forall (scored keywords) (scanAll kb keywords).
Proof.
  unfold scanAll. induction (categories kb) as [|c cs IH]; simpl.
  - constructor.
  - apply Forall_app; split; [apply searchInData_scored|exact IH].
Qed.

Lemma searchCategories_scored (kb : t) (keywords : list string) (early : bool) :
  Forall (scored keywords)
    (searchCategories kb keywords early (categories kb) []).
Proof.
  destruct early.
  - rewrite searchCategories_true. simpl.
    eapply Permutation_Forall;
      [apply Permutation_sym, (JSFacts.sort_perm relevance)|].
    apply (incl_Forall (cutAfter_incl _ _)). apply scanAll_scored.
  - rewrite searchCategories_false. simpl.
    eapply Permutation_Forall;
      [apply Permutation_sym, (JSFacts.sort_perm relevance)|].
    apply scanAll_scored.
Qed.

Lemma search_scored (kb : t) (keywords options : Value) :
  Forall (scored (_normalizeKeywords keywords)) (search kb keywords options).
Proof.
  unfold search.
  destruct (List.length (_normalizeKeywords keywords) =? 0)%nat; [constructor|].
  destruct options; try constructor; apply searchCategories_scored.
Qed.

Lemma wrapWithRelevance_positive (data : Value) (category : option string) :
  Forall (fun r => (0 < relevance r)%Q) (_wrapWithRelevance data 1%Q category).
Proof.
  destruct data; simpl; repeat constructor.
  induction items; simpl; constructor; auto. reflexivity.
Qed.

Lemma query_positive (kb : t) (category keywords : Value) :
  Forall (fun r => (0 < relevance r)%Q) (query kb category keywords).
Proof.
  unfold query.
  destruct (negb (truthy (getByCategory kb category))); [constructor|].
  destruct (List.length (_normalizeKeywords keywords) =? 0)%nat.
  - apply wrapWithRelevance_positive.
  - eapply Forall_impl; [|apply searchInData_scored]. intros r [_ H]. exact H.
Qed.

(** Sortedness read at two positions. *)
Lemma StronglySorted_nth {A : Type} (R : A -> A -> Prop) (l : list A) :
  StronglySorted R l ->
  forall i j a b,
    (i < j)%nat -> nth_error l i = Some a -> nth_error l j = Some b -> R a b.
Proof.
  induction 1 as [|x r Hs IH Hall]; intros i j a b Hij Hi Hj.
  - destruct i; discriminate.
  - destruct j as [|j]; [lia|]. simpl in Hj.
    destruct i as [|i]; simpl in Hi.
    + injection Hi as <-. rewrite Forall_forall in Hall.
      apply Hall. eapply nth_error_In; eassumption.
    + apply (IH i j); auto. lia.
Qed.

Lemma search_sorted (kb : t) (keywords options : Value) :
  StronglySorted (fun a b => (relevance b <= relevance a)%Q)
    (search kb keywords options).
Proof.
  unfold search.
  destruct (List.length (_normalizeKeywords keywords) =? 0)%nat; [constructor|].
  assert (H : forall early,
             StronglySorted (fun a b => (relevance b <= relevance a)%Q)
               (searchCategories kb (_normalizeKeywords keywords) early
                  (categories kb) [])).
  { intros [|].
    - rewrite searchCategories_true. apply (JSFacts.sort_sorted relevance).
    - rewrite searchCategories_false. apply (JSFacts.sort_sorted relevance). }
  destruct options; try constructor; apply H.
Qed.

End SearchFacts.

(** ** One more keyword *)

Module MonotonicityFacts.
Import JS KnowledgeBase Reference RelevanceFacts Auxiliary.

Lemma sumPoints_insert (text k : string) (kws1 kws2 : list string) :
  (sumPoints text (kws1 ++ k :: kws2) ==
   sumPoints text (kws1 ++ kws2) + (if qualifies k then points text k else 0))%Q.
Proof.
  induction kws1 as [|k1 r IH]; simpl.
  - rewrite sumPoints_cons. destruct (qualifies k); ring.
  - rewrite !sumPoints_cons. destruct (qualifies k1); rewrite IH; ring.
Qed.

Lemma countQualifying_insert (k : string) (kws1 kws2 : list string) :
  countQualifying (kws1 ++ k :: kws2) =
  (countQualifying (kws1 ++ kws2) + (if qualifies k then 1 else 0))%nat.
Proof.
  induction kws1 as [|k1 r IH]; simpl.
  - rewrite countQualifying_cons. destruct (qualifies k); lia.
  - rewrite !countQualifying_cons. destruct (qualifies k1); rewrite IH; lia.
Qed.

(** The arithmetic of one more keyword worth [p] points: the mean does not
    drop when [p] is at least the mean. *)
Lemma mean_extend (s n p : Q) :
  (0 < n)%Q -> (s <= p * n)%Q -> (s / n <= (s + p) / (n + 1))%Q.
Proof.
  intros Hn Hs.
  assert (Hn1 : (0 < n + 1)%Q) by lra.
  apply Qle_shift_div_l; [exact Hn1|].
  setoid_replace (s / n * (n + 1))%Q with ((s * (n + 1)) / n)%Q
    by (field; lra).
  apply Qle_shift_div_r; [exact Hn|]. lra.
Qed.

Lemma formula_extend (item : Value) (k : string) (kws1 kws2 : list string) :
  qualifies k = true ->
  (sumPoints (textOf item) (kws1 ++ kws2) <=
   points (textOf item) k * countQ (kws1 ++ kws2))%Q ->
  (relevanceFormula item (kws1 ++ kws2) <=
   relevanceFormula item (kws1 ++ k :: kws2))%Q.
Proof.
  intros Hq Hs. unfold relevanceFormula at 1.
  destruct (countQualifying (kws1 ++ kws2)) eqn:Ec.
  - apply relevanceFormula_bounds.
  - unfold relevanceFormula.
    rewrite countQualifying_insert, Hq, Ec.
    replace (S n + 1)%nat with (S (S n)) by lia.
    rewrite sumPoints_insert, Hq.
    rewrite (countQ_S (S n)).
    unfold countQ in Hs. rewrite Ec in Hs.
    apply mean_extend; [|exact Hs].
    rewrite <- (Zlt_Qlt 0). lia.
Qed.

Lemma formula_skip (item : Value) (k : string) (kws1 kws2 : list string) :
  qualifies k = false ->
  (relevanceFormula item (kws1 ++ k :: kws2) ==
   relevanceFormula item (kws1 ++ kws2))%Q.
Proof.
  intros Hq. unfold relevanceFormula.
  rewrite countQualifying_insert, Hq, Nat.add_0_r.
  destruct (countQualifying (kws1 ++ kws2)); [reflexivity|].
  rewrite sumPoints_insert, Hq, Qplus_0_r. reflexivity.
Qed.

(** Adding a keyword that matches as a whole word. *)
Lemma relevance_add_whole_word (item : Value) (k : string)
  (kws1 kws2 : list string) :
  wordBoundaryTest k (textOf item) = true ->
  (_calculateRelevance item (kws1 ++ kws2) <=
   _calculateRelevance item (kws1 ++ k :: kws2))%Q.
Proof.
  intros Hw. destruct (truthy item) eqn:Ht.
  - rewrite !(calculateRelevance_formula _ _ Ht).
    destruct (qualifies k) eqn:Hq.
    + apply formula_extend; [exact Hq|].
      unfold points. rewrite Hw, Qmult_1_l.
      apply sumPoints_bounds.
    + rewrite formula_skip by exact Hq. apply Qle_refl.
  - rewrite !(calculateRelevance_falsy _ _ Ht). apply Qle_refl.
Qed.

(** Adding a keyword that matches as a substring only. *)
Lemma relevance_add_substring (item : Value) (k : string)
  (kws1 kws2 : list string) :
  wordBoundaryTest k (textOf item) = false ->
  includes (textOf item) k = true ->
  (_calculateRelevance item (kws1 ++ kws2) <= 1 # 2)%Q ->
  (_calculateRelevance item (kws1 ++ kws2) <=
   _calculateRelevance item (kws1 ++ k :: kws2))%Q.
Proof.
  intros Hw Hi Hhalf. destruct (truthy item) eqn:Ht.
  - rewrite (calculateRelevance_formula _ _ Ht) in Hhalf.
    rewrite !(calculateRelevance_formula _ _ Ht).
    destruct (qualifies k) eqn:Hq.
    + apply formula_extend; [exact Hq|].
      unfold points. rewrite Hw, Hi.
      unfold relevanceFormula in Hhalf.
      destruct (countQualifying (kws1 ++ kws2)) eqn:Ec.
      * destruct (sumPoints_bounds (textOf item) (kws1 ++ kws2)) as [_ H1].
        unfold countQ in *. rewrite Ec in *.
        change (inject_Z (Z.of_nat 0)) with 0%Q in *. lra.
      * unfold countQ. rewrite Ec.
        assert (Hn : (0 < inject_Z (Z.of_nat (S n)))%Q)
          by (rewrite <- (Zlt_Qlt 0); lia).
        set (c := inject_Z (Z.of_nat (S n))) in *.
        set (s := sumPoints (textOf item) (kws1 ++ kws2)) in *.
        setoid_replace s with (s / c * c)%Q by (field; lra).
        apply Qmult_le_compat_r; [exact Hhalf|lra].
    + rewrite formula_skip by exact Hq. apply Qle_refl.
  - rewrite !(calculateRelevance_falsy _ _ Ht). apply Qle_refl.
Qed.

End MonotonicityFacts.

(** ** Printing integers and reading them back *)

Module TextFacts.
Import JS Auxiliary.

Lemma append_assoc (a b c : string) : (a ++ b) ++ c = a ++ (b ++ c).
Proof. induction a as [|x a IH]; simpl; [reflexivity|now rewrite IH]. Qed.

Lemma append_nil_r (a : string) : a ++ "" = a.
Proof. induction a as [|x a IH]; simpl; [reflexivity|now rewrite IH]. Qed.

Lemma length_append (a b : string) :
  String.length (a ++ b) = (String.length a + String.length b)%nat.
Proof. induction a as [|x a IH]; simpl; [reflexivity|now rewrite IH]. Qed.

(** [0 <= d < 10] by cases. *)
Ltac digit_cases d H :=
  let d' := fresh d in
  destruct d as [|d']; [|do 4 (try destruct d' as [d'|d'|]); try (exfalso; lia)].

Lemma digitChar_isDigit (d : N) : (d < 10)%N -> isDigit (digitChar d) = true.
Proof. intros H. digit_cases d H; reflexivity. Qed.

Lemma digitChar_value (d : N) :
  (d < 10)%N -> (N_of_ascii (digitChar d) - 48 = d)%N.
Proof. intros H. digit_cases d H; reflexivity. Qed.

Lemma digitChar_nonzero (d : N) :
  (0 < d < 10)%N -> (digitChar d =? "0")%char = false.
Proof. intros H. digit_cases d H; try reflexivity. lia. Qed.

Lemma decimalDigits_app (fuel : nat) :
  forall n acc rest,
    decimalDigits fuel n acc ++ rest = decimalDigits fuel n (acc ++ rest).
Proof.
  induction fuel as [|f IH]; intros n acc rest; simpl; [reflexivity|].
  destruct (n <? 10)%N; [reflexivity|]. now rewrite IH.
Qed.

(** Reading back the digits that [decimalDigits] writes. *)
Lemma parseDigits_decimalDigits (fuel : nat) :
  forall n acc,
    (n < 10 ^ N.of_nat (S fuel))%N ->
    exists d, forall a k,
      JSON.parseDigits a k (decimalDigits fuel n acc) =
      JSON.parseDigits (a * 10 ^ N.of_nat (S d) + n) (k + S d) acc.
Proof.
  assert (Hone : forall n acc, (n < 10)%N ->
            forall a k,
              JSON.parseDigits a k (String (digitChar (n mod 10)) acc) =
              JSON.parseDigits (a * 10 ^ N.of_nat 1 + n) (k + 1) acc).
  { intros n acc Hn a k. rewrite N.mod_small by exact Hn.
    cbn [JSON.parseDigits].
    rewrite digitChar_isDigit, digitChar_value by exact Hn.
    change (10 ^ N.of_nat 1)%N with 10%N. now rewrite Nat.add_1_r. }
  induction fuel as [|f IH]; intros n acc Hn.
  - exists 0%nat. apply Hone. exact Hn.
  - cbn [decimalDigits].
    destruct (N.ltb_spec n 10) as [Hlt|Hge].
    + exists 0%nat. now apply Hone.
    + destruct (IH (n / 10)%N (String (digitChar (n mod 10)) acc)) as [d Hd].
      { apply N.Div0.div_lt_upper_bound.
        rewrite <- N.pow_succ_r'. rewrite <- Nat2N.inj_succ. exact Hn. }
      exists (S d). intros a k. rewrite Hd.
      cbn [JSON.parseDigits].
      assert (Hm : (n mod 10 < 10)%N) by (apply N.mod_lt; lia).
      rewrite digitChar_isDigit, digitChar_value by exact Hm.
      f_equal; [|lia].
      rewrite (Nat2N.inj_succ (S d)), N.pow_succ_r'.
      pose proof (N.div_mod n 10 ltac:(lia)) as Hdm.
      set (P := (10 ^ N.of_nat (S d))%N). lia.
Qed.

Lemma decimalDigits_head (fuel : nat) :
  forall n acc,
    (0 < n < 10 ^ N.of_nat (S fuel))%N ->
    exists c r,
      decimalDigits fuel n acc = String c r /\
      isDigit c = true /\ (c =? "0")%char = false.
Proof.
  induction fuel as [|f IH]; intros n acc Hn.
  - simpl. exists (digitChar (n mod 10)), acc.
    change (10 ^ N.of_nat 1)%N with 10%N in Hn.
    rewrite N.mod_small by lia.
    split; [reflexivity|]. split.
    + apply digitChar_isDigit; lia.
    + apply digitChar_nonzero; lia.
  - cbn [decimalDigits].
    destruct (N.ltb_spec n 10) as [Hlt|Hge].
    + exists (digitChar (n mod 10)), acc.
      rewrite N.mod_small by lia.
      split; [reflexivity|]. split.
      * apply digitChar_isDigit; lia.
      * apply digitChar_nonzero; lia.
    + apply IH. split.
      * apply N.div_str_pos. lia.
      * apply N.Div0.div_lt_upper_bound.
        rewrite <- N.pow_succ_r'. rewrite <- Nat2N.inj_succ. apply Hn.
Qed.

Lemma N_toString_bound (n : N) :
  (n < 10 ^ N.of_nat (S (N.to_nat (N.log2 n))))%N.
Proof.
  rewrite Nat2N.inj_succ, N2Nat.id.
  destruct n as [|p]; [reflexivity|].
  eapply N.lt_le_trans; [apply N.log2_spec; lia|].
  apply N.pow_le_mono_l. lia.
Qed.

Lemma parseDigits_stop (a : N) (k : nat) (rest : string) :
  endsDigits rest -> JSON.parseDigits a k rest = (a, k, rest).
Proof. destruct rest; simpl; intros H; [reflexivity|now rewrite H]. Qed.

Lemma parseDigits_N_toString (n : N) (rest : string) :
  endsDigits rest ->
  exists d, JSON.parseDigits 0 0 (N_toString n ++ rest) = (n, S d, rest).
Proof.
  intros Hrest. unfold N_toString.
  rewrite decimalDigits_app. cbn [append].
  destruct (parseDigits_decimalDigits _ n rest (N_toString_bound n)) as [d Hd].
  exists d. rewrite Hd. rewrite N.mul_0_l, N.add_0_l.
  now apply parseDigits_stop.
Qed.

Lemma N_toString_inj (n m : N) : N_toString n = N_toString m -> n = m.
Proof.
  intros E.
  destruct (parseDigits_N_toString n "" I) as [d Hd].
  destruct (parseDigits_N_toString m "" I) as [d' Hd'].
  rewrite E in Hd. rewrite Hd in Hd'. now injection Hd'.
Qed.

Lemma N_toString_head (n : N) :
  exists c r, N_toString n = String c r /\ isDigit c = true /\
              (n <> 0%N -> (c =? "0")%char = false).
Proof.
  destruct n as [|p].
  - exists "0"%char, "". repeat split. congruence.
  - destruct (decimalDigits_head (N.to_nat (N.log2 (Npos p))) (Npos p) "")
      as (c & r & E & Hd & Hz).
    { split; [lia|apply N_toString_bound]. }
    exists c, r. repeat split; auto.
Qed.

Lemma decimalDigits_allDigits (fuel : nat) :
  forall n acc,
    allChars isDigit acc = true ->
    allChars isDigit (decimalDigits fuel n acc) = true.
Proof.
  assert (Hd : forall n, isDigit (digitChar (n mod 10)) = true).
  { intros n. apply digitChar_isDigit, N.mod_lt. lia. }
  induction fuel as [|f IH]; intros n acc Hacc; simpl.
  - now rewrite Hd.
  - destruct (n <? 10)%N; [simpl; now rewrite Hd|].
    apply IH. simpl. now rewrite Hd.
Qed.

Lemma allChars_impl (p q : ascii -> bool) (s : string) :
  (forall c, p c = true -> q c = true) ->
  allChars p s = true -> allChars q s = true.
Proof.
  intros Hpq. induction s as [|c r IH]; simpl; [auto|].
  intros H. apply andb_true_iff in H as [H1 H2].
  now rewrite (Hpq _ H1), IH.
Qed.

Lemma Z_toString_chars (z : Z) : allChars isNumberChar (Z_toString z) = true.
Proof.
  assert (H : forall n, allChars isNumberChar (N_toString n) = true).
  { intros n. apply (allChars_impl isDigit).
    - intros c Hc. unfold isNumberChar. now rewrite Hc.
    - now apply decimalDigits_allDigits. }
  destruct z; simpl; auto.
Qed.

Lemma Z_toString_inj (a b : Z) : Z_toString a = Z_toString b -> a = b.
Proof.
  assert (Hneg : forall p q, N_toString (Npos p) <> "-" ++ N_toString (Npos q)).
  { intros p q E.
    destruct (N_toString_head (Npos p)) as (c & r & Ec & Hd & _).
    rewrite Ec in E. simpl in E. injection E as -> _. discriminate. }
  assert (Hzero : forall p, "0" <> N_toString (Npos p)).
  { intros p E.
    destruct (N_toString_head (Npos p)) as (c & r & Ec & _ & Hz).
    rewrite Ec in E. injection E as <- _.
    specialize (Hz ltac:(discriminate)). discriminate. }
  destruct a as [|p|p], b as [|q|q]; simpl; intros E; try reflexivity.
  - exfalso. now apply (Hzero q).
  - discriminate.
  - exfalso. now apply (Hzero p).
  - apply N_toString_inj in E. congruence.
  - exfalso. now apply (Hneg p q).
  - discriminate.
  - exfalso. now apply (Hneg q p).
  - injection E as E. apply N_toString_inj in E. congruence.
Qed.

(** An integer prints as its decimal digits. *)
Lemma Number_toString_int (z : Z) : Number_toString (inject_Z z) = Z_toString z.
Proof.
  unfold Number_toString.
  replace (Qred (inject_Z z)) with (inject_Z z).
  - reflexivity.
  - symmetry. apply Qcanon.Qred_identity. simpl. apply Z.gcd_1_r.
Qed.

End TextFacts.

(** ** Reading back the strings and integers of a JSON text *)

Module JSONFacts.
Import JS JSON TextFacts Auxiliary.

(** Every character, by cases on its eight bits. *)
Ltac each_char c := destruct c as [[] [] [] [] [] [] [] []].

Lemma parseStringBody_escapeChar (c : ascii) (tail : string) :
  parseStringBody (escapeChar c ++ tail) = consChar c (parseStringBody tail).
Proof. each_char c; reflexivity. Qed.

Lemma parseStringBody_escapeString (s rest : string) :
  parseStringBody (escapeString s ++ String quote rest) = Some (s, rest).
Proof.
  induction s as [|c r IH]; [reflexivity|].
  cbn [escapeString]. rewrite append_assoc, parseStringBody_escapeChar, IH.
  reflexivity.
Qed.

Lemma QuoteJSONString_app (s rest : string) :
  QuoteJSONString s ++ rest = String quote (escapeString s ++ String quote rest).
Proof. unfold QuoteJSONString. cbn [append]. now rewrite append_assoc. Qed.

Lemma parseValue_string (fuel : nat) (s rest : string) :
  parseValue (S fuel) (QuoteJSONString s ++ rest) = Some (Str s, rest).
Proof.
  rewrite QuoteJSONString_app. cbn [parseValue].
  change ((quote =? "{")%char) with false.
  change ((quote =? "[")%char) with false.
  change ((quote =? quote)%char) with true. cbv iota.
  now rewrite parseStringBody_escapeString.
Qed.

Lemma endsNumber_digits (rest : string) : endsNumber rest -> endsDigits rest.
Proof. destruct rest; simpl; tauto. Qed.

Lemma parseFrac_none (rest : string) :
  endsNumber rest -> parseFrac rest = Some (0%N, O, rest).
Proof.
  destruct rest as [|c r]; simpl; [reflexivity|].
  intros (_ & H & _). now rewrite H.
Qed.

Lemma parseExp_none (rest : string) :
  endsNumber rest -> parseExp rest = Some (0%Z, rest).
Proof.
  destruct rest as [|c r]; simpl; [reflexivity|].
  intros (_ & _ & H1 & H2). now rewrite H1, H2.
Qed.

Lemma parseInt_N_toString (n : N) (rest : string) :
  endsNumber rest -> parseInt (N_toString n ++ rest) = Some (n, rest).
Proof.
  intros Hrest.
  destruct (N.eq_dec n 0) as [->|Hn]; [reflexivity|].
  destruct (N_toString_head n) as (c & r & E & Hd & Hz).
  destruct (parseDigits_N_toString n rest (endsNumber_digits _ Hrest)) as [d Hp].
  unfold parseInt. rewrite E in *. cbn [append].
  rewrite (Hz Hn), Hd. cbn [append] in Hp. now rewrite Hp.
Qed.

Lemma Qred_int (z : Z) : Qred (inject_Z z * pow10 (0 - Z.of_nat 0)) = inject_Z z.
Proof.
  change (pow10 (0 - Z.of_nat 0)) with 1%Q.
  rewrite (Qred_complete _ (inject_Z z)) by ring.
  apply Qcanon.Qred_identity. simpl. apply Z.gcd_1_r.
Qed.

Lemma parseNumber_natural (n : N) (rest : string) (negative : bool) :
  endsNumber rest ->
  match parseInt (N_toString n ++ rest) with
  | None => None
  | Some (i, s2) =>
      match parseFrac s2 with
      | None => None
      | Some (f, k, s3) =>
          match parseExp s3 with
          | None => None
          | Some (e, s4) =>
              let mantissa := (Z.of_N i * 10 ^ Z.of_nat k + Z.of_N f)%Z in
              let signed := if negative then (- mantissa)%Z else mantissa in
              Some (Qred (inject_Z signed * pow10 (e - Z.of_nat k)), s4)
          end
      end
  end =
  Some (inject_Z (if negative then - Z.of_N n else Z.of_N n), rest).
Proof.
  intros Hrest.
  rewrite parseInt_N_toString, parseFrac_none, parseExp_none by exact Hrest.
  cbv zeta. rewrite Qred_int. do 2 f_equal.
  change (10 ^ Z.of_nat 0)%Z with 1%Z. destruct negative; f_equal; lia.
Qed.

Lemma parseNumber_Z_toString (z : Z) (rest : string) :
  endsNumber rest ->
  parseNumber (Z_toString z ++ rest) = Some (inject_Z z, rest).
Proof.
  intros Hrest. destruct z as [|p|p].
  - cbn. rewrite parseFrac_none, parseExp_none by exact Hrest. reflexivity.
  - cbn [Z_toString].
    destruct (N_toString_head (Npos p)) as (c & r & E & Hd & _).
    unfold parseNumber.
    assert (Hminus : (c =? "-")%char = false).
    { revert Hd. clear. each_char c; intros H; try reflexivity; discriminate. }
    rewrite E. cbn [append]. rewrite Hminus.
    change (String c (r ++ rest)) with (String c r ++ rest). rewrite <- E.
    apply (parseNumber_natural (Npos p) rest false Hrest).
  - cbn [Z_toString]. unfold parseNumber. cbn [append].
    change (("-" =? "-")%char) with true. cbv iota.
    apply (parseNumber_natural (Npos p) rest true Hrest).
Qed.

Lemma numberChar_dispatch (c : ascii) :
  isNumberChar c = true ->
  (c =? "{")%char = false /\ (c =? "[")%char = false /\
  (c =? quote)%char = false /\ (c =? "t")%char = false /\
  (c =? "f")%char = false /\ (c =? "n")%char = false.
Proof. each_char c; intros H; try discriminate; repeat split. Qed.

Lemma Z_toString_head (z : Z) :
  exists c r, Z_toString z = String c r /\ isNumberChar c = true.
Proof.
  pose proof (Z_toString_chars z) as H.
  destruct (Z_toString z) as [|c r] eqn:E.
  - destruct z; simpl in E; try discriminate.
    destruct (N_toString_head (Npos p)) as (c & r & Ec & _). congruence.
  - exists c, r. split; [reflexivity|].
    simpl in H. now apply andb_true_iff in H as [H _].
Qed.

Lemma parseValue_integer (fuel : nat) (z : Z) (rest : string) :
  endsNumber rest ->
  parseValue (S fuel) (Z_toString z ++ rest) = Some (Num (inject_Z z), rest).
Proof.
  intros Hrest.
  pose proof (parseNumber_Z_toString z rest Hrest) as Hp.
  destruct (Z_toString_head z) as (c & r & E & Hc).
  rewrite E in *. cbn [append] in *. cbn [parseValue].
  destruct (numberChar_dispatch c Hc) as (H1 & H2 & H3 & H4 & H5 & H6).
  rewrite H1, H2, H3, H4, H5, H6, Hp. reflexivity.
Qed.

End JSONFacts.

(** ** The fuel of [JSON.parse] is enough *)

Module ParserFacts.
Import JS JSON Auxiliary.

Lemma skipWs_length (s : string) :
  (String.length (skipWs s) <= String.length s)%nat.
Proof.
  induction s as [|c r IH]; simpl; [lia|].
  destruct (isJsonSpace c); simpl; lia.
Qed.

Lemma stripPrefix_length (word : string) :
  forall s rest,
    stripPrefix word s = Some rest ->
    String.length s = (String.length word + String.length rest)%nat.
Proof.
  induction word as [|a w IH]; intros s rest H; simpl in H.
  - injection H as <-. reflexivity.
  - destruct s as [|b s']; [discriminate|].
    destruct (a =? b)%char; [|discriminate].
    simpl. now rewrite (IH _ _ H).
Qed.

Lemma literal_length (word : string) (v v' : Value) (s rest : string) :
  literal word v s = Some (v', rest) ->
  String.length s = (String.length word + String.length rest)%nat.
Proof.
  unfold literal. destruct (stripPrefix word s) as [r|] eqn:E; [|discriminate].
  intros H. injection H as _ <-. now apply stripPrefix_length.
Qed.

Lemma parseDigits_length (s : string) :
  forall a k n k' rest,
    parseDigits a k s = (n, k', rest) ->
    (String.length rest <= String.length s)%nat.
Proof.
  induction s as [|c r IH]; intros a k n k' rest H; simpl in H.
  - injection H as _ _ <-. simpl. lia.
  - destruct (isDigit c).
    + apply IH in H. simpl. lia.
    + injection H as _ _ <-. lia.
Qed.

Lemma parseInt_length (s : string) (n : N) (rest : string) :
  parseInt s = Some (n, rest) ->
  (String.length rest < String.length s)%nat.
Proof.
  unfold parseInt. destruct s as [|c r]; [discriminate|].
  destruct (c =? "0")%char.
  - intros H. injection H as _ <-. simpl. lia.
  - destruct (isDigit c) eqn:Ed; [|discriminate].
    cbn [parseDigits]. rewrite Ed.
    destruct (parseDigits _ 1 r) as [[m k] rest'] eqn:Ep.
    intros H. injection H as _ <-.
    apply parseDigits_length in Ep. simpl. lia.
Qed.

Lemma parseFrac_length (s : string) (f : N) (k : nat) (rest : string) :
  parseFrac s = Some (f, k, rest) ->
  (String.length rest <= String.length s)%nat.
Proof.
  unfold parseFrac. destruct s as [|c r].
  - intros H. injection H as _ _ <-. lia.
  - destruct (c =? ".")%char.
    + destruct (parseDigits 0 0 r) as [[m j] rest'] eqn:Ep.
      destruct j; [discriminate|].
      intros H. injection H as _ _ <-.
      apply parseDigits_length in Ep. simpl. lia.
    + intros H. injection H as _ _ <-. lia.
Qed.

Lemma parseExp_length (s : string) (e : Z) (rest : string) :
  parseExp s = Some (e, rest) ->
  (String.length rest <= String.length s)%nat.
Proof.
  unfold parseExp. destruct s as [|c r].
  - intros H. injection H as _ <-. lia.
  - destruct ((c =? "e")%char || (c =? "E")%char).
    + assert (Hsign : forall neg r1,
                 (String.length r1 <= String.length r)%nat ->
                 (let '(n, k, rest0) := parseDigits 0 0 r1 in
                  match k with
                  | O => None
                  | S _ => Some (if neg : bool then (- Z.of_N n)%Z else Z.of_N n,
                                 rest0)
                  end) = Some (e, rest) ->
                 (String.length rest <= String.length (String c r))%nat).
      { intros neg r1 Hr1.
        destruct (parseDigits 0 0 r1) as [[m j] rest'] eqn:Ep.
        destruct j; [discriminate|].
        intros H. injection H as _ <-.
        apply parseDigits_length in Ep. simpl. lia. }
      destruct r as [|sg r']; [apply (Hsign false); lia|].
      destruct (sg =? "-")%char; [apply (Hsign true); simpl; lia|].
      destruct (sg =? "+")%char; apply (Hsign false); simpl; lia.
    + intros H. injection H as _ <-. lia.
Qed.

Lemma parseNumber_length (s : string) (q : Q) (rest : string) :
  parseNumber s = Some (q, rest) ->
  (String.length rest < String.length s)%nat.
Proof.
  unfold parseNumber.
  set (start := match s with
                | String c r => if (c =? "-")%char then (true, r) else (false, s)
                | EmptyString => (false, s)
                end).
  assert (Hstart : (String.length (snd start) <= String.length s)%nat).
  { subst start. destruct s as [|c r]; [simpl; lia|].
    destruct (c =? "-")%char; simpl; lia. }
  destruct start as [negative s1]. simpl in Hstart.
  destruct (parseInt s1) as [[i s2]|] eqn:E1; [|discriminate].
  destruct (parseFrac s2) as [[[f k] s3]|] eqn:E2; [|discriminate].
  destruct (parseExp s3) as [[e s4]|] eqn:E3; [|discriminate].
  intros H. injection H as _ <-.
  apply parseInt_length in E1. apply parseFrac_length in E2.
  apply parseExp_length in E3. lia.
Qed.

Lemma consChar_some (c : ascii) (r : option (string * string))
  (str rest : string) :
  consChar c r = Some (str, rest) ->
  exists str', r = Some (str', rest).
Proof.
  destruct r as [[s' rest']|]; simpl; [|discriminate].
  intros H. injection H as _ <-. eauto.
Qed.

Lemma parseStringBody_length (n : nat) :
  forall s str rest,
    (String.length s <= n)%nat ->
    parseStringBody s = Some (str, rest) ->
    (String.length rest < String.length s)%nat.
Proof.
  induction n as [|n IH]; intros s str rest Hn H.
  - destruct s; [discriminate|simpl in Hn; lia].
  - destruct s as [|c r]; [discriminate|]. cbn [parseStringBody] in H.
    simpl in Hn.
    destruct (c =? quote)%char.
    { injection H as _ <-. simpl. lia. }
    destruct (c =? "\")%char.
    + destruct r as [|e r1]; [discriminate|].
      destruct (e =? "u")%char.
      * destruct r1 as [|h1 [|h2 [|h3 [|h4 r2]]]]; try discriminate.
        destruct (hexValue4 h1 h2 h3 h4) as [m|]; [|discriminate].
        destruct (m <? 256)%N; [|discriminate].
        apply consChar_some in H as [str' H].
        apply IH in H; simpl in *; lia.
      * destruct (unescape e); [|discriminate].
        apply consChar_some in H as [str' H].
        apply IH in H; simpl in *; lia.
    + destruct (N_of_ascii c <? 32)%N; [discriminate|].
      apply consChar_some in H as [str' H].
      apply IH in H; simpl in *; lia.
Qed.

Lemma valueOk_step (fuel : nat) :
  elementsOk fuel -> membersOk fuel -> valueOk (S fuel).
Proof.
  intros HE HM s v rest H. cbn [parseValue] in H.
  destruct s as [|c r]; [discriminate|].
  pose proof (skipWs_length r) as Hws.
  destruct (c =? "{")%char eqn:E1.
  { destruct (skipWs r) as [|c' r'] eqn:Er; [discriminate|].
    destruct (c' =? "}")%char eqn:E2.
    - injection H as <- <-. cbn [String.length] in *. split; [lia|].
      intros [|f'] Hf; cbn [String.length] in Hf; [lia|]. cbn [parseValue]. now rewrite E1, Er, E2.
    - destruct (HM _ _ _ _ H) as [Hlen Hfuel]. cbn [String.length] in *.
      split; [lia|].
      intros [|f'] Hf; cbn [String.length] in Hf; [lia|]. cbn [parseValue]. rewrite E1, Er, E2.
      apply Hfuel. cbn [String.length]. lia. }
  destruct (c =? "[")%char eqn:E2.
  { destruct (skipWs r) as [|c' r'] eqn:Er; [discriminate|].
    destruct (c' =? "]")%char eqn:E3.
    - injection H as <- <-. cbn [String.length] in *. split; [lia|].
      intros [|f'] Hf; cbn [String.length] in Hf; [lia|]. cbn [parseValue]. now rewrite E1, E2, Er, E3.
    - destruct (HE _ _ _ _ H) as [Hlen Hfuel]. cbn [String.length] in *. split; [lia|].
      intros [|f'] Hf; cbn [String.length] in Hf; [lia|]. cbn [parseValue]. rewrite E1, E2, Er, E3.
      apply Hfuel. cbn [String.length]. lia. }
  destruct (c =? quote)%char eqn:E3.
  { destruct (parseStringBody r) as [[str rest']|] eqn:Eb; [|discriminate].
    injection H as <- <-.
    apply (parseStringBody_length _ _ _ _ (le_n _)) in Eb as Hlen.
    cbn [String.length] in *. split; [lia|].
    intros [|f'] Hf; cbn [String.length] in Hf; [lia|]. cbn [parseValue]. now rewrite E1, E2, E3, Eb. }
  destruct (c =? "t")%char eqn:E4.
  { apply literal_length in H as Hlen. cbn [String.length] in *. split; [lia|].
    intros [|f'] Hf; cbn [String.length] in Hf; [lia|]. cbn [parseValue]. now rewrite E1, E2, E3, E4. }
  destruct (c =? "f")%char eqn:E5.
  { apply literal_length in H as Hlen. cbn [String.length] in *. split; [lia|].
    intros [|f'] Hf; cbn [String.length] in Hf; [lia|]. cbn [parseValue]. now rewrite E1, E2, E3, E4, E5. }
  destruct (c =? "n")%char eqn:E6.
  { apply literal_length in H as Hlen. cbn [String.length] in *. split; [lia|].
    intros [|f'] Hf; cbn [String.length] in Hf; [lia|]. cbn [parseValue].
    now rewrite E1, E2, E3, E4, E5, E6. }
  destruct (parseNumber (String c r)) as [[q rest']|] eqn:En; [|discriminate].
  injection H as <- <-.
  apply parseNumber_length in En as Hlen. split; [exact Hlen|].
  cbn [String.length] in Hlen.
  intros [|f'] Hf; cbn [String.length] in Hf; [lia|]. cbn [parseValue].
  now rewrite E1, E2, E3, E4, E5, E6, En.
Qed.

Lemma elementsOk_step (fuel : nat) :
  valueOk fuel -> elementsOk fuel -> elementsOk (S fuel).
Proof.
  intros HV HE s acc v rest H. cbn [parseElements] in H.
  destruct (parseValue fuel s) as [[x rest1]|] eqn:Ev; [|discriminate].
  destruct (HV _ _ _ Ev) as [Hlen1 Hfuel1].
  pose proof (skipWs_length rest1) as Hws1.
  destruct (skipWs rest1) as [|c r] eqn:Er; [discriminate|].
  pose proof (skipWs_length r) as Hws.
  destruct (c =? ",")%char eqn:E1.
  - destruct (HE _ _ _ _ H) as [Hlen Hfuel]. cbn [String.length] in *. split; [lia|].
    intros [|f'] Hf; cbn [String.length] in Hf; [lia|]. cbn [parseElements].
    rewrite (Hfuel1 f') by lia. rewrite Er, E1. apply Hfuel. lia.
  - destruct (c =? "]")%char eqn:E2; [|discriminate].
    injection H as <- <-. cbn [String.length] in *. split; [lia|].
    intros [|f'] Hf; cbn [String.length] in Hf; [lia|]. cbn [parseElements].
    rewrite (Hfuel1 f') by lia. now rewrite Er, E1, E2.
Qed.

Lemma membersOk_step (fuel : nat) :
  valueOk fuel -> membersOk fuel -> membersOk (S fuel).
Proof.
  intros HV HM s acc v rest H. cbn [parseMembers] in H.
  destruct s as [|q r]; [discriminate|].
  destruct (q =? quote)%char eqn:E0; [|discriminate].
  destruct (parseStringBody r) as [[key rest0]|] eqn:Ek; [|discriminate].
  apply (parseStringBody_length _ _ _ _ (le_n _)) in Ek as Hlen0.
  pose proof (skipWs_length rest0) as Hws0.
  destruct (skipWs rest0) as [|colon r1] eqn:Er0; [discriminate|].
  destruct (colon =? ":")%char eqn:E1; [|discriminate].
  pose proof (skipWs_length r1) as Hws1.
  destruct (parseValue fuel (skipWs r1)) as [[x rest1]|] eqn:Ev; [|discriminate].
  destruct (HV _ _ _ Ev) as [Hlen1 Hfuel1].
  pose proof (skipWs_length rest1) as Hws2.
  destruct (skipWs rest1) as [|c r2] eqn:Er1; [discriminate|].
  pose proof (skipWs_length r2) as Hws3.
  destruct (c =? ",")%char eqn:E2.
  - destruct (HM _ _ _ _ H) as [Hlen Hfuel]. cbn [String.length] in *. split; [lia|].
    intros [|f'] Hf; cbn [String.length] in Hf; [lia|]. cbn [parseMembers].
    rewrite E0, Ek, Er0, E1. rewrite (Hfuel1 f') by lia.
    rewrite Er1, E2. apply Hfuel. lia.
  - destruct (c =? "}")%char eqn:E3; [|discriminate].
    injection H as <- <-. cbn [String.length] in *. split; [lia|].
    intros [|f'] Hf; cbn [String.length] in Hf; [lia|]. cbn [parseMembers].
    rewrite E0, Ek, Er0, E1. rewrite (Hfuel1 f') by lia.
    now rewrite Er1, E2, E3.
Qed.

Lemma fuel_ok (fuel : nat) : valueOk fuel /\ elementsOk fuel /\ membersOk fuel.
Proof.
  induction fuel as [|f (HV & HE & HM)].
  - split; [|split];
      [intros s v rest H|intros s acc v rest H|intros s acc v rest H];
      discriminate H.
  - split; [|split].
    + now apply valueOk_step.
    + now apply elementsOk_step.
    + now apply membersOk_step.
Qed.

(** A parse that succeeds on some fuel is the result of [JSON.parse]: the
    fuel [parse] starts with never cuts a parse short. *)
Theorem parse_complete (text : string) (fuel : nat) (v : Value) (rest : string) :
  parseValue fuel (skipWs text) = Some (v, rest) ->
  skipWs rest = "" ->
  parse text = Some v.
Proof.
  intros H Hrest. unfold parse.
  destruct (fuel_ok fuel) as [HV _].
  destruct (HV _ _ _ H) as [_ Hfuel].
  rewrite Hfuel; [now rewrite Hrest|].
  pose proof (skipWs_length text). lia.
Qed.

(** A result obtained on some fuel is obtained on any fuel of at least
    twice the length of the text. *)
Theorem parseValue_enough_fuel (fuel fuel' : nat) (s : string) (v : Value)
  (rest : string) :
  parseValue fuel s = Some (v, rest) ->
  (2 * String.length s <= fuel')%nat ->
  parseValue fuel' s = Some (v, rest).
Proof.
  intros H Hf. destruct (fuel_ok fuel) as [HV _].
  destruct (HV _ _ _ H) as [_ Hfuel]. apply Hfuel. lia.
Qed.

End ParserFacts.

(** ** Reading back a serialized conversation *)

Module RoundTripFacts.
Import JS JSON TextFacts JSONFacts Reference Auxiliary.

(** One member [key:value,] of an object, then the next ones. *)
Lemma parseMembers_next (fuel : nat) (key text more : string) (v : Value)
  (acc : list (string * Value)) :
  skipWs text = text ->
  parseValue fuel text = Some (v, String "," more) ->
  parseMembers (S fuel) (QuoteJSONString key ++ String ":" text) acc =
  parseMembers fuel (skipWs more) (defineProperty acc key v).
Proof.
  intros Hws Hv. rewrite QuoteJSONString_app. cbn [parseMembers].
  change ((quote =? quote)%char) with true. cbv iota.
  rewrite parseStringBody_escapeString. cbn [skipWs].
  change (isJsonSpace ":") with false. cbv iota.
  change ((":" =? ":")%char) with true. cbv iota.
  rewrite Hws, Hv. cbn [skipWs].
  change (isJsonSpace ",") with false. cbv iota.
  change (("," =? ",")%char) with true. cbv iota. reflexivity.
Qed.

(** The last member [key:value}] of an object. *)
Lemma parseMembers_last (fuel : nat) (key text rest : string) (v : Value)
  (acc : list (string * Value)) :
  skipWs text = text ->
  parseValue fuel text = Some (v, String "}" rest) ->
  parseMembers (S fuel) (QuoteJSONString key ++ String ":" text) acc =
  Some (Obj (defineProperty acc key v), rest).
Proof.
  intros Hws Hv. rewrite QuoteJSONString_app. cbn [parseMembers].
  change ((quote =? quote)%char) with true. cbv iota.
  rewrite parseStringBody_escapeString. cbn [skipWs].
  change (isJsonSpace ":") with false. cbv iota.
  change ((":" =? ":")%char) with true. cbv iota.
  rewrite Hws, Hv. cbn [skipWs].
  change (isJsonSpace "}") with false. cbv iota.
  change (("}" =? ",")%char) with false.
  change (("}" =? "}")%char) with true. cbv iota. reflexivity.
Qed.

Lemma skipWs_quoted (s rest : string) :
  skipWs (QuoteJSONString s ++ rest) = QuoteJSONString s ++ rest.
Proof. rewrite QuoteJSONString_app. reflexivity. Qed.

Lemma skipWs_integer (z : Z) (rest : string) :
  skipWs (Z_toString z ++ rest) = Z_toString z ++ rest.
Proof.
  destruct (Z_toString_head z) as (c & r & E & Hc). rewrite E.
  cbn [append skipWs].
  replace (isJsonSpace c) with false; [reflexivity|].
  revert Hc. clear. each_char c; intros H; try reflexivity; discriminate.
Qed.

Lemma stringify_message (m : Message) :
  stringify (messageObject m) = Some (messageText m "").
Proof.
  unfold messageObject, messageText. cbn [stringify flat_map snd fst app join].
  rewrite Number_toString_int. f_equal. cbn [append]. f_equal.
  repeat first [rewrite append_assoc | progress cbn [append]]. reflexivity.
Qed.

Lemma messageText_app (m : Message) (rest : string) :
  messageText m "" ++ rest = messageText m rest.
Proof.
  unfold messageText. cbn [append]. f_equal.
  repeat first [rewrite append_assoc | progress cbn [append]]. reflexivity.
Qed.

Lemma endsNumber_brace (rest : string) : endsNumber (String "}" rest).
Proof. repeat split. Qed.

Lemma parseValue_message (fuel : nat) (m : Message) (rest : string) :
  parseValue (6 + fuel) (messageText m rest) = Some (messageObject m, rest).
Proof.
  unfold messageText. cbn [Nat.add parseValue].
  change (("{" =? "{")%char) with true. cbv iota.
  rewrite skipWs_quoted.
  change (QuoteJSONString "id") with (String quote ("id" ++ String quote "")) at 1.
  cbn [append].
  change ((quote =? "}")%char) with false. cbv iota.
  change (String quote (String "i" (String "d" (String quote ?x))))
    with (QuoteJSONString "id" ++ x).
  erewrite (parseMembers_next _ "id" _ _ (Str (msg_id m)));
    [|apply skipWs_quoted|apply parseValue_string].
  rewrite skipWs_quoted.
  erewrite (parseMembers_next _ "content" _ _ (Str (msg_content m)));
    [|apply skipWs_quoted|apply parseValue_string].
  rewrite skipWs_quoted.
  erewrite (parseMembers_next _ "sender" _ _ (Str (msg_sender m)));
    [|apply skipWs_quoted|apply parseValue_string].
  rewrite skipWs_quoted.
  erewrite (parseMembers_last _ "timestamp" _ _
             (Num (inject_Z (msg_timestamp m))));
    [|apply skipWs_integer|apply parseValue_integer, endsNumber_brace].
  reflexivity.
Qed.

Lemma join_messages (m : Message) (ms : list Message) (rest : string) :
  join "," (map (fun x => messageText x "") (m :: ms)) ++ rest =
  elementsText m ms rest.
Proof.
  revert m. induction ms as [|m' ms' IH]; intros m.
  - apply messageText_app.
  - change (join "," (map (fun x => messageText x "") (m :: m' :: ms')))
      with (messageText m "" ++
            String "," (join "," (map (fun x => messageText x "") (m' :: ms')))).
    rewrite append_assoc, messageText_app. cbn [append elementsText].
    now rewrite IH.
Qed.

Lemma elementsText_head (m : Message) (ms : list Message) (rest : string) :
  exists r, elementsText m ms rest = String "{" r.
Proof. destruct ms; simpl; unfold messageText; eauto. Qed.

Lemma parseElements_messages (ms : list Message) :
  forall (m : Message) (acc : list Value) (fuel : nat) (rest : string),
    (List.length ms + 7 <= fuel)%nat ->
    parseElements fuel (elementsText m ms (String "]" rest)) acc =
    Some (Arr (acc ++ map messageObject (m :: ms)), rest).
Proof.
  induction ms as [|m' ms' IH]; intros m acc fuel rest Hfuel;
    (destruct fuel as [|fuel]; [simpl in Hfuel; lia|]);
    cbn [elementsText parseElements];
    replace fuel with (6 + (fuel - 6))%nat at 1 by (simpl in Hfuel; lia);
    rewrite parseValue_message; cbn [skipWs].
  - reflexivity.
  - change (isJsonSpace ",") with false. cbv iota.
    change (("," =? ",")%char) with true. cbv iota.
    destruct (elementsText_head m' ms' (String "]" rest)) as [r E].
    replace (skipWs (elementsText m' ms' (String "]" rest)))
      with (elementsText m' ms' (String "]" rest))
      by (rewrite E; reflexivity).
    rewrite IH by (simpl in Hfuel; lia).
    now rewrite <- app_assoc.
Qed.

Lemma parseValue_messages (ms : list Message) (fuel : nat) (rest : string) :
  (List.length ms + 8 <= fuel)%nat ->
  parseValue fuel (arrayText ms rest) =
  Some (Arr (map messageObject ms), rest).
Proof.
  intros Hfuel. destruct fuel as [|fuel]; [lia|].
  destruct ms as [|m ms']; [reflexivity|].
  cbn [arrayText parseValue].
  change (("[" =? "{")%char) with false.
  change (("[" =? "[")%char) with true. cbv iota.
  destruct (elementsText_head m ms' (String "]" rest)) as [r E].
  assert (Hs : skipWs (elementsText m ms' (String "]" rest)) =
               elementsText m ms' (String "]" rest))
    by (rewrite E; reflexivity).
  rewrite Hs.
  rewrite parseElements_messages by (simpl in Hfuel; lia).
  rewrite E. reflexivity.
Qed.

Lemma stringify_messages (ms : list Message) :
  map (fun x => match stringify x with Some text => text | None => "null" end)
      (map messageObject ms) =
  map (fun m => messageText m "") ms.
Proof.
  rewrite map_map. apply map_ext. intros m. now rewrite stringify_message.
Qed.

Lemma stringify_state (ms : list Message) (counter : Z) :
  stringify (stateValue ms counter) = Some (stateText ms counter).
Proof.
  unfold stateValue, stateText.
  cbn [stringify flat_map snd fst app join].
  fold stringify. rewrite stringify_messages, Number_toString_int.
  f_equal. cbn [append]. f_equal.
  repeat first [rewrite append_assoc | progress cbn [append]].
  do 2 f_equal.
  destruct ms as [|m ms']; [reflexivity|].
  cbn [arrayText]. f_equal. apply join_messages.
Qed.

Lemma parseValue_state (ms : list Message) (counter : Z) (fuel : nat) :
  (List.length ms + 10 <= fuel)%nat ->
  parseValue fuel (stateText ms counter) = Some (stateValue ms counter, "").
Proof.
  intros Hfuel.
  destruct fuel as [|fuel]; [lia|]. destruct fuel as [|fuel]; [lia|].
  unfold stateText. cbn [parseValue].
  change (("{" =? "{")%char) with true. cbv iota.
  rewrite skipWs_quoted.
  change (QuoteJSONString "messages")
    with (String quote ("messages" ++ String quote "")) at 1.
  cbn [append].
  change ((quote =? "}")%char) with false. cbv iota.
  change (String quote (String "m" (String "e" (String "s" (String "s"
           (String "a" (String "g" (String "e" (String "s"
             (String quote ?x))))))))))
    with (QuoteJSONString "messages" ++ x).
  erewrite (parseMembers_next _ "messages" _ _ (Arr (map messageObject ms)));
    [| destruct ms; reflexivity
     | apply parseValue_messages; lia].
  rewrite skipWs_quoted.
  destruct fuel as [|fuel]; [lia|]. destruct fuel as [|fuel]; [lia|].
  erewrite (parseMembers_last _ "messageIdCounter" _ _ (Num (inject_Z counter)));
    [|apply skipWs_integer|apply parseValue_integer, endsNumber_brace].
  reflexivity.
Qed.

Lemma messageText_length (m : Message) (rest : string) :
  (1 <= String.length (messageText m rest))%nat.
Proof. unfold messageText. simpl. lia. Qed.

Lemma elementsText_length (ms : list Message) :
  forall m rest, (List.length ms <= String.length (elementsText m ms rest))%nat.
Proof.
  induction ms as [|m' ms' IH]; intros m rest; [simpl; lia|].
  cbn [elementsText List.length].
  rewrite <- messageText_app, length_append. cbn [String.length].
  specialize (IH m' rest). lia.
Qed.

Lemma stateText_length (ms : list Message) (counter : Z) :
  (List.length ms + 4 <= String.length (stateText ms counter))%nat.
Proof.
  unfold stateText. cbn [String.length]. rewrite QuoteJSONString_app.
  cbn [String.length]. rewrite length_append. cbn [String.length].
  destruct ms as [|m ms']; cbn [arrayText String.length List.length]; [lia|].
  pose proof (elementsText_length ms' m
                (String "]" (String ","
                   (QuoteJSONString "messageIdCounter" ++
                    String ":" (Z_toString counter ++ String "}" ""))))).
  lia.
Qed.

(** [JSON.parse] reads back what [JSON.stringify] wrote for a state. *)
Lemma parse_stateText (ms : list Message) (counter : Z) :
  parse (stateText ms counter) = Some (stateValue ms counter).
Proof.
  unfold parse.
  replace (skipWs (stateText ms counter)) with (stateText ms counter)
    by reflexivity.
  rewrite parseValue_state; [reflexivity|].
  pose proof (stateText_length ms counter). lia.
Qed.

End RoundTripFacts.

(** ** Intent detection *)

Module IntentFacts.
Import JS QueryProcessor Reference Auxiliary.

Lemma fold_scoreHigh (q : string) (patterns : list string) :
  forall score,
    fold_left (scoreHigh q) patterns score =
    (score + fold_right Z.add 0 (map (highPoints q) patterns))%Z.
Proof.
  induction patterns as [|p r IH]; intros score; simpl; [lia|].
  rewrite IH. unfold scoreHigh, highPoints.
  destruct (includes q p); [lia|].
  destruct (wordBoundaryTest p q); lia.
Qed.

Lemma fold_scoreMedium (q : string) (patterns : list string) :
  forall score,
    fold_left (scoreMedium q) patterns score =
    (score + fold_right Z.add 0 (map (mediumPoints q) patterns))%Z.
Proof.
  induction patterns as [|p r IH]; intros score; simpl; [lia|].
  rewrite IH. unfold scoreMedium, mediumPoints.
  destruct (wordBoundaryTest p q); [lia|].
  destruct (includes q p); lia.
Qed.

(** The two loops add up the points of the specification. *)
Lemma scoreIntent_aggregate (q : string) (patterns : Patterns) :
  scoreIntent q patterns = aggregateScore q patterns.
Proof.
  unfold scoreIntent, aggregateScore.
  rewrite fold_scoreMedium, fold_scoreHigh. lia.
Qed.

Lemma computeScores_aggregate (table : list (string * Patterns)) (q : string) :
  computeScores table q =
  map (fun entry => (fst entry, aggregateScore q (snd entry))) table.
Proof.
  unfold computeScores. apply map_ext. intros e.
  now rewrite scoreIntent_aggregate.
Qed.

Lemma aggregateScore_nonneg (q : string) (patterns : Patterns) :
  (0 <= aggregateScore q patterns)%Z.
Proof.
  unfold aggregateScore.
  assert (H : forall (f : string -> Z) l,
             (forall p, 0 <= f p)%Z -> (0 <= fold_right Z.add 0 (map f l))%Z).
  { intros f l Hf. induction l as [|x r IH]; simpl; [lia|].
    specialize (Hf x). lia. }
  assert (Hh : forall p, (0 <= highPoints q p)%Z).
  { intros p. unfold highPoints.
    destruct (includes q p); [lia|]. destruct (wordBoundaryTest p q); lia. }
  assert (Hm : forall p, (0 <= mediumPoints q p)%Z).
  { intros p. unfold mediumPoints.
    destruct (wordBoundaryTest p q); [lia|]. destruct (includes q p); lia. }
  pose proof (H _ (high patterns) Hh). pose proof (H _ (medium patterns) Hm).
  lia.
Qed.

(** The loop that keeps the best entry: either nothing beats the start, or
    the result is the first entry that carries the maximum. *)
Lemma fold_keepMax (scores : list (string * Z)) :
  forall (m0 : Z) (i0 : string),
    (Forall (fun e => (snd e <= m0)%Z) scores /\
     fold_left keepMax scores (m0, i0) = (m0, i0)) \/
    (exists pre intent m post,
        scores = (pre ++ (intent, m) :: post)%list /\
        (m0 < m)%Z /\
        Forall (fun e => (snd e < m)%Z) pre /\
        Forall (fun e => (snd e <= m)%Z) post /\
        fold_left keepMax scores (m0, i0) = (m, intent)).
Proof.
  induction scores as [|[i s] r IH]; intros m0 i0.
  - left. split; [constructor|reflexivity].
  - cbn [fold_left]. unfold keepMax at 2 4. cbv beta iota.
    destruct (Z.ltb_spec m0 s) as [Hlt|Hge].
    + right. destruct (IH s i) as [[Hall E]|(pre & i' & m & post & E & Hm & Hpre & Hpost & Ef)].
      * exists [], i, s, r. repeat split; auto.
      * exists ((i, s) :: pre), i', m, post. subst r.
        repeat split; auto; try lia.
    + destruct (IH m0 i0) as [[Hall E]|(pre & i' & m & post & E & Hm & Hpre & Hpost & Ef)].
      * left. split; [|exact E]. constructor; [exact Hge|exact Hall].
      * right. exists ((i, s) :: pre), i', m, post. subst r.
        repeat split; auto.
        constructor; [simpl; lia|exact Hpre].
Qed.

Lemma detectIntentIn_outcome (table : list (string * Patterns)) (q : string) :
  q <> "" ->
  outcome
    (map (fun entry =>
            (fst entry, aggregateScore (trim (toLowerCase q)) (snd entry)))
         table)
    (detectIntentIn table (Str q)).
Proof.
  intros Hq. unfold detectIntentIn.
  replace (truthy (Str q)) with true
    by (simpl; destruct q; [congruence|reflexivity]).
  cbn [negb]. rewrite computeScores_aggregate.
  set (scores := map _ table).
  destruct (fold_keepMax scores 0 "general")
    as [[Hall E]|(pre & i & m & post & E & Hm & Hpre & Hpost & Ef)].
  - rewrite E. cbn. left. split; [|reflexivity].
    eapply Forall_impl; [|exact Hall]. intros e He. simpl in He. lia.
  - rewrite Ef. destruct (Z.ltb_spec m 2) as [Hlt|Hge].
    + left. split; [|reflexivity]. rewrite E.
      apply Forall_app. split.
      * eapply Forall_impl; [|exact Hpre]. intros e He. simpl in He. lia.
      * constructor; [exact Hlt|].
        eapply Forall_impl; [|exact Hpost]. intros e He. simpl in He. lia.
    + right. exists pre, i, m, post. repeat split; auto.
Qed.

Lemma detectIntent_empty :
  outcome
    (map (fun entry =>
            (fst entry, aggregateScore (trim (toLowerCase "")) (snd entry)))
         intentPatterns)
    (detectIntent (Str "")).
Proof. left. split; [|reflexivity]. vm_compute. repeat constructor. Qed.

End IntentFacts.

(** ** The conversation history and its identifiers *)

Module ConversationFacts.
Import JS ConversationManager Reference TextFacts Auxiliary.

(** *** The limit *)

Lemma lastn_length {A : Type} (n : nat) (l : list A) :
  List.length (lastn n l) = Nat.min n (List.length l).
Proof. unfold lastn. rewrite length_skipn. lia. Qed.

Lemma lastn_all {A : Type} (n : nat) (l : list A) :
  (List.length l <= n)%nat -> lastn n l = l.
Proof.
  intros H. unfold lastn. now replace (List.length l - n)%nat with 0%nat by lia.
Qed.

Lemma lastn_app_lastn {A : Type} (n : nat) (h t : list A) :
  lastn n (lastn n h ++ t) = lastn n (h ++ t).
Proof.
  destruct (Nat.le_gt_cases (List.length h) n) as [Hle|Hgt].
  - now rewrite (lastn_all n h Hle).
  - unfold lastn at 1 3. rewrite !length_app, lastn_length.
    rewrite Nat.min_l by lia. unfold lastn.
    rewrite !skipn_app, length_skipn, skipn_skipn.
    f_equal; [f_equal; lia|f_equal; lia].
Qed.

Lemma Qfloor_diff (a b : Z) : Qfloor (inject_Z a - inject_Z b) = (a - b)%Z.
Proof.
  rewrite <- (Qfloor_Z (a - b)). apply Qfloor_comp.
  unfold Qminus. rewrite <- inject_Z_opp, <- inject_Z_plus. reflexivity.
Qed.

(** With an integer limit, [_enforceMessageLimit] keeps the last messages. *)
Lemma enforce_lastn (mgr : t) (cap : nat) :
  maxMessages mgr = inject_Z (Z.of_nat cap) ->
  _enforceMessageLimit mgr =
  {| messages := lastn cap (messages mgr);
     messageIdCounter := messageIdCounter mgr;
     maxMessages := maxMessages mgr |}.
Proof.
  intros Hcap. unfold _enforceMessageLimit. rewrite Hcap.
  destruct (Qlt_le_dec _ _) as [Hlt|Hle].
  - rewrite <- Zlt_Qlt in Hlt. rewrite Qfloor_diff. unfold lastn.
    do 2 f_equal. lia.
  - rewrite <- Zle_Qle in Hle. rewrite lastn_all by lia.
    destruct mgr; simpl in *. now subst.
Qed.

Lemma Qred_succ (z : Z) : Qred (inject_Z z + 1) = inject_Z (z + 1).
Proof.
  rewrite (Qred_complete _ (inject_Z (z + 1)))
    by (rewrite inject_Z_plus; reflexivity).
  apply Qcanon.Qred_identity. simpl. apply Z.gcd_1_r.
Qed.

(** *** The counter in binary64 *)

Lemma roundHalfEven_one (a : Z) : roundHalfEven a 1 = a.
Proof.
  unfold roundHalfEven. rewrite Z.mod_1_r, Z.div_1_r. reflexivity.
Qed.

Lemma exponentOf_integer (n : Z) : (0 < n)%Z -> exponentOf n 1 = Z.log2 n.
Proof.
  intros Hn. unfold exponentOf.
  change (Z.log2 1) with 0%Z. rewrite Z.sub_0_r.
  pose proof (Z.log2_nonneg n) as Hl.
  destruct (Z.log2_spec n Hn) as [Hlow _].
  replace (0 <=? Z.log2 n)%Z with true by (symmetry; apply Z.leb_le; lia).
  now replace (n <? 1 * 2 ^ Z.log2 n)%Z with false
    by (symmetry; apply Z.ltb_ge; lia).
Qed.

Lemma Qred_integer (q : Q) (n : Z) : (q == inject_Z n)%Q -> Qred q = inject_Z n.
Proof.
  intros H. rewrite (Qred_complete _ _ H).
  apply Qcanon.Qred_identity. simpl. apply Z.gcd_1_r.
Qed.

(** A positive integer up to 2^53 is a binary64 value. *)
Lemma binary64_integer (n : Z) :
  (0 < n <= 2 ^ 53)%Z -> binary64 (n # 1) = inject_Z n.
Proof.
  intros Hn. unfold binary64. cbn [Qnum Qden].
  rewrite Z.abs_eq by lia.
  replace (n =? 0)%Z with false by (symmetry; apply Z.eqb_neq; lia).
  replace (n <? 0)%Z with false by (symmetry; apply Z.ltb_ge; lia).
  rewrite exponentOf_integer by lia.
  pose proof (Z.log2_nonneg n) as Hl.
  assert (Hu : (Z.log2 n <= 53)%Z).
  { change 53%Z with (Z.log2 (2 ^ 53)). apply Z.log2_le_mono. lia. }
  rewrite Z.max_l by lia.
  destruct (Z.leb_spec 0 (Z.log2 n - 52)) as [Hp|Hp].
  - assert (Hcase : Z.log2 n = 52%Z \/ Z.log2 n = 53%Z) by lia.
    destruct Hcase as [He|He]; rewrite He.
    + change (52 - 52)%Z with 0%Z. change (2 ^ 0)%Z with 1%Z.
      rewrite roundHalfEven_one. apply Qred_integer.
      now rewrite Z.mul_1_r.
    + assert (Htop : n = (2 ^ 53)%Z).
      { destruct (Z.log2_spec n) as [Hlow _]; [lia|].
        rewrite He in Hlow. lia. }
      rewrite Htop. vm_compute. reflexivity.
  - rewrite roundHalfEven_one.
    assert (Hpow : (0 < 2 ^ (- (Z.log2 n - 52)))%Z)
      by (apply Z.pow_pos_nonneg; lia).
    apply Qred_integer. unfold Qeq. cbn [Qnum Qden inject_Z].
    rewrite Z2Pos.id by exact Hpow. lia.
Qed.

Lemma binary64_succ (k : Z) :
  (0 <= k < 2 ^ 53)%Z -> binary64 (inject_Z k + 1) = inject_Z (k + 1).
Proof.
  intros Hk. change (inject_Z k + 1)%Q with ((k * 1 + 1 * 1) # 1)%Q.
  replace (k * 1 + 1 * 1)%Z with (k + 1)%Z by lia.
  apply binary64_integer. lia.
Qed.

(** At 2^53 adding one changes nothing. *)
Lemma binary64_top : binary64 (inject_Z (2 ^ 53) + 1) = inject_Z (2 ^ 53).
Proof. vm_compute. reflexivity. Qed.

(** *** One call *)

Lemma passesValidation_spec (c : Call) :
  passesValidation c = true <->
  message c <> Undefined /\ message c <> Null /\
  negb (truthy (sender c)) || negb (isValidSender (sender c)) = false.
Proof.
  unfold passesValidation.
  destruct (message c); split;
    try (intros H; discriminate H);
    try (intros (Hu & Hn & _); congruence);
    try (intros H; apply andb_true_iff in H as [-> ->];
         repeat split; discriminate);
    intros (_ & _ & H); apply orb_false_iff in H as [H1 H2];
    apply negb_false_iff in H1, H2; now rewrite H1, H2.
Qed.

Lemma call_ok (c : Call) (mgr : t) (msg : Value) (mgr' : t) :
  call c mgr = (Ok msg, mgr') ->
  let counter := binary64 (messageIdCounter mgr + 1) in
  exists content,
    ToString (message c) = Some content /\
    passesValidation c = true /\
    msg = built c counter content /\
    mgr' = _enforceMessageLimit
             {| messages := (messages mgr ++ [msg])%list;
                messageIdCounter := counter;
                maxMessages := maxMessages mgr |}.
Proof.
  unfold call, addMessage, built, idText, _generateId, passesValidation.
  destruct (message c) eqn:Em; try discriminate;
    (destruct (negb (truthy (sender c)) || negb (isValidSender (sender c)))
       eqn:Es; [discriminate|]);
    apply orb_false_iff in Es as [Es1 Es2];
    apply negb_false_iff in Es1, Es2; rewrite Es1, Es2;
    cbn [messages messageIdCounter maxMessages];
    match goal with
    | |- context [ToString ?v] => destruct (ToString v) as [content|]
    end; try discriminate;
    intros E; injection E as <- <-; exists content; repeat split.
Qed.

(** A call that throws leaves the history and the limit as they were; the
    counter is advanced when the call passed the validations. *)
Lemma call_throw (c : Call) (mgr : t) (e : string) (mgr' : t) :
  call c mgr = (Throw e, mgr') ->
  messages mgr' = messages mgr /\
  maxMessages mgr' = maxMessages mgr /\
  messageIdCounter mgr' =
  (if passesValidation c then binary64 (messageIdCounter mgr + 1)
   else messageIdCounter mgr) /\
  (passesValidation c = true -> converts c = false).
Proof.
  unfold call, addMessage, _generateId, passesValidation, converts.
  destruct (message c) eqn:Em;
    try (intros E; injection E as _ <-; repeat split; discriminate);
    (destruct (negb (truthy (sender c)) || negb (isValidSender (sender c)))
       eqn:Es;
     [intros E; injection E as _ <-;
      apply orb_true_iff in Es as [Es|Es]; apply negb_true_iff in Es;
      rewrite Es, ?andb_false_r; repeat split; discriminate|]);
    apply orb_false_iff in Es as [Es1 Es2];
    apply negb_false_iff in Es1, Es2; rewrite Es1, Es2;
    cbn [messages messageIdCounter maxMessages];
    match goal with
    | |- context [ToString ?v] => destruct (ToString v) as [content|]
    end; try discriminate;
    intros E; injection E as _ <-; repeat split.
Qed.

Lemma enforce_counter (mgr : t) :
  messageIdCounter (_enforceMessageLimit mgr) = messageIdCounter mgr.
Proof. unfold _enforceMessageLimit. now destruct (Qlt_le_dec _ _). Qed.

(** The counter after a call that passes the validations. *)
Lemma call_counter (c : Call) (mgr : t) :
  messageIdCounter (snd (call c mgr)) =
  if passesValidation c then binary64 (messageIdCounter mgr + 1)
  else messageIdCounter mgr.
Proof.
  destruct (call c mgr) as [[msg|e] mgr'] eqn:Ec; cbn [snd].
  - apply call_ok in Ec as (content & _ & -> & _ & ->).
    now rewrite enforce_counter.
  - now apply call_throw in Ec as (_ & _ & -> & _).
Qed.


Lemma lastn_snoc {A : Type} (n : nat) (l : list A) (x : A) :
  (0 < n)%nat -> lastn n (l ++ [x]) = (lastn (n - 1) l ++ [x])%list.
Proof.
  intros Hn. unfold lastn. rewrite length_app, skipn_app. cbn [List.length].
  replace (List.length l + 1 - n)%nat with (List.length l - (n - 1))%nat by lia.
  replace (List.length l - (n - 1) - List.length l)%nat with 0%nat by lia.
  reflexivity.
Qed.

Lemma call_limit (c : Call) (mgr : t) (msg : Value) (mgr' : t) (cap : nat) :
  maxMessages mgr = inject_Z (Z.of_nat cap) ->
  call c mgr = (Ok msg, mgr') ->
  messages mgr' = lastn cap (messages mgr ++ [msg]) /\
  maxMessages mgr' = maxMessages mgr.
Proof.
  intros Hcap Hcall. apply call_ok in Hcall as (content & _ & _ & _ & ->).
  rewrite (enforce_lastn _ cap) by exact Hcap. split; reflexivity.
Qed.

Lemma addAll_history (calls : list Call) :
  forall (mgr : t) (cap : nat) (hist created : list Value) (final : t),
    maxMessages mgr = inject_Z (Z.of_nat cap) ->
    messages mgr = lastn cap hist ->
    addAll calls mgr = Ok (created, final) ->
    messages final = lastn cap (hist ++ created).
Proof.
  induction calls as [|c rest IH]; intros mgr cap hist created final Hcap Hm Hrun.
  - injection Hrun as <- <-. now rewrite app_nil_r.
  - cbn [addAll] in Hrun.
    destruct (call c mgr) as [[msg|e] mgr'] eqn:Ec; [|discriminate].
    destruct (addAll rest mgr') as [[msgs final']|] eqn:Er; [|discriminate].
    injection Hrun as <- <-.
    destruct (call_limit _ _ _ _ cap Hcap Ec) as [Hm' Hcap'].
    replace (hist ++ msg :: msgs)%list with ((hist ++ [msg]) ++ msgs)%list
      by (now rewrite <- app_assoc).
    apply (IH mgr'); [congruence| |exact Er].
    rewrite Hm', Hm. apply lastn_app_lastn.
Qed.

(** *** Identifiers *)

Lemma allChars_app (p : ascii -> bool) (a b : string) :
  allChars p (a ++ b) = allChars p a && allChars p b.
Proof.
  induction a as [|c r IH]; simpl; [reflexivity|].
  now rewrite IH, andb_assoc.
Qed.

(** Two texts that end with an underscore and a field without underscore
    agree on that field. *)
Lemma last_field_inj (a : string) :
  forall b x y,
    allChars notUnderscore x = true ->
    allChars notUnderscore y = true ->
    a ++ String "_" x = b ++ String "_" y -> x = y.
Proof.
  induction a as [|c a' IH]; intros b x y Hx Hy E.
  - destruct b as [|c' b']; simpl in E.
    + now injection E.
    + injection E as _ E. subst x.
      rewrite allChars_app in Hx. simpl in Hx.
      now rewrite andb_false_r in Hx.
  - destruct b as [|c' b']; simpl in E.
    + injection E as _ E. subst y.
      rewrite allChars_app in Hy. simpl in Hy.
      now rewrite andb_false_r in Hy.
    + injection E as _ E. now apply (IH b').
Qed.

Lemma Z_toString_notUnderscore (z : Z) :
  allChars notUnderscore (Z_toString z) = true.
Proof.
  apply (allChars_impl isNumberChar); [|apply Z_toString_chars].
  intros c. destruct c as [[] [] [] [] [] [] [] []]; intros H;
    try reflexivity; discriminate.
Qed.

Lemma idText_fields (now : Z) (counter : Q) :
  idText now counter =
  ("msg_" ++ Number_toString (inject_Z now)) ++
  String "_" (Number_toString counter).
Proof. unfold idText. now rewrite append_assoc. Qed.

Lemma idText_inj (now now' i j : Z) :
  idText now (inject_Z i) = idText now' (inject_Z j) -> i = j.
Proof.
  rewrite !idText_fields, !Number_toString_int. intros E.
  apply Z_toString_inj.
  eapply last_field_inj; [| |exact E]; apply Z_toString_notUnderscore.
Qed.

Lemma idOf_built (c : Call) (counter : Q) (content : string) :
  idOf (built c counter content) = Str (idText (nowId c) counter).
Proof. reflexivity. Qed.

(** The ids of a session that starts with the counter at [n] and generates
    no more ids than the counter can count. *)
Lemma run_ids (ops : list Op) :
  forall (mgr : t) (n : nat) (created : list Value) (final : t),
    messageIdCounter mgr = inject_Z (Z.of_nat n) ->
    (Z.of_nat (n + List.length (generating ops)) <= counterLimit)%Z ->
    run ops mgr = (created, final) ->
    NoDup (map idOf created) /\
    Forall (idAbove n) created /\
    messageIdCounter final =
    inject_Z (Z.of_nat (n + List.length (generating ops))) /\
    List.length created = List.length (creating ops).
Proof.
  unfold counterLimit.
  induction ops as [|op rest IH]; intros mgr n created final Hn Hb Hrun.
  - injection Hrun as <- <-. cbn [generating creating filter List.length].
    rewrite Nat.add_0_r.
    repeat split; [constructor|constructor|exact Hn].
  - destruct op as [c| |limit]; cbn [run] in Hrun.
    + pose proof (call_counter c mgr) as Hcount.
      unfold generating, creating in *. cbn [filter] in *.
      destruct (call c mgr) as [[msg|e] mgr'] eqn:Ec; cbn [snd] in Hcount.
      * destruct (run rest mgr') as [msgs final'] eqn:Er.
        injection Hrun as <- <-.
        apply call_ok in Ec as (content & Hts & Hv & Hmsg & Hmgr).
        unfold converts. rewrite Hv, Hts in *. cbn [andb List.length] in *.
        assert (Hn' : messageIdCounter mgr' = inject_Z (Z.of_nat (S n))).
        { rewrite Hcount, Hn, binary64_succ by lia. f_equal. lia. }
        destruct (IH mgr' (S n) msgs final' Hn') as (Hnd & Hall & Hc & Hl);
          [lia|exact Er|].
        assert (Hid : idOf msg =
                      Str (idText (nowId c) (inject_Z (Z.of_nat (S n))))).
        { rewrite Hmsg, Hn, binary64_succ, idOf_built by lia.
          do 3 f_equal. lia. }
        split; [|split; [|split]].
        -- cbn [map]. constructor; [|exact Hnd].
           intros Hin. apply in_map_iff in Hin as (m & Em & Hm).
           rewrite Forall_forall in Hall.
           destruct (Hall m Hm) as (now & k & Hk & Ek).
           rewrite Hid, Ek in Em.
           assert (Et : idText now (inject_Z (Z.of_nat k)) =
                        idText (nowId c) (inject_Z (Z.of_nat (S n))))
             by congruence.
           apply idText_inj in Et. lia.
        -- constructor.
           ++ exists (nowId c), (S n). split; [lia|exact Hid].
           ++ eapply Forall_impl; [|exact Hall].
              intros m (now & k & Hk & Ek). exists now, k. split; [lia|exact Ek].
        -- rewrite Hc. f_equal. lia.
        -- cbn [List.length]. now rewrite Hl.
      * apply call_throw in Ec as (_ & _ & _ & Hconv).
        destruct (passesValidation c) eqn:Hv.
        -- rewrite (Hconv eq_refl). cbn [andb List.length] in *.
           assert (Hn' : messageIdCounter mgr' = inject_Z (Z.of_nat (S n))).
           { rewrite Hcount, Hn, binary64_succ by lia. f_equal. lia. }
           destruct (IH mgr' (S n) created final Hn') as (Hnd & Hall & Hc & Hl);
             [lia|exact Hrun|].
           split; [exact Hnd|]. split; [|split; [|exact Hl]].
           ++ eapply Forall_impl; [|exact Hall].
              intros m (now & k & Hk & Ek). exists now, k. split; [lia|exact Ek].
           ++ rewrite Hc. f_equal. lia.
        -- cbn [andb]. apply (IH mgr' n); [congruence|lia|exact Hrun].
    + apply (IH (clear mgr) n); assumption.
    + apply (IH (setMaxMessages limit mgr) n); [|assumption|assumption].
      unfold setMaxMessages. destruct limit; try exact Hn.
      destruct (Qlt_le_dec 0 q); [|exact Hn].
      unfold _enforceMessageLimit. destruct (Qlt_le_dec _ _); exact Hn.
Qed.

(** Whatever the length of a session, its counter is an integer that does
    not exceed 2^53. *)
Lemma run_counting (ops : list Op) :
  forall mgr, counting mgr -> counting (snd (run ops mgr)).
Proof.
  unfold counting, counterLimit.
  induction ops as [|op rest IH]; intros mgr Hc; [exact Hc|].
  destruct op as [c| |limit]; cbn [run].
  - assert (Hc' : exists k : Z,
               (0 <= k <= 2 ^ 53)%Z /\
               messageIdCounter (snd (call c mgr)) = inject_Z k).
    { rewrite call_counter. destruct (passesValidation c); [|exact Hc].
      destruct Hc as (k & Hk & ->).
      destruct (Z.eq_dec k (2 ^ 53)) as [->|Hne].
      - exists (2 ^ 53)%Z. split; [lia|apply binary64_top].
      - exists (k + 1)%Z. split; [lia|apply binary64_succ; lia]. }
    destruct (call c mgr) as [[msg|e] mgr']; cbn [snd] in Hc'.
    + specialize (IH mgr' Hc'). now destruct (run rest mgr').
    + now apply IH.
  - now apply IH.
  - apply IH. unfold setMaxMessages. destruct limit; try exact Hc.
    destruct (Qlt_le_dec 0 q); [|exact Hc].
    now rewrite enforce_counter.
Qed.

End ConversationFacts.

Module ModelExamples.
Import JS Auxiliary.

Example constructor_builds_fixture :
  KnowledgeBase.constructor
    (Obj [ ("a", Arr [Str "foo"]); ("b", Arr [Str "foo bar"]) ]) None =
  Ok Fixture.twoCategories.
Proof. reflexivity. Qed.

Example constructor_rejects_null :
  KnowledgeBase.constructor Null None =
  Throw "KnowledgeBase requires a valid data object".
Proof. reflexivity. Qed.

Example detectIntent_examples :
  QueryProcessor.detectIntent (Str "What technologies do you know?") = "skills" /\
  QueryProcessor.detectIntent (Str "asdkjfh qwoiuer") = "general" /\
  QueryProcessor.detectIntent (Str "award project") = "projects" /\
  QueryProcessor.detectIntent (Num 3) = "general".
Proof. repeat split; vm_compute; reflexivity. Qed.

Example normalizeKeywords_examples :
  KnowledgeBase._normalizeKeywords (Str " Foo,bar;; baz ") = ["foo"; "bar"; "baz"] /\
  KnowledgeBase._normalizeKeywords (Arr [Str " A b "; Num 1; Str ""]) = ["a b"] /\
  KnowledgeBase._normalizeKeywords Null = [].
Proof. repeat split. Qed.

Example eviction_example :
  forall mgr,
    Reference.addAll Fixture.threeCalls
      (ConversationManager.constructor (Some (inject_Z 2))) = Ok mgr ->
    map (fun m => get m "content") (ConversationManager.getHistory (snd mgr)) =
    [Str "two"; Str "three"].
Proof. intros mgr H. injection H as <-. reflexivity. Qed.

Example addMessage_rejects :
  ConversationManager.addMessage 1 1 Null (Str "user") Null
    (ConversationManager.constructor None) =
  (Throw "Message content is required", ConversationManager.constructor None) /\
  (exists e,
      ConversationManager.addMessage 1 1 (Str "hi") (Str "admin") Null
        (ConversationManager.constructor None) =
      (Throw e, ConversationManager.constructor None)).
Proof. split; [reflexivity|eexists; reflexivity]. Qed.

Example ToString_examples :
  ToString (Arr [Num 4; Null; Bool true; Arr [Str "a"; Undefined]]) =
  Some "4,,true,a," /\
  ToString (Obj [("a", Num 1)]) = Some "[object Object]" /\
  ToString (Obj [("toString", Num 1)]) = None /\
  ToString (Arr [Str "a"; Obj [("toString", Null)]]) = None.
Proof. repeat split. Qed.

Example binary64_examples :
  binary64 (1 # 10) = (3602879701896397 # 36028797018963968)%Q /\
  binary64 (inject_Z (2 ^ 53) + 1) = inject_Z (2 ^ 53) /\
  binary64 (inject_Z (2 ^ 53 + 2) + 1) = inject_Z (2 ^ 53 + 4) /\
  binary64 (inject_Z 3 - (1 # 100000000000000000000)) = inject_Z 3 /\
  binary64 (-(5 # 2)) = (-(5 # 2))%Q.
Proof. repeat split; vm_compute; reflexivity. Qed.

Example parse_examples :
  JSON.parse "[1, 2.50, -0.5e1, true, null, {}]" =
  Some (Arr [Num 1; Num (5 # 2); Num (-5 # 1); Bool true; Null; Obj []]) /\
  JSON.parse "[1,]" = None /\
  JSON.parse "01" = None /\
  JSON.parse "" = None.
Proof. repeat split. Qed.

End ModelExamples.

(** ** Properties of the specification *)

Module Claims.
Import JS Reference Auxiliary.

(** C1, as stated, fails on an item that is falsy: [_calculateRelevance]
    returns 0 for [false] before it looks at the text, although the text
    "false" of that item contains the keyword "false" as a whole word and
    the formula gives 1. *)
Lemma relevance_formula_fails_on_false :
  KnowledgeBase._calculateRelevance (Bool false) ["false"] = 0%Q /\
  (relevanceFormula (Bool false) ["false"] == 1)%Q /\
  ~ (KnowledgeBase._calculateRelevance (Bool false) ["false"] ==
     relevanceFormula (Bool false) ["false"])%Q.
Proof.
  split; [reflexivity|]. split; [reflexivity|].
  vm_compute. discriminate.
Qed.

(** C1 (amended): for every item that is truthy and every keyword list, the
    relevance computed by [_calculateRelevance] equals (sum of points) /
    (count of keywords of length >= 2), a keyword scoring 1 on a whole-word
    match in the flattened lowercase text, 1/2 on a substring match and 0
    otherwise; a falsy item scores 0; the result always lies in [0, 1] and is
    0 when no keyword has length >= 2; every result of [_searchInData],
    [search] and [query] has a relevance strictly above 0, and those of the
    two searches carry the score of their entry. *)
Theorem relevance_formula_on_truthy_items :
  forall (item : Value) (keywords : list string),
    (truthy item = true ->
     (KnowledgeBase._calculateRelevance item keywords ==
      relevanceFormula item keywords)%Q) /\
    (truthy item = false ->
     KnowledgeBase._calculateRelevance item keywords = 0%Q) /\
    (0 <= KnowledgeBase._calculateRelevance item keywords <= 1)%Q /\
    (countQualifying keywords = 0%nat ->
     (KnowledgeBase._calculateRelevance item keywords == 0)%Q) /\
    (forall (data : Value) (category : option string),
        Forall (fun r =>
                  KnowledgeBase.relevance r =
                  KnowledgeBase._calculateRelevance
                    (KnowledgeBase.result_data r) keywords /\
                  (0 < KnowledgeBase.relevance r)%Q)
          (KnowledgeBase._searchInData data keywords category)) /\
    (forall (kb : KnowledgeBase.t) (input options : Value),
        Forall (fun r =>
                  KnowledgeBase.relevance r =
                  KnowledgeBase._calculateRelevance
                    (KnowledgeBase.result_data r)
                    (KnowledgeBase._normalizeKeywords input) /\
                  (0 < KnowledgeBase.relevance r)%Q)
          (KnowledgeBase.search kb input options)) /\
    (forall (kb : KnowledgeBase.t) (category input : Value),
        Forall (fun r => (0 < KnowledgeBase.relevance r)%Q)
          (KnowledgeBase.query kb category input)).
Proof.
  intros item keywords. repeat split.
  - apply RelevanceFacts.calculateRelevance_formula.
  - apply RelevanceFacts.calculateRelevance_falsy.
  - apply RelevanceFacts.calculateRelevance_bounds.
  - apply RelevanceFacts.calculateRelevance_bounds.
  - intros Hc. destruct (truthy item) eqn:Ht.
    + rewrite (RelevanceFacts.calculateRelevance_formula _ _ Ht).
      unfold relevanceFormula. now rewrite Hc.
    + now rewrite (RelevanceFacts.calculateRelevance_falsy _ _ Ht).
  - intros data category. apply SearchFacts.searchInData_scored.
  - intros kb input options. apply SearchFacts.search_scored.
  - intros kb category input. apply SearchFacts.query_positive.
Qed.

(** The formula on the item "Foobar baz" and the keywords baz, foo, x. *)
Lemma relevance_formula_on_truthy_items_witness :
  (KnowledgeBase._calculateRelevance (Str "Foobar baz") ["baz"; "foo"; "x"] ==
   relevanceFormula (Str "Foobar baz") ["baz"; "foo"; "x"])%Q /\
  (relevanceFormula (Str "Foobar baz") ["baz"; "foo"; "x"] == 3 # 4)%Q.
Proof.
  split.
  - apply (proj1 (relevance_formula_on_truthy_items
                    (Str "Foobar baz") ["baz"; "foo"; "x"])).
    reflexivity.
  - reflexivity.
Defined.

(** C2: for every query string, [detectIntent] looks at the aggregate score
    of each category (per high pattern 5 for a substring match, else 4 for a
    whole-word match; per medium pattern 2 for a whole-word match, else 1
    for a substring match).  Either every score is below 2 and the result is
    "general", or the result is the category with the highest score, which
    is at least 2: every category before it in iteration order scores
    strictly less and every category after it scores at most as much. *)
Theorem detectIntent_highest_score :
  forall q : string,
    let scores :=
      map (fun entry =>
             (fst entry, aggregateScore (trim (toLowerCase q)) (snd entry)))
          QueryProcessor.intentPatterns in
    (Forall (fun e => (snd e < 2)%Z) scores /\
     QueryProcessor.detectIntent (Str q) = "general") \/
    (exists pre intent m post,
        scores = (pre ++ (intent, m) :: post)%list /\
        (2 <= m)%Z /\
        Forall (fun e => (snd e < m)%Z) pre /\
        Forall (fun e => (snd e <= m)%Z) post /\
        QueryProcessor.detectIntent (Str q) = intent).
Proof.
  intros q. destruct (string_dec q "") as [->|Hq].
  - apply IntentFacts.detectIntent_empty.
  - apply (IntentFacts.detectIntentIn_outcome _ _ Hq).
Qed.

(** C3: for every sequence of successful [addMessage] calls on a new
    manager whose limit [maxMessages] is a positive integer (100 when none is
    given), [getHistory()] afterwards has at most [maxMessages] messages, and
    they are the most recently added ones in insertion order, the oldest
    having been evicted first. *)
Theorem history_keeps_most_recent :
  forall (limit : option positive) (calls : list Call)
         (created : list Value) (final : ConversationManager.t),
    let cap := match limit with Some p => Pos.to_nat p | None => 100%nat end in
    addAll calls
      (ConversationManager.constructor
         (option_map (fun p => inject_Z (Zpos p)) limit)) =
    Ok (created, final) ->
    (List.length (ConversationManager.getHistory final) <= cap)%nat /\
    ConversationManager.getHistory final = lastn cap created.
Proof.
  intros limit calls created final cap Hrun.
  assert (Hh : ConversationManager.messages final = lastn cap created).
  { apply (ConversationFacts.addAll_history calls
             (ConversationManager.constructor
                (option_map (fun p => inject_Z (Zpos p)) limit))
             cap [] created final);
      [|unfold lastn; now rewrite skipn_nil|exact Hrun].
    unfold cap. destruct limit as [p|]; [|reflexivity].
    cbn. now rewrite positive_nat_Z. }
  unfold ConversationManager.getHistory. rewrite Hh. split; [|reflexivity].
  rewrite ConversationFacts.lastn_length. lia.
Qed.

(** Three calls on a manager limited to two messages. *)
Lemma history_keeps_most_recent_witness :
  exists m1 m2 m3 final,
    addAll Fixture.threeCalls
      (ConversationManager.constructor (Some (inject_Z 2))) =
    Ok ([m1; m2; m3], final) /\
    (List.length (ConversationManager.getHistory final) <= 2)%nat /\
    ConversationManager.getHistory final = [m2; m3].
Proof.
  do 4 eexists. split; [reflexivity|].
  exact (history_keeps_most_recent (Some 2%positive) Fixture.threeCalls
           _ _ eq_refl).
Defined.

(** C4: for every keyword input and every options value, the list
    [search] returns is sorted by relevance in descending order: the
    relevance at a later position is at most the relevance at an earlier
    one. *)
Theorem search_sorted_descending :
  forall (kb : KnowledgeBase.t) (keywords options : Value)
         (i j : nat) (a b : KnowledgeBase.SearchResult),
    (i < j)%nat ->
    nth_error (KnowledgeBase.search kb keywords options) i = Some a ->
    nth_error (KnowledgeBase.search kb keywords options) j = Some b ->
    (KnowledgeBase.relevance b <= KnowledgeBase.relevance a)%Q.
Proof.
  intros kb keywords options i j a b Hij Ha Hb.
  exact (SearchFacts.StronglySorted_nth _ _
           (SearchFacts.search_sorted kb keywords options) i j a b Hij Ha Hb).
Qed.

(** The two results of a search for "foo". *)
Lemma search_sorted_descending_witness :
  exists a b,
    nth_error (KnowledgeBase.search Fixture.mixedMatches (Str "foo") Undefined) 0
    = Some a /\
    nth_error (KnowledgeBase.search Fixture.mixedMatches (Str "foo") Undefined) 1
    = Some b /\
    (KnowledgeBase.relevance b <= KnowledgeBase.relevance a)%Q.
Proof.
  do 2 eexists. split; [reflexivity|]. split; [reflexivity|].
  apply (search_sorted_descending Fixture.mixedMatches (Str "foo") Undefined
           0 1); [lia|reflexivity|reflexivity].
Defined.

(** C5, as stated, fails: with two categories that both hold a whole-word
    match, [search] with early termination returns the first category's hit
    alone, and the hit of the second category, which the full scan returns,
    is missing. *)
Lemma early_termination_drops_results :
  exists r,
    In r (KnowledgeBase.search Fixture.twoCategories (Str "foo")
            (Obj [("earlyTermination", Bool false)])) /\
    ~ In r (KnowledgeBase.search Fixture.twoCategories (Str "foo") Undefined).
Proof.
  exists {| KnowledgeBase.result_data := Str "foo bar";
            KnowledgeBase.relevance := 1%Q;
            KnowledgeBase.category := Some "b";
            KnowledgeBase.field := None |}.
  split.
  - right. left. reflexivity.
  - intros [H|[]]. discriminate H.
Qed.

(** C5 (amended): for every knowledge base and keyword input, [search] with
    early termination off returns the descending stable sort of the hits of
    all categories; [search] with early termination on returns the
    descending stable sort of those same hits cut after the first hit whose
    relevance reaches the high-confidence threshold.  So every result of the
    early-terminating search is a result of the full one, and the two
    searches return the same list when no hit reaches the threshold. *)
Theorem early_termination_sorts_a_prefix :
  forall (kb : KnowledgeBase.t) (keywords : Value),
    let hits := scanAll kb (KnowledgeBase._normalizeKeywords keywords) in
    let confident r :=
      KnowledgeBase.highConfidence kb (KnowledgeBase.relevance r) in
    let full :=
      KnowledgeBase.search kb keywords (Obj [("earlyTermination", Bool false)]) in
    let early := KnowledgeBase.search kb keywords Undefined in
    full = sort KnowledgeBase.byRelevanceDescending hits /\
    early = sort KnowledgeBase.byRelevanceDescending (cutAfter confident hits) /\
    incl early full /\
    (existsb confident hits = false -> early = full).
Proof.
  intros kb keywords hits confident full early.
  assert (Hfull : full = sort KnowledgeBase.byRelevanceDescending hits)
    by apply SearchFacts.search_full.
  assert (Hearly : early = sort KnowledgeBase.byRelevanceDescending
                             (cutAfter confident hits))
    by apply SearchFacts.search_early.
  repeat split; try assumption.
  - rewrite Hearly, Hfull. intros r Hr.
    apply (Permutation_in _
             (Permutation_sym (JSFacts.sort_perm KnowledgeBase.relevance hits))).
    apply (SearchFacts.cutAfter_incl confident).
    apply (Permutation_in _
             (JSFacts.sort_perm KnowledgeBase.relevance _) Hr).
  - intros Hnone. rewrite Hearly, Hfull.
    now rewrite (SearchFacts.cutAfter_none _ _ Hnone).
Qed.

(** A search none of whose hits reaches the threshold. *)
Lemma early_termination_sorts_a_prefix_witness :
  KnowledgeBase.search Fixture.mixedMatches (Str "foo zip") Undefined =
  KnowledgeBase.search Fixture.mixedMatches (Str "foo zip")
    (Obj [("earlyTermination", Bool false)]) /\
  List.length
    (KnowledgeBase.search Fixture.mixedMatches (Str "foo zip") Undefined)
  = 2%nat.
Proof.
  split; [|reflexivity].
  apply (proj2 (proj2 (proj2
           (early_termination_sorts_a_prefix Fixture.mixedMatches
              (Str "foo zip"))))).
  reflexivity.
Defined.

(** C6, as stated, fails: the item "foobar baz" scores 1 for the keyword
    "baz"; adding the keyword "foo", which matches the item as a substring,
    lowers the score to 3/4. *)
Lemma substring_keyword_lowers_relevance :
  includes (textOf (Str "foobar baz")) "foo" = true /\
  (KnowledgeBase._calculateRelevance (Str "foobar baz") ["baz"] == 1)%Q /\
  (KnowledgeBase._calculateRelevance (Str "foobar baz") ["baz"; "foo"] == 3 # 4)%Q /\
  ~ (KnowledgeBase._calculateRelevance (Str "foobar baz") ["baz"] <=
     KnowledgeBase._calculateRelevance (Str "foobar baz") ["baz"; "foo"])%Q.
Proof.
  split; [reflexivity|]. split; [reflexivity|]. split; [reflexivity|].
  vm_compute. intros H. apply H. reflexivity.
Qed.

(** C6 (amended): for every item and every keyword list, inserting a keyword
    that matches the item as a whole word never decreases the relevance;
    inserting a keyword that matches only as a substring never decreases it
    when the relevance before is at most 1/2. *)
Theorem matching_keyword_monotone :
  forall (item : Value) (keyword : string) (before after : list string),
    (KnowledgeBase.wordBoundaryTest keyword (textOf item) = true ->
     (KnowledgeBase._calculateRelevance item (before ++ after) <=
      KnowledgeBase._calculateRelevance item (before ++ keyword :: after))%Q) /\
    (KnowledgeBase.wordBoundaryTest keyword (textOf item) = false ->
     includes (textOf item) keyword = true ->
     (KnowledgeBase._calculateRelevance item (before ++ after) <= 1 # 2)%Q ->
     (KnowledgeBase._calculateRelevance item (before ++ after) <=
      KnowledgeBase._calculateRelevance item (before ++ keyword :: after))%Q).
Proof.
  intros item keyword before after. split.
  - apply MonotonicityFacts.relevance_add_whole_word.
  - apply MonotonicityFacts.relevance_add_substring.
Qed.

(** One keyword of each kind added to a list. *)
Lemma matching_keyword_monotone_witness :
  (KnowledgeBase._calculateRelevance (Str "foobar baz") ["foo"; "zip"] <=
   KnowledgeBase._calculateRelevance (Str "foobar baz") ["foo"; "baz"; "zip"])%Q /\
  (KnowledgeBase._calculateRelevance (Str "foobar baz") ["zip"] <=
   KnowledgeBase._calculateRelevance (Str "foobar baz") ["zip"; "foo"])%Q.
Proof.
  split.
  - apply (proj1 (matching_keyword_monotone
                    (Str "foobar baz") "baz" ["foo"] ["zip"])).
    reflexivity.
  - apply (proj2 (matching_keyword_monotone
                    (Str "foobar baz") "foo" ["zip"] [])).
    + reflexivity.
    + reflexivity.
    + vm_compute. discriminate.
Defined.

(** C7 as stated fails on sessions that call [restore], on counters that
    have reached 2^53, and on calls that are rejected.  A stored
    conversation whose counter is 0, restored between two calls made in the
    same millisecond, gives both messages of the history the id msg_1700_1.
    On a manager whose counter is 2^53, as restoring a conversation stored
    with that counter leaves it, two successful calls in the same
    millisecond return the same id and the counter does not move.  And a
    call of [addMessage] with a sender that is rejected leaves the counter
    where it was. *)
Lemma message_ids_repeat :
  (let first := snd (call (Fixture.say 1700 "one")
                       (ConversationManager.constructor None)) in
   let restored := ConversationManager.restore Fixture.storedCounterZero first in
   let second := snd (call (Fixture.say 1700 "two") (snd restored)) in
   fst restored = true /\
   map (fun msg => get msg "id") (ConversationManager.getHistory second) =
   [Str "msg_1700_1"; Str "msg_1700_1"]) /\
  (let restored :=
     ConversationManager.restore Fixture.storedCounterAtLimit
       (ConversationManager.constructor None) in
   let first := call (Fixture.say 1700 "one") (snd restored) in
   let second := call (Fixture.say 1700 "two") (snd first) in
   fst restored = true /\
   ConversationManager.messageIdCounter (snd restored) = inject_Z (2 ^ 53) /\
   (exists one two,
       fst first = Ok one /\ fst second = Ok two /\
       get one "id" = get two "id") /\
   ConversationManager.messageIdCounter (snd second) = inject_Z (2 ^ 53)) /\
  (let rejected :=
     ConversationManager.addMessage 1700 1700 (Str "hi") (Str "admin") Null
       (ConversationManager.constructor None) in
   (exists e, fst rejected = Throw e) /\
   ConversationManager.messageIdCounter (snd rejected) = 0%Q).
Proof.
  split; [|split].
  - cbv zeta. split; vm_compute; reflexivity.
  - cbv zeta. split; [vm_compute; reflexivity|].
    split; [vm_compute; reflexivity|]. split.
    + do 2 eexists. split; [vm_compute; reflexivity|].
      split; [vm_compute; reflexivity|]. vm_compute. reflexivity.
    + vm_compute. reflexivity.
  - cbv zeta. split; [eexists; reflexivity|reflexivity].
Qed.

(** C7 (amended): across any session of [addMessage], [clear] and
    [setMaxMessages] calls on a new manager that generates at most 2^53 ids,
    whatever the clock reads, no two messages created receive the same id.
    A message is created by every call that passes the validation of
    content and sender and whose content converts to a string; the id
    counter ends at the number of calls that passed the validation: below
    2^53 each of them adds exactly one to it, a call that fails the
    validation leaves it as it is, and so does [clear]. *)
Theorem message_ids_unique :
  forall (limit : option Q) (ops : list Op),
    (Z.of_nat (List.length (generating ops)) <= counterLimit)%Z ->
    let outcome := run ops (ConversationManager.constructor limit) in
    NoDup (map (fun msg => get msg "id") (fst outcome)) /\
    List.length (fst outcome) = List.length (creating ops) /\
    ConversationManager.messageIdCounter (snd outcome) =
    inject_Z (Z.of_nat (List.length (generating ops))) /\
    (forall c mgr k,
        (0 <= k < counterLimit)%Z ->
        ConversationManager.messageIdCounter mgr = inject_Z k ->
        ConversationManager.messageIdCounter (snd (call c mgr)) =
        if passesValidation c then inject_Z (k + 1) else inject_Z k) /\
    (forall mgr,
        ConversationManager.messageIdCounter (ConversationManager.clear mgr) =
        ConversationManager.messageIdCounter mgr).
Proof.
  intros limit ops Hbound outcome.
  destruct outcome as [created final] eqn:E.
  destruct (ConversationFacts.run_ids ops
              (ConversationManager.constructor limit) 0 created final
              eq_refl Hbound E)
    as (Hnd & _ & Hc & Hl).
  split; [exact Hnd|]. split; [exact Hl|]. split; [exact Hc|]. split.
  - intros c mgr k Hk Hm. rewrite ConversationFacts.call_counter, Hm.
    destruct (passesValidation c); [|reflexivity].
    apply ConversationFacts.binary64_succ. exact Hk.
  - reflexivity.
Qed.

(** A session of two messages in the same millisecond, with a rejected
    call, a [clear] and a call whose content has no string conversion in
    between: three ids are generated, two messages created. *)
Lemma message_ids_unique_witness :
  map (fun msg => get msg "id")
      (fst (run Fixture.mixedSession (ConversationManager.constructor None))) =
  [Str "msg_1700_1"; Str "msg_1700_3"] /\
  NoDup (map (fun msg => get msg "id")
             (fst (run Fixture.mixedSession
                     (ConversationManager.constructor None)))) /\
  ConversationManager.messageIdCounter
    (snd (run Fixture.mixedSession (ConversationManager.constructor None))) =
  3%Q.
Proof.
  split; [reflexivity|].
  destruct (message_ids_unique None Fixture.mixedSession)
    as (Hnd & _ & Hcounter & _).
  - vm_compute. discriminate.
  - split; [exact Hnd|exact Hcounter].
Defined.

(** C8: for every history of messages (id, content, sender, integer
    timestamp) and every integer id counter, [restore(serialize())]
    succeeds on any manager and leaves it with that history, field for
    field and in order, and with that counter. *)
Theorem restore_serialize_round_trip :
  forall (history : list Message) (counter : Z) (limit : Q)
         (target : ConversationManager.t),
    ConversationManager.restore
      (ConversationManager.serialize
         {| ConversationManager.messages := map messageObject history;
            ConversationManager.messageIdCounter := inject_Z counter;
            ConversationManager.maxMessages := limit |})
      target =
    (true,
     {| ConversationManager.messages := map messageObject history;
        ConversationManager.messageIdCounter := inject_Z counter;
        ConversationManager.maxMessages :=
          ConversationManager.maxMessages target |}).
Proof.
  intros history counter limit target.
  unfold ConversationManager.serialize.
  cbn [ConversationManager.messages ConversationManager.messageIdCounter].
  change (Obj [("messages", Arr (map messageObject history));
               ("messageIdCounter", Num (inject_Z counter))])
    with (stateValue history counter).
  rewrite RoundTripFacts.stringify_state.
  unfold ConversationManager.restore.
  rewrite RoundTripFacts.parse_stateText. reflexivity.
Qed.

(** C9, as stated, fails twice.  The text "null" parses, yet [restore]
    returns false; the text of an empty object parses and [restore] returns
    true, yet the manager keeps its message and its counter. *)
Lemma restore_false_without_parse_error :
  (JSON.parse "null" = Some Null /\
   fst (ConversationManager.restore "null" Fixture.afterHello) = false /\
   ~ (fst (ConversationManager.restore "null" Fixture.afterHello) = false <->
      JSON.parse "null" = None)) /\
  (JSON.parse "{}" = Some (Obj []) /\
   ConversationManager.restore "{}" Fixture.afterHello =
   (true, Fixture.afterHello) /\
   List.length (ConversationManager.messages Fixture.afterHello) = 1%nat /\
   ConversationManager.messageIdCounter Fixture.afterHello = 1%Q).
Proof.
  split.
  - split; [reflexivity|]. split; [reflexivity|].
    intros [H _]. specialize (H eq_refl). discriminate H.
  - repeat split.
Qed.

(** C9 (amended): for every input string, [restore] returns false exactly
    when the input fails to parse or parses to null, and then the state is
    unchanged.  Otherwise it returns true; the messages are replaced when the
    parsed value has an array [messages] and only then, the id counter when
    it has a number [messageIdCounter] and only then, so a value with both
    replaces the two wholesale; the limit is never changed. *)
Theorem restore_outcomes :
  forall (data : string) (mgr : ConversationManager.t),
    let result := ConversationManager.restore data mgr in
    (fst result = false <->
     JSON.parse data = None \/ JSON.parse data = Some Null) /\
    (fst result = false -> snd result = mgr) /\
    ConversationManager.maxMessages (snd result) =
    ConversationManager.maxMessages mgr /\
    (forall parsed,
        JSON.parse data = Some parsed -> parsed <> Null ->
        fst result = true /\
        ConversationManager.messages (snd result) =
        match get parsed "messages" with
        | Arr items => items
        | _ => ConversationManager.messages mgr
        end /\
        ConversationManager.messageIdCounter (snd result) =
        match get parsed "messageIdCounter" with
        | Num q => q
        | _ => ConversationManager.messageIdCounter mgr
        end).
Proof.
  intros data mgr result. subst result. unfold ConversationManager.restore.
  destruct (JSON.parse data) as [parsed|].
  - destruct parsed;
      (split; [split; [try discriminate; auto
                      |intros [H|H]; try discriminate H; reflexivity]|]);
      (split; [try discriminate; reflexivity|]);
      (split; [cbn [fst snd]; try reflexivity;
               repeat match goal with
                 | |- context [match get ?v ?k with _ => _ end] =>
                     destruct (get v k)
                 end; reflexivity|]);
      intros p Hp Hn; injection Hp as <-; try congruence;
      (split; [reflexivity|]);
      cbn [fst snd];
      split;
      repeat match goal with
        | |- context [match get ?v ?k with _ => _ end] => destruct (get v k)
        end; reflexivity.
  - repeat split; auto; intros; discriminate.
Qed.

(** An array parses and replaces nothing; a lone brace does not parse. *)
Lemma restore_outcomes_witness :
  ConversationManager.restore "[1]" (ConversationManager.constructor None) =
  (true, ConversationManager.constructor None) /\
  fst (ConversationManager.restore "{" (ConversationManager.constructor None))
  = false.
Proof.
  split; [reflexivity|].
  apply (proj1 (restore_outcomes "{" (ConversationManager.constructor None))).
  left. reflexivity.
Defined.




End Claims.

(** ** Facts about the accessors of the conversation *)

Module HistoryFacts.
Import JS ConversationManager Reference Auxiliary ConversationFacts.

(** The integer between whose image and successor a number lies is its
    floor. *)
Lemma Qfloor_unique (q : Q) (n : Z) :
  (inject_Z n <= q)%Q -> (q < inject_Z (n + 1))%Q -> Qfloor q = n.
Proof.
  intros Hle Hlt.
  pose proof (Qfloor_le q) as H1. pose proof (Qlt_floor q) as H2.
  assert (Ha : (inject_Z n < inject_Z (Qfloor q + 1))%Q)
    by (eapply Qle_lt_trans; eassumption).
  assert (Hb : (inject_Z (Qfloor q) < inject_Z (n + 1))%Q)
    by (eapply Qle_lt_trans; eassumption).
  rewrite <- Zlt_Qlt in Ha, Hb. lia.
Qed.

Lemma Qfloor_sub (a : Z) (q : Q) :
  Qfloor (inject_Z a - q) = (a - Qceiling q)%Z.
Proof.
  apply Qfloor_unique.
  - pose proof (Qle_ceiling q) as H.
    unfold Zminus. rewrite inject_Z_plus, inject_Z_opp. lra.
  - pose proof (Qceiling_lt q) as H.
    replace (Qceiling q - 1)%Z with (Qceiling q + - 1)%Z in H by lia.
    replace (a - Qceiling q + 1)%Z with (a + - Qceiling q + 1)%Z by lia.
    rewrite inject_Z_plus in H. rewrite !inject_Z_plus, inject_Z_opp.
    change (inject_Z 1) with 1%Q. change (inject_Z (-1)) with (-1)%Q in H. lra.
Qed.

Lemma Qceiling_nonneg (q : Q) : (0 <= q)%Q -> (0 <= Qceiling q)%Z.
Proof.
  intros H. change 0%Z with (Qceiling 0). now apply Qceiling_resp_le.
Qed.

Lemma Qceiling_pos (q : Q) : (0 < q)%Q -> (0 < Qceiling q)%Z.
Proof.
  intros H. pose proof (Qle_ceiling q) as Hc.
  assert (Hlt : (inject_Z 0 < inject_Z (Qceiling q))%Q)
    by (eapply Qlt_le_trans; eassumption).
  now rewrite <- Zlt_Qlt in Hlt.
Qed.

Lemma lastn_lastn {A : Type} (n m : nat) (l : list A) :
  lastn n (lastn m l) = lastn (Nat.min n m) l.
Proof.
  unfold lastn. rewrite length_skipn, skipn_skipn. f_equal. lia.
Qed.

Lemma nth_last_snoc {A : Type} (l : list A) (x d : A) :
  nth (List.length (l ++ [x]) - 1) (l ++ [x])%list d = x.
Proof.
  rewrite length_app. cbn [List.length].
  replace (List.length l + 1 - 1)%nat with (List.length l) by lia.
  rewrite app_nth2 by lia. now rewrite Nat.sub_diag.
Qed.

(** The exact start index of [getContext] with a count that is not
    negative. *)
Lemma recent_count (q : Q) (mgr : t) :
  (0 <= q)%Q ->
  recent q mgr = lastn (Z.to_nat (Qceiling q)) (messages mgr).
Proof.
  intros Hq. unfold recent, lastn.
  pose proof (Qceiling_nonneg q Hq) as Hc.
  destruct (Qlt_le_dec 0 _) as [Hpos|Hle].
  - rewrite Qfloor_sub. f_equal. lia.
  - pose proof (Qle_ceiling q) as Hcq.
    assert (Hlen : (inject_Z (Z.of_nat (List.length (messages mgr))) <=
                    inject_Z (Qceiling q))%Q) by lra.
    rewrite <- Zle_Qle in Hlen.
    change (Qfloor 0) with 0%Z. cbn [Z.to_nat].
    f_equal. lia.
Qed.

Lemma getContext_count (q : Q) (mgr : t) :
  (0 <= q)%Q ->
  getContext (Num q) mgr = lastn (Z.to_nat (Qceiling q)) (messages mgr).
Proof.
  intros Hq. cbn [getContext].
  destruct (Qlt_le_dec q 0) as [Hneg|_]; [lra|]. now apply recent_count.
Qed.

(** [getContext] with an argument it replaces by 5. *)
Lemma getContext_default (a : Argument) (mgr : t) :
  defaulted a = true ->
  getContext a mgr = lastn 5 (messages mgr).
Proof.
  assert (H5 : recent 5 mgr = lastn 5 (messages mgr))
    by (apply (recent_count 5); unfold Qle; simpl; lia).
  intros Ha. destruct a as [v| |negative].
  - destruct v; try exact H5. cbn [getContext defaulted] in *.
    destruct (Qlt_le_dec q 0) as [_|Hle]; [exact H5|].
    apply Qle_bool_iff in Hle. rewrite Hle in Ha. discriminate.
  - discriminate.
  - cbn [defaulted] in Ha. subst negative. exact H5.
Qed.

(** What [_enforceMessageLimit] leaves when the limit is positive: a suffix
    that is not empty unless the history is. *)
Lemma enforce_suffix (mgr : t) :
  (0 < maxMessages mgr)%Q ->
  exists k,
    (k < List.length (messages mgr) \/ k = 0)%nat /\
    _enforceMessageLimit mgr =
    {| messages := skipn k (messages mgr);
       messageIdCounter := messageIdCounter mgr;
       maxMessages := maxMessages mgr |}.
Proof.
  intros Hmax. unfold _enforceMessageLimit.
  destruct (Qlt_le_dec _ _) as [Hlt|Hle].
  - eexists. split; [|reflexivity].
    left. rewrite Qfloor_sub.
    pose proof (Qceiling_pos _ Hmax).
    assert (Hlen : (inject_Z 0 <
                    inject_Z (Z.of_nat (List.length (messages mgr))))%Q)
      by (change (inject_Z 0) with 0%Q; lra).
    rewrite <- Zlt_Qlt in Hlen. lia.
  - exists 0%nat. split; [now right|]. now destruct mgr.
Qed.

(** The number of messages [_enforceMessageLimit] leaves. *)
Lemma enforce_bound (mgr : t) :
  (List.length (messages (_enforceMessageLimit mgr)) <=
   Z.to_nat (Qceiling (maxMessages mgr)))%nat.
Proof.
  unfold _enforceMessageLimit.
  destruct (Qlt_le_dec _ _) as [Hlt|Hle]; cbn [messages].
  - rewrite length_skipn, Qfloor_sub. lia.
  - pose proof (Qle_ceiling (maxMessages mgr)) as Hc.
    assert (H : (inject_Z (Z.of_nat (List.length (messages mgr))) <=
                 inject_Z (Qceiling (maxMessages mgr)))%Q) by lra.
    rewrite <- Zle_Qle in H. lia.
Qed.

Lemma enforce_maxMessages (mgr : t) :
  maxMessages (_enforceMessageLimit mgr) = maxMessages mgr.
Proof. unfold _enforceMessageLimit. now destruct (Qlt_le_dec _ _). Qed.

Lemma enforce_bounded (mgr : t) : bounded (_enforceMessageLimit mgr).
Proof.
  unfold bounded. rewrite enforce_maxMessages. apply enforce_bound.
Qed.

Lemma call_bounded (c : Call) (mgr : t) :
  bounded mgr -> bounded (snd (call c mgr)).
Proof.
  intros Hb. destruct (call c mgr) as [[msg|e] mgr'] eqn:Ec; cbn [snd].
  - apply call_ok in Ec as (content & _ & _ & _ & ->). apply enforce_bounded.
  - apply call_throw in Ec as (Hm & Hl & _). unfold bounded in *.
    now rewrite Hm, Hl.
Qed.

Lemma setMaxMessages_bounded (limit : Value) (mgr : t) :
  bounded mgr -> bounded (setMaxMessages limit mgr).
Proof.
  intros H. unfold setMaxMessages.
  destruct limit; try exact H.
  destruct (Qlt_le_dec 0 q); [apply enforce_bounded|exact H].
Qed.

Lemma run_bounded (ops : list Op) :
  forall mgr, bounded mgr -> bounded (snd (run ops mgr)).
Proof.
  induction ops as [|op rest IH]; intros mgr Hb; [exact Hb|].
  destruct op as [c| |limit]; cbn [run].
  - pose proof (call_bounded c mgr Hb) as Hb'.
    destruct (call c mgr) as [[msg|e] mgr']; cbn [snd] in Hb'.
    + specialize (IH mgr' Hb'). destruct (run rest mgr'). exact IH.
    + now apply IH.
  - apply IH. unfold bounded, clear. cbn [messages List.length]. lia.
  - apply IH. now apply setMaxMessages_bounded.
Qed.

(** A successful call was made with one of the two senders. *)
Lemma call_sender (c : Call) (mgr : t) (msg : Value) (mgr' : t) :
  call c mgr = (Ok msg, mgr') -> knownSender msg = true.
Proof.
  intros H. apply call_ok in H as (content & _ & Hv & -> & _).
  apply passesValidation_spec in Hv as (_ & _ & Hs).
  apply orb_false_iff in Hs as [_ Hs]. apply negb_false_iff in Hs.
  unfold built, knownSender. cbn [get lookup String.eqb Ascii.eqb Bool.eqb].
  change ("id" =? "sender") with false.
  change ("content" =? "sender") with false.
  change ("sender" =? "sender") with true. cbv iota.
  destruct (sender c); try discriminate Hs. exact Hs.
Qed.

Lemma Forall_skipn {A : Type} (P : A -> Prop) (k : nat) (l : list A) :
  Forall P l -> Forall P (skipn k l).
Proof.
  revert l. induction k as [|k IH]; intros l H; [exact H|].
  destruct l as [|x r]; [constructor|]. apply IH. now inversion H.
Qed.

Lemma enforce_allKnown (mgr : t) : allKnown mgr -> allKnown (_enforceMessageLimit mgr).
Proof.
  unfold allKnown, _enforceMessageLimit. intros H.
  destruct (Qlt_le_dec _ _); [|exact H]. now apply Forall_skipn.
Qed.

Lemma run_allKnown (ops : list Op) :
  forall mgr, allKnown mgr -> allKnown (snd (run ops mgr)).
Proof.
  induction ops as [|op rest IH]; intros mgr Hk; [exact Hk|].
  destruct op as [c| |limit]; cbn [run].
  - destruct (call c mgr) as [[msg|e] mgr'] eqn:Ec.
    + assert (Hk' : allKnown mgr').
      { pose proof (call_sender _ _ _ _ Ec) as Hs.
        apply call_ok in Ec as (content & _ & _ & _ & ->).
        apply enforce_allKnown.
        unfold allKnown. cbn [messages]. apply Forall_app. split; [exact Hk|].
        now constructor. }
      specialize (IH mgr' Hk'). destruct (run rest mgr'). exact IH.
    + apply IH. apply call_throw in Ec as (Hm & _).
      unfold allKnown in *. now rewrite Hm.
  - apply IH. constructor.
  - apply IH. unfold setMaxMessages.
    destruct limit; try exact Hk.
    destruct (Qlt_le_dec 0 q); [|exact Hk]. now apply enforce_allKnown.
Qed.

(** On messages of known senders the two filters split the history. *)
Lemma filterBySender_split (msgs : list Value) :
  Forall (fun msg => knownSender msg = true) msgs ->
  exists users bots,
    filterBySender "user" msgs = Some users /\
    filterBySender "bot" msgs = Some bots /\
    Permutation (users ++ bots) msgs /\
    Forall (fun msg => get msg "sender" = Str "user") users /\
    Forall (fun msg => get msg "sender" = Str "bot") bots.
Proof.
  induction 1 as [|msg rest Hm _ IH].
  - exists [], []. repeat split; constructor.
  - destruct IH as (users & bots & Hu & Hb & Hp & Hfu & Hfb).
    cbn [filterBySender]. rewrite Hu, Hb.
    unfold knownSender in Hm. unfold sentBy.
    destruct msg as [| | | | | |props]; try discriminate Hm.
    destruct (get (Obj props) "sender") as [| | | |s| |] eqn:Es;
      try discriminate Hm.
    apply orb_true_iff in Hm as [Hs|Hs]; apply String.eqb_eq in Hs; subst s.
    + exists (Obj props :: users), bots. cbn.
      repeat split; auto. 
    + exists users, (Obj props :: bots). cbn.
      repeat split; auto.
      apply Permutation_sym, Permutation_cons_app, Permutation_sym, Hp.
Qed.

End HistoryFacts.

(** ** Facts about trimming, case and word matching *)

Module NormalFacts.
Import JS Auxiliary.

Lemma forallAscii_spec (p : ascii -> bool) :
  forallAscii p = true -> forall c, p c = true.
Proof.
  intros H c. unfold forallAscii in H.
  rewrite forallb_forall in H.
  rewrite <- (ascii_nat_embedding c). apply H.
  apply in_seq. pose proof (nat_ascii_bounded c). lia.
Qed.

Lemma toLowerChar_idem (c : ascii) : toLowerChar (toLowerChar c) = toLowerChar c.
Proof.
  apply Ascii.eqb_eq.
  apply (forallAscii_spec
           (fun c => (toLowerChar (toLowerChar c) =? toLowerChar c)%char)).
  vm_compute. reflexivity.
Qed.

Lemma isWhiteSpace_lower (c : ascii) :
  isWhiteSpace (toLowerChar c) = isWhiteSpace c.
Proof.
  apply Bool.eqb_prop.
  apply (forallAscii_spec
           (fun c => Bool.eqb (isWhiteSpace (toLowerChar c)) (isWhiteSpace c))).
  vm_compute. reflexivity.
Qed.

Lemma isUpper_lower (c : ascii) : isUpper (toLowerChar c) = false.
Proof.
  apply negb_true_iff.
  apply (forallAscii_spec (fun c => negb (isUpper (toLowerChar c)))).
  vm_compute. reflexivity.
Qed.

Lemma toLowerChar_fixed (c : ascii) : isUpper c = false -> toLowerChar c = c.
Proof. intros H. unfold toLowerChar. now rewrite H. Qed.

Lemma toLowerCase_idem (s : string) :
  toLowerCase (toLowerCase s) = toLowerCase s.
Proof.
  induction s as [|c r IH]; [reflexivity|].
  unfold toLowerCase in *. cbn [mapString]. now rewrite toLowerChar_idem, IH.
Qed.

Lemma noUpper_lower (s : string) : noUpper (toLowerCase s) = true.
Proof.
  induction s as [|c r IH]; [reflexivity|].
  unfold noUpper, toLowerCase in *. cbn [mapString allChars].
  now rewrite isUpper_lower, IH.
Qed.

Lemma toLowerCase_fixed (s : string) : noUpper s = true -> toLowerCase s = s.
Proof.
  unfold noUpper, toLowerCase. induction s as [|c r IH]; [reflexivity|].
  cbn [allChars mapString]. intros H.
  apply andb_true_iff in H as [Hc Hr]. apply negb_true_iff in Hc.
  rewrite toLowerChar_fixed by exact Hc. f_equal. now apply IH.
Qed.

Lemma trimStart_lower (s : string) :
  toLowerCase (trimStart s) = trimStart (toLowerCase s).
Proof.
  induction s as [|c r IH]; [reflexivity|].
  unfold toLowerCase in *. cbn [mapString trimStart].
  rewrite isWhiteSpace_lower. now destruct (isWhiteSpace c).
Qed.

Lemma trimEnd_lower (s : string) :
  toLowerCase (trimEnd s) = trimEnd (toLowerCase s).
Proof.
  induction s as [|c r IH]; [reflexivity|].
  unfold toLowerCase in *. cbn [mapString trimEnd].
  rewrite <- IH, isWhiteSpace_lower.
  destruct (trimEnd r); [now destruct (isWhiteSpace c)|reflexivity].
Qed.

Lemma trim_lower (s : string) : toLowerCase (trim s) = trim (toLowerCase s).
Proof. unfold trim. now rewrite trimEnd_lower, trimStart_lower. Qed.

(** A text that does not start with white space. *)
Lemma trimStart_clean (s : string) :
  match trimStart s with
  | String c _ => isWhiteSpace c = false
  | EmptyString => True
  end.
Proof.
  induction s as [|c r IH]; [exact I|].
  cbn [trimStart]. destruct (isWhiteSpace c) eqn:E; [exact IH|exact E].
Qed.

Lemma trimEnd_idem (s : string) : trimEnd (trimEnd s) = trimEnd s.
Proof.
  induction s as [|c r IH]; [reflexivity|].
  cbn [trimEnd]. destruct (trimEnd r) as [|c' r'] eqn:E.
  - destruct (isWhiteSpace c) eqn:Ec; [reflexivity|].
    cbn [trimEnd]. now rewrite Ec.
  - cbn [trimEnd] in *. now rewrite IH.
Qed.

Lemma trimStart_trimEnd (c : ascii) (r : string) :
  isWhiteSpace c = false ->
  trimStart (trimEnd (String c r)) = trimEnd (String c r).
Proof.
  intros Hc. cbn [trimEnd].
  destruct (trimEnd r); rewrite ?Hc; cbn [trimStart]; now rewrite Hc.
Qed.

Lemma trim_idem (s : string) : trim (trim s) = trim s.
Proof.
  unfold trim. pose proof (trimStart_clean s) as H.
  destruct (trimStart s) as [|c r]; [reflexivity|].
  rewrite trimStart_trimEnd by exact H. apply trimEnd_idem.
Qed.

(** The normal form [toLowerCase().trim()] is a fixed point. *)
Lemma normalize_idem (s : string) :
  trim (toLowerCase (trim (toLowerCase s))) = trim (toLowerCase s).
Proof. now rewrite trim_lower, toLowerCase_idem, trim_idem. Qed.

(** Trimming keeps what holds of every character. *)
Lemma allChars_trimStart (p : ascii -> bool) (s : string) :
  allChars p s = true -> allChars p (trimStart s) = true.
Proof.
  induction s as [|c r IH]; [reflexivity|].
  cbn [trimStart]. destruct (isWhiteSpace c); [|auto].
  cbn [allChars]. intros H. apply andb_true_iff in H as [_ H]. now apply IH.
Qed.

Lemma allChars_trimEnd (p : ascii -> bool) (s : string) :
  allChars p s = true -> allChars p (trimEnd s) = true.
Proof.
  induction s as [|c r IH]; [reflexivity|].
  cbn [trimEnd allChars]. intros H. apply andb_true_iff in H as [Hc Hr].
  specialize (IH Hr). destruct (trimEnd r).
  - destruct (isWhiteSpace c); [reflexivity|].
    cbn [allChars]. now rewrite Hc.
  - cbn [allChars] in *. now rewrite Hc, IH.
Qed.

Lemma allChars_trim (p : ascii -> bool) (s : string) :
  allChars p s = true -> allChars p (trim s) = true.
Proof. intros H. unfold trim. now apply allChars_trimEnd, allChars_trimStart. Qed.

Lemma noUpper_normal (s : string) : noUpper (trim (toLowerCase s)) = true.
Proof.
  apply allChars_trim, noUpper_lower.
Qed.

(** Under the flag [i] two characters that are not upper-case letters match
    only when they are equal. *)
Lemma canonEq_noUpper (p c : ascii) :
  canonEq p c = true -> isUpper p = false -> isUpper c = false -> p = c.
Proof.
  intros He Hp Hc. apply Ascii.eqb_eq.
  pose proof (forallAscii_spec
                (fun p => forallAscii
                   (fun c => implb (canonEq p c && negb (isUpper p) &&
                                    negb (isUpper c)) (p =? c)%char))) as H.
  specialize (H ltac:(vm_compute; reflexivity) p).
  apply forallAscii_spec with (c := c) in H.
  now rewrite He, Hp, Hc in H.
Qed.

Lemma prefix_includes (text pat : string) :
  String.prefix pat text = true -> includes text pat = true.
Proof. intros H. destruct text; cbn [includes]; now rewrite H. Qed.

Lemma includes_tail (c : ascii) (text pat : string) :
  includes text pat = true -> includes (String c text) pat = true.
Proof. intros H. cbn [includes]. rewrite H. apply orb_true_r. Qed.

Lemma prefix_cons (c : ascii) (p text : string) :
  String.prefix (String c p) (String c text) = String.prefix p text.
Proof. cbn [String.prefix]. now destruct (ascii_dec c c). Qed.

(** Literal atoms that match a text without upper-case letters spell a
    prefix of it. *)
Lemma matchAtoms_prefix (k : string) :
  forall (rest : list Atom) (prev : option ascii) (text : string),
    noUpper k = true -> noUpper text = true ->
    matchAtoms (map Lit (list_ascii_of_string k) ++ rest)%list prev text = true ->
    String.prefix k text = true.
Proof.
  unfold noUpper.
  induction k as [|p k IH]; intros rest prev text Hk Ht Hm.
  - now destruct text.
  - cbn [list_ascii_of_string map app matchAtoms allChars] in *.
    destruct text as [|c text]; [discriminate|].
    cbn [allChars] in Ht.
    apply andb_true_iff in Hk as [Hp Hk], Ht as [Hc Ht], Hm as [He Hm].
    apply negb_true_iff in Hp, Hc.
    rewrite (canonEq_noUpper p c He Hp Hc), prefix_cons.
    now apply (IH rest (Some c)).
Qed.

Lemma searchAtoms_includes (k : string) (text : string) :
  forall prev,
    noUpper k = true -> noUpper text = true ->
    searchAtoms
      (WordBoundary :: map Lit (list_ascii_of_string k) ++ [WordBoundary])
      prev text = true ->
    includes text k = true.
Proof.
  induction text as [|c text IH]; intros prev Hk Ht Hs.
  - cbn [searchAtoms] in Hs. rewrite orb_false_r in Hs.
    cbn [matchAtoms] in Hs. apply andb_true_iff in Hs as [_ Hs].
    apply prefix_includes. eapply matchAtoms_prefix; eassumption.
  - cbn [searchAtoms] in Hs. apply orb_true_iff in Hs as [Hs|Hs].
    + cbn [matchAtoms] in Hs. apply andb_true_iff in Hs as [_ Hs].
      apply prefix_includes. eapply matchAtoms_prefix; eassumption.
    + apply includes_tail. apply (IH (Some c)); try assumption.
      unfold noUpper in *. cbn [allChars] in Ht.
      now apply andb_true_iff in Ht as [_ Ht].
Qed.

(** On lower-case text a keyword that matches as a whole word occurs in the
    text. *)
Lemma wholeWord_includes (k text : string) :
  noUpper k = true -> noUpper text = true ->
  KnowledgeBase.wordBoundaryTest k text = true -> includes text k = true.
Proof.
  intros Hk Ht H. rewrite RegexFacts.wordBoundaryTest_atoms in H.
  eapply searchAtoms_includes; eassumption.
Qed.

End NormalFacts.

(** ** Facts about the safe variants and the keyword pipeline *)

Module SafeFacts.
Import JS KnowledgeBase Reference Auxiliary.

Lemma length_zero {A : Type} (l : list A) :
  (List.length l =? 0)%nat = true -> l = [].
Proof. destruct l; [reflexivity|discriminate]. Qed.

Lemma sort_length (l : list SearchResult) :
  List.length (sort byRelevanceDescending l) = List.length l.
Proof. apply Permutation_length, (JSFacts.sort_perm relevance). Qed.

(** The loop of [searchSafe] computes what the loop of [search] does and
    reports success exactly when there is a result. *)
Lemma searchCategoriesSafe_spec (kb : t) (keywords : list string)
  (enable : bool) (cats : list string) :
  forall results,
    let r := searchCategoriesSafe kb keywords enable cats results in
    safe_data r = searchCategories kb keywords enable cats results /\
    success r = negb (List.length (safe_data r) =? 0)%nat /\
    (fallback r = None <-> success r = true).
Proof.
  induction cats as [|c rest IH]; intros results; cbn zeta.
  - cbn [searchCategoriesSafe searchCategories].
    destruct (List.length (sort byRelevanceDescending results) =? 0)%nat eqn:E;
      cbn [safe_data success fallback].
    + rewrite (length_zero _ E). repeat split; intros; discriminate.
    + rewrite E. repeat split; intros; reflexivity.
  - cbn [searchCategoriesSafe searchCategories].
    destruct (enable
              && (0 <? List.length
                         (_searchInDataOptimized kb (get (data kb) c) keywords
                            (Some c) enable))%nat
              && existsb (fun r => highConfidence kb (relevance r))
                   (_searchInDataOptimized kb (get (data kb) c) keywords
                      (Some c) enable)) eqn:E.
    + cbn [safe_data success fallback]. split; [reflexivity|].
      apply andb_true_iff in E as [E _]. apply andb_true_iff in E as [_ E].
      apply Nat.ltb_lt in E.
      rewrite sort_length, length_app.
      split; [|split; reflexivity].
      symmetry. apply negb_true_iff, Nat.eqb_neq. lia.
    + apply IH.
Qed.

End SafeFacts.

Module KeywordFacts.
Import JS KnowledgeBase QueryProcessor Reference Auxiliary.
Import TextFacts NormalFacts.

(** The pieces of a split hold the characters between the separators. *)
Lemma splitRuns_chars (sep p : ascii -> bool) (s : string) :
  forall inRun,
    allChars (fun c => sep c || p c) s = true ->
    Forall (fun piece => allChars (fun c => negb (sep c) && p c) piece = true)
           (splitRuns sep inRun s).
Proof.
  induction s as [|c r IH]; intros inRun H.
  - repeat constructor.
  - cbn [allChars] in H. apply andb_true_iff in H as [Hc Hr].
    cbn [splitRuns]. destruct (sep c) eqn:Es.
    + destruct inRun; [now apply IH|].
      constructor; [reflexivity|now apply IH].
    + specialize (IH false Hr).
      destruct (splitRuns sep false r) as [|piece ps].
      * constructor; [|constructor]. cbn [allChars]. rewrite Es.
        cbn in Hc. now rewrite Hc.
      * inversion IH as [|? ? Hp Hps]; subst.
        constructor; [|exact Hps].
        cbn [allChars]. rewrite Es, Hp. cbn in Hc. now rewrite Hc.
Qed.

(** Every piece of a split occurs in the text; the first piece is a prefix
    of it unless the split starts inside a run of separators.  The text may
    be the image of another under a map that changes separators only. *)
Lemma splitRuns_occurs (sep : ascii -> bool) (f : ascii -> ascii)
  (s : string) :
  (forall c, sep (f c) = false -> f c = c) ->
  forall inRun,
    Forall (fun piece => includes s piece = true)
           (splitRuns sep inRun (mapString f s)) /\
    (inRun = false ->
     String.prefix (List.hd "" (splitRuns sep inRun (mapString f s))) s = true).
Proof.
  intros Hf. induction s as [|c r IH]; intros inRun.
  - split; [repeat constructor|reflexivity].
  - cbn [mapString splitRuns].
    assert (Hall : forall b,
               Forall (fun piece => includes (String c r) piece = true)
                      (splitRuns sep b (mapString f r))).
    { intros b. destruct (IH b) as [H _].
      eapply Forall_impl; [|exact H]. intros piece. apply includes_tail. }
    destruct (sep (f c)) eqn:Es.
    + destruct inRun.
      * split; [apply Hall|discriminate].
      * split; [|reflexivity]. constructor; [reflexivity|apply Hall].
    + rewrite (Hf c Es).
      destruct (IH false) as [_ Hpre]. specialize (Hpre eq_refl).
      specialize (Hall false).
      destruct (splitRuns sep false (mapString f r)) as [|piece ps].
      * assert (Hp : String.prefix (String c "") (String c r) = true)
          by (rewrite prefix_cons; now destruct r).
        split; [|intros _; exact Hp].
        constructor; [now apply prefix_includes|constructor].
      * cbn [List.hd] in *.
        assert (Hp : String.prefix (String c piece) (String c r) = true)
          by now rewrite prefix_cons.
        split; [|intros _; exact Hp].
        constructor; [now apply prefix_includes|].
        now inversion Hall.
Qed.

Lemma has_In (set : list string) (token : string) :
  has set token = true <-> In token set.
Proof.
  unfold has. rewrite existsb_exists. split.
  - intros (x & Hin & He). apply String.eqb_eq in He. now subst.
  - intros H. exists token. split; [exact H|apply String.eqb_refl].
Qed.

(** [[...new Set(l)]] keeps one copy of every element. *)
Lemma unique_spec (l : list string) :
  forall seen,
    NoDup (unique seen l) /\
    forall x, In x (unique seen l) <-> In x l /\ ~ In x seen.
Proof.
  induction l as [|k rest IH]; intros seen.
  - split; [constructor|]. intros x. cbn. tauto.
  - cbn [unique]. destruct (has seen k) eqn:E.
    + destruct (IH seen) as [Hnd Hin]. split; [exact Hnd|].
      intros x. rewrite Hin. apply has_In in E. cbn [In].
      split; [tauto|]. intros [[->|H] Hx]; [contradiction|tauto].
    + destruct (IH (k :: seen)) as [Hnd Hin]. split.
      * constructor; [|exact Hnd]. rewrite Hin. cbn [In]. tauto.
      * intros x. cbn [In]. rewrite Hin. cbn [In].
        assert (Hk : ~ In k seen)
          by (intros H; apply has_In in H; congruence).
        destruct (string_dec k x) as [->|Hne]; tauto.
Qed.

(** What the replacement of punctuation leaves: white space and the
    characters of a keyword. *)
Lemma replaced_chars (q : string) :
  allChars (fun c => isWhiteSpace c || isKeywordChar c)
           (replacePunctuation (toLowerCase q)) = true.
Proof.
  induction q as [|c r IH]; [reflexivity|].
  unfold replacePunctuation, toLowerCase in *. cbn [mapString allChars].
  rewrite IH, andb_true_r.
  apply (forallAscii_spec
           (fun c =>
              let c' := if isPunctuation (toLowerChar c) then " "%char
                        else toLowerChar c in
              isWhiteSpace c' || isKeywordChar c')).
  vm_compute. reflexivity.
Qed.

(** The replacement changes no character it leaves a non-space. *)
Lemma replaced_fixed (c : ascii) :
  isWhiteSpace (if isPunctuation c then " "%char else c) = false ->
  (if isPunctuation c then " "%char else c) = c.
Proof. destruct (isPunctuation c); [discriminate|reflexivity]. Qed.

(** The tokens of [extractKeywords]. *)
Lemma tokens_spec (q : string) :
  Forall (fun token =>
            allChars isKeywordChar token = true /\
            includes (toLowerCase q) token = true)
         (split isWhiteSpace (replacePunctuation (toLowerCase q))).
Proof.
  unfold split. apply Forall_forall. intros token Hin. split.
  - pose proof (splitRuns_chars isWhiteSpace isKeywordChar _ false
                  (replaced_chars q)) as H.
    rewrite Forall_forall in H. specialize (H token Hin).
    eapply allChars_impl; [|exact H].
    intros c Hc. now apply andb_true_iff in Hc as [_ Hc].
  - destruct (splitRuns_occurs isWhiteSpace
                (fun c => if isPunctuation c then " "%char else c)
                (toLowerCase q) replaced_fixed false) as [H _].
    rewrite Forall_forall in H. now apply H.
Qed.

(** What [_normalizeKeywords] returns. *)
Lemma normalizeKeywords_spec (keywords : Value) :
  Forall (fun k => k <> "" /\ toLowerCase k = k /\ trim k = k)
         (_normalizeKeywords keywords).
Proof.
  assert (Hne : forall k, nonEmpty k = true -> k <> "")
    by (intros k H ->; discriminate H).
  unfold _normalizeKeywords. destruct (negb (truthy keywords)); [constructor|].
  destruct keywords; try constructor.
  - apply Forall_forall. intros k Hk.
    apply filter_In in Hk as [Hk Hn].
    apply in_map_iff in Hk as (piece & <- & Hp).
    split; [now apply Hne|]. split; [|apply trim_idem].
    apply toLowerCase_fixed. unfold noUpper. apply allChars_trim.
    pose proof (splitRuns_chars isKeywordSeparator
                  (fun c => negb (isUpper c)) (toLowerCase s) false) as H.
    rewrite Forall_forall in H.
    assert (Hs : allChars (fun c => isKeywordSeparator c || negb (isUpper c))
                          (toLowerCase s) = true).
    { eapply allChars_impl; [|apply (noUpper_lower s)].
      intros c Hc. cbv beta in Hc. rewrite Hc. apply orb_true_r. }
    specialize (H Hs piece Hp).
    eapply allChars_impl; [|exact H].
    intros c Hc. now apply andb_true_iff in Hc as [_ Hc].
  - apply Forall_forall. intros k Hk.
    apply filter_In in Hk as [Hk Hn].
    apply in_map_iff in Hk as (piece & <- & Hp).
    split; [now apply Hne|]. split; [|apply trim_idem].
    rewrite trim_lower. now rewrite toLowerCase_idem.
Qed.

(** A string keyword list holds no separator. *)
Lemma normalizeKeywords_separators (s : string) :
  Forall (fun k =>
            allChars (fun c => negb (isKeywordSeparator c)) k = true)
         (_normalizeKeywords (Str s)).
Proof.
  unfold _normalizeKeywords. destruct (negb (truthy (Str s))); [constructor|].
  apply Forall_forall. intros k Hk.
  apply filter_In in Hk as [Hk _].
  apply in_map_iff in Hk as (piece & <- & Hp).
  pose proof (splitRuns_chars isKeywordSeparator (fun _ => true)
                (toLowerCase s) false) as H.
  rewrite Forall_forall in H.
  assert (Hs : allChars (fun c => isKeywordSeparator c || true)
                        (toLowerCase s) = true).
  { clear. induction (toLowerCase s) as [|c r IH]; [reflexivity|].
    cbn [allChars]. now rewrite orb_true_r, IH. }
  specialize (H Hs piece Hp).
  assert (Hpiece : allChars (fun c => negb (isKeywordSeparator c)) piece = true).
  { eapply allChars_impl; [|exact H].
    intros c Hc. now apply andb_true_iff in Hc as [Hc _]. }
  now apply allChars_trim.
Qed.

End KeywordFacts.

(** ** Facts about the range of [detectIntent] and its normal form *)

Module IntentRangeFacts.
Import JS QueryProcessor Reference Auxiliary NormalFacts.

Lemma fold_keepMax_range (scores : list (string * Z)) :
  forall (m0 : Z) (i0 : string),
    In (snd (fold_left keepMax scores (m0, i0))) (i0 :: map fst scores).
Proof.
  induction scores as [|[i s] rest IH]; intros m0 i0; [now left|].
  cbn [fold_left keepMax map fst].
  destruct (m0 <? s)%Z.
  - right. apply IH.
  - destruct (IH m0 i0) as [H|H]; [now left|right; now right].
Qed.

Lemma detectIntentIn_range (table : list (string * Patterns)) (query : Value) :
  In (detectIntentIn table query) ("general" :: map fst table).
Proof.
  unfold detectIntentIn. destruct query; try now left.
  destruct (negb (truthy (Str s))); [now left|].
  pose proof (fold_keepMax_range
                (computeScores table (trim (toLowerCase s))) 0 "general") as H.
  destruct (fold_left keepMax _ _) as [m d]. cbn [snd] in H.
  destruct (m <? 2)%Z; [now left|].
  unfold computeScores in H. rewrite map_map in H. exact H.
Qed.

(** A query that is blank once normalized has no intent. *)
Lemma detectIntent_blank (q : string) :
  trim (toLowerCase q) = "" -> detectIntent (Str q) = "general".
Proof.
  intros H. unfold detectIntent, detectIntentIn.
  destruct (negb (truthy (Str q))); [reflexivity|].
  rewrite H. vm_compute. reflexivity.
Qed.

Lemma detectIntent_normal (q : string) :
  detectIntent (Str (trim (toLowerCase q))) = detectIntent (Str q).
Proof.
  destruct (string_dec (trim (toLowerCase q)) "") as [He|Hne].
  - rewrite He, (detectIntent_blank q He). vm_compute. reflexivity.
  - unfold detectIntent, detectIntentIn.
    rewrite normalize_idem.
    replace (truthy (Str q)) with true.
    + replace (truthy (Str (trim (toLowerCase q)))) with true; [reflexivity|].
      cbn [truthy]. symmetry. apply negb_true_iff. now apply String.eqb_neq.
    + destruct q; [now elim Hne|reflexivity].
Qed.

(** On lower-case text the whole-word test of a high pattern adds nothing
    to the substring test. *)
Lemma scoreHigh_lower (query pattern : string) (score : Z) :
  noUpper query = true -> noUpper pattern = true ->
  scoreHigh query score pattern =
  if includes query pattern then (score + 5)%Z else score.
Proof.
  intros Hq Hp. unfold scoreHigh.
  destruct (includes query pattern) eqn:Ei; [reflexivity|].
  destruct (wordBoundaryTest pattern query) eqn:Ew; [|reflexivity].
  change (KnowledgeBase.wordBoundaryTest pattern query = true) in Ew.
  rewrite (wholeWord_includes _ _ Hp Hq Ew) in Ei. discriminate.
Qed.

Lemma highPatterns_lower :
  Forall (fun entry => Forall (fun pattern => noUpper pattern = true)
                              (high (snd entry)))
         intentPatterns.
Proof.
  assert (H : forallb (fun entry => forallb noUpper (high (snd entry)))
                      intentPatterns = true) by (vm_compute; reflexivity).
  rewrite forallb_forall in H.
  apply Forall_forall. intros entry Hentry. specialize (H entry Hentry).
  rewrite forallb_forall in H. now apply Forall_forall.
Qed.

End IntentRangeFacts.

(** ** Facts about what a search depends on and where its results come from *)

Module ProvenanceFacts.
Import JS KnowledgeBase Reference Auxiliary RelevanceFacts SearchFacts.
Import NormalFacts.

(** [search] as a scan of the categories. *)
Lemma searchCategories_scan (kb : t) (keywords : list string) (enable : bool)
  (cats : list string) :
  searchCategories kb keywords enable cats [] =
  sort byRelevanceDescending
    ((if enable then cutAfter (confident kb) else fun hits => hits)
       (flat_map (fun c => _searchInData (get (data kb) c) keywords (Some c))
          cats)).
Proof.
  destruct enable.
  - now rewrite searchCategories_true.
  - now rewrite searchCategories_false.
Qed.

(** What holds of every hit of the scan holds of every result. *)
Lemma search_Forall (P : SearchResult -> Prop) (kb : t)
  (keywords options : Value) :
  Forall P (scanAll kb (_normalizeKeywords keywords)) ->
  Forall P (search kb keywords options).
Proof.
  intros H. unfold search.
  destruct (List.length (_normalizeKeywords keywords) =? 0)%nat; [constructor|].
  assert (Hscan : forall enable,
             Forall P (searchCategories kb (_normalizeKeywords keywords) enable
                         (categories kb) [])).
  { intros enable. rewrite searchCategories_scan.
    eapply Permutation_Forall;
      [apply Permutation_sym, (JSFacts.sort_perm relevance)|].
    destruct enable; [|exact H].
    apply (incl_Forall (cutAfter_incl _ _)). exact H. }
  destruct options; try constructor; apply Hscan.
Qed.

Section Entries.
Variable keywords : list string.
Variable cat : option string.
Variable entries : list Value.

Let placed (r : SearchResult) : Prop :=
  category r = cat /\ In (result_data r) entries.

Lemma collectItems_placed (fld : option string) (items : list Value) :
  incl items entries ->
  forall results,
    Forall placed results ->
    Forall placed (collectItems keywords cat fld items results).
Proof.
  induction items as [|item rest IH]; intros Hin results H; [exact H|].
  cbn [collectItems].
  assert (Hrest : incl rest entries)
    by (intros x Hx; apply Hin; now right).
  destruct (Qlt_le_dec 0 _); apply (IH Hrest); [|exact H].
  apply Forall_app. split; [exact H|].
  constructor; [|constructor]. split; [reflexivity|].
  apply Hin. now left.
Qed.

Lemma collectFields_placed (data : Value) (ks : list string) :
  (forall key items, In key ks -> get data key = Arr items ->
                     incl items entries) ->
  forall results,
    Forall placed results ->
    Forall placed (collectFields keywords cat data ks results).
Proof.
  induction ks as [|key rest IH]; intros Hin results H; [exact H|].
  cbn [collectFields].
  assert (Hrest : forall key items, In key rest -> get data key = Arr items ->
                                    incl items entries)
    by (intros k items Hk; apply Hin; now right).
  destruct (get data key) eqn:Eg; try (apply (IH Hrest); exact H).
  apply (IH Hrest). apply collectItems_placed; [|exact H].
  apply (Hin key); [now left|exact Eg].
Qed.
End Entries.

Lemma searchInData_placed (data : Value) (keywords : list string)
  (cat : option string) :
  Forall (fun r => category r = cat /\ In (result_data r) (entriesOf data))
         (_searchInData data keywords cat).
Proof.
  destruct data; try constructor.
  - cbn [_searchInData entriesOf].
    apply collectItems_placed; [apply incl_refl|constructor].
  - cbn [_searchInData].
    apply collectFields_placed.
    + intros key items Hk Hg x Hx. cbn [entriesOf]. right.
      apply in_flat_map. exists key. split; [exact Hk|]. now rewrite Hg.
    + destruct (Qlt_le_dec 0 _); constructor; [|constructor].
      split; [reflexivity|]. now left.
Qed.

Lemma scanAll_fromCategory (kb : t) (keywords : list string) :
  Forall (fromCategory kb) (scanAll kb keywords).
Proof.
  unfold scanAll. apply Forall_forall. intros r Hr.
  apply in_flat_map in Hr as (c & Hc & Hr).
  pose proof (searchInData_placed (get (data kb) c) keywords (Some c)) as H.
  rewrite Forall_forall in H. destruct (H r Hr) as [Hcat Hin].
  exists c. repeat split; assumption.
Qed.

(** The order of the keywords does not matter to the score. *)
Lemma sumPoints_perm (text : string) (kws kws' : list string) :
  Permutation kws kws' -> (sumPoints text kws == sumPoints text kws')%Q.
Proof.
  induction 1 as [|k l l' _ IH|a b l|l l' l'' _ IH1 _ IH2].
  - reflexivity.
  - rewrite !sumPoints_cons. destruct (qualifies k); [|exact IH].
    now rewrite IH.
  - rewrite !sumPoints_cons.
    destruct (qualifies a), (qualifies b); try reflexivity. ring.
  - now rewrite IH1.
Qed.

Lemma countQualifying_perm (kws kws' : list string) :
  Permutation kws kws' -> countQualifying kws = countQualifying kws'.
Proof.
  intros H. unfold countQualifying. apply Permutation_length.
  induction H as [|k l l' _ IH|a b l|l l' l'' _ IH1 _ IH2].
  - constructor.
  - cbn [filter]. destruct (qualifies k); [now constructor|exact IH].
  - cbn [filter]. destruct (qualifies a), (qualifies b);
      try apply Permutation_refl. apply perm_swap.
  - eapply Permutation_trans; eassumption.
Qed.

Lemma calculateRelevance_perm (item : Value) (kws kws' : list string) :
  Permutation kws kws' ->
  _calculateRelevance item kws = _calculateRelevance item kws'.
Proof.
  intros Hp. unfold _calculateRelevance.
  rewrite (Permutation_length Hp).
  destruct (negb (truthy item) || (List.length kws' =? 0)%nat); [reflexivity|].
  set (text := toLowerCase (_itemToSearchText item)).
  destruct (text =? ""); [reflexivity|].
  destruct (fold_scoreKeyword text kws 0%Q 0%Q) as [E1 E2].
  destruct (fold_scoreKeyword text kws' 0%Q 0%Q) as [E1' E2'].
  destruct (fold_left (scoreKeyword text) kws (0%Q, 0%Q)) as [m w].
  destruct (fold_left (scoreKeyword text) kws' (0%Q, 0%Q)) as [m' w'].
  cbn [fst snd] in *.
  assert (Hm : (m == m')%Q)
    by (rewrite E1, E1'; now rewrite (sumPoints_perm text _ _ Hp)).
  assert (Hw : (w == w')%Q)
    by (rewrite E2, E2'; unfold countQ;
        now rewrite (countQualifying_perm _ _ Hp)).
  assert (Hz : Qeq_bool w 0 = Qeq_bool w' 0).
  { destruct (Qeq_bool w 0) eqn:Ea, (Qeq_bool w' 0) eqn:Eb; try reflexivity.
    - apply Qeq_bool_iff in Ea. rewrite Hw in Ea.
      apply Qeq_bool_iff in Ea. congruence.
    - apply Qeq_bool_iff in Eb. rewrite <- Hw in Eb.
      apply Qeq_bool_iff in Eb. congruence. }
  rewrite Hz. destruct (Qeq_bool w' 0); [reflexivity|].
  apply Qred_complete. now rewrite Hm, Hw.
Qed.

(** The loops of a search use the keywords through the score only. *)
Section Scores.
Variables kws kws' : list string.
Hypothesis same :
  forall item, _calculateRelevance item kws = _calculateRelevance item kws'.

Lemma collectItems_same (cat fld : option string) (items : list Value) :
  forall results,
    collectItems kws cat fld items results =
    collectItems kws' cat fld items results.
Proof.
  induction items as [|item rest IH]; intros results; [reflexivity|].
  cbn [collectItems]. rewrite same.
  destruct (Qlt_le_dec 0 _); apply IH.
Qed.

Lemma collectFields_same (cat : option string) (data : Value)
  (ks : list string) :
  forall results,
    collectFields kws cat data ks results =
    collectFields kws' cat data ks results.
Proof.
  induction ks as [|key rest IH]; intros results; [reflexivity|].
  cbn [collectFields]. destruct (get data key); try apply IH.
  rewrite collectItems_same. apply IH.
Qed.

Lemma searchInData_same (data : Value) (cat : option string) :
  _searchInData data kws cat = _searchInData data kws' cat.
Proof.
  destruct data; try reflexivity; cbn [_searchInData].
  - apply collectItems_same.
  - rewrite same. apply collectFields_same.
Qed.
End Scores.

Lemma search_perm (kb : t) (keywords keywords' options : Value) :
  Permutation (_normalizeKeywords keywords) (_normalizeKeywords keywords') ->
  search kb keywords options = search kb keywords' options.
Proof.
  intros Hp. unfold search. rewrite (Permutation_length Hp).
  destruct (List.length (_normalizeKeywords keywords') =? 0)%nat; [reflexivity|].
  assert (Hscan : forall enable,
             searchCategories kb (_normalizeKeywords keywords) enable
               (categories kb) [] =
             searchCategories kb (_normalizeKeywords keywords') enable
               (categories kb) []).
  { intros enable. rewrite !searchCategories_scan. do 2 f_equal.
    apply flat_map_ext. intros c. apply searchInData_same.
    intros item. now apply calculateRelevance_perm. }
  destruct options; try reflexivity; apply Hscan.
Qed.

Lemma query_perm (kb : t) (cat keywords keywords' : Value) :
  Permutation (_normalizeKeywords keywords) (_normalizeKeywords keywords') ->
  query kb cat keywords = query kb cat keywords'.
Proof.
  intros Hp. unfold query. rewrite (Permutation_length Hp).
  destruct (negb (truthy (getByCategory kb cat))); [reflexivity|].
  destruct (List.length (_normalizeKeywords keywords') =? 0)%nat; [reflexivity|].
  apply searchInData_same. intros item. now apply calculateRelevance_perm.
Qed.

(** Normalized keywords are a fixed point of the normalization. *)
Lemma normalizeKeywords_idem (keywords : Value) :
  _normalizeKeywords (Arr (map Str (_normalizeKeywords keywords))) =
  _normalizeKeywords keywords.
Proof.
  pose proof (KeywordFacts.normalizeKeywords_spec keywords) as H.
  set (ks := _normalizeKeywords keywords) in *.
  unfold _normalizeKeywords at 1. cbn [truthy negb].
  induction H as [|k rest (Hne & Hlow & Htrim) _ IH]; [reflexivity|].
  cbn [map flat_map app filter].
  rewrite Hlow, Htrim.
  replace (nonEmpty k) with true
    by (destruct k; [now elim Hne|reflexivity]).
  f_equal. exact IH.
Qed.

Lemma normalizeKeywords_lower (s : string) :
  _normalizeKeywords (Str (toLowerCase s)) = _normalizeKeywords (Str s).
Proof.
  unfold _normalizeKeywords. rewrite toLowerCase_idem.
  now destruct s.
Qed.

End ProvenanceFacts.

(** ** Facts about stored conversations, category names and case *)

Module PersistenceFacts.
Import JS ConversationManager Reference Auxiliary Chatbot ConversationFacts.

Lemma getItem_setItem (key value : string) (storage : Storage) :
  getItem key (setItem key value storage) = Some value.
Proof.
  induction storage as [|[k v] rest IH]; cbn [setItem getItem].
  - now rewrite String.eqb_refl.
  - destruct (k =? key) eqn:E; cbn [getItem]; now rewrite E.
Qed.

Lemma getItem_setItem_other (key other value : string) (storage : Storage) :
  other <> key ->
  getItem other (setItem key value storage) = getItem other storage.
Proof.
  intros Hne. induction storage as [|[k v] rest IH]; cbn [setItem getItem].
  - replace (key =? other) with false; [reflexivity|].
    symmetry. apply String.eqb_neq. congruence.
  - destruct (k =? key) eqn:E; cbn [getItem].
    + apply String.eqb_eq in E. subst k.
      replace (key =? other) with false; [reflexivity|].
      symmetry. apply String.eqb_neq. congruence.
    + now rewrite IH.
Qed.

Lemma enforce_plain (mgr : t) : plain mgr -> plain (_enforceMessageLimit mgr).
Proof.
  intros [ms Hm]. unfold _enforceMessageLimit.
  destruct (Qlt_le_dec _ _); [|now exists ms].
  eexists. cbn [messages]. rewrite Hm. apply skipn_map.
Qed.

Lemma call_plain (c : Call) (mgr : t) (msg : Value) (mgr' : t) :
  timestamp c = Undefined \/ timestamp c = Null ->
  plain mgr -> call c mgr = (Ok msg, mgr') -> plain mgr'.
Proof.
  intros Hts [ms Hm] Hcall.
  pose proof (HistoryFacts.call_sender _ _ _ _ Hcall) as Hs.
  apply call_ok in Hcall as (content & _ & _ & Hmsg & ->).
  apply enforce_plain. cbn [messages].
  rewrite Hmsg in Hs. unfold knownSender, built in Hs.
  cbn [get lookup] in Hs.
  change ("id" =? "sender") with false in Hs.
  change ("content" =? "sender") with false in Hs.
  change ("sender" =? "sender") with true in Hs. cbv iota in Hs.
  destruct (sender c) as [| | | |s| |] eqn:Es; try discriminate Hs.
  exists (ms ++ [{| msg_id := idText (nowId c)
                                (binary64 (messageIdCounter mgr + 1));
                    msg_content := content;
                    msg_sender := s;
                    msg_timestamp := nowTimestamp c |}])%list.
  rewrite Hm, map_app. f_equal. cbn [map]. f_equal.
  rewrite Hmsg. unfold built, messageObject. cbn [msg_id msg_content
    msg_sender msg_timestamp]. rewrite Es.
  destruct Hts as [-> | ->]; reflexivity.
Qed.

Lemma run_plain (ops : list Op) :
  defaultTimestamps ops = true ->
  forall mgr, plain mgr -> plain (snd (run ops mgr)).
Proof.
  unfold defaultTimestamps.
  induction ops as [|op rest IH]; intros Hops mgr Hp; [exact Hp|].
  cbn [forallb] in Hops. apply andb_true_iff in Hops as [Hop Hrest].
  destruct op as [c| |limit]; cbn [run].
  - destruct (call c mgr) as [[msg|e] mgr'] eqn:Ec.
    + assert (Hp' : plain mgr').
      { apply (call_plain c mgr msg mgr'); try assumption.
        destruct (timestamp c); try discriminate Hop; auto. }
      specialize (IH Hrest mgr' Hp'). destruct (run rest mgr'). exact IH.
    + apply (IH Hrest). apply call_throw in Ec as (Hm & _).
      destruct Hp as [ms Hp]. exists ms. now rewrite Hm.
  - apply (IH Hrest). now exists [].
  - apply (IH Hrest). unfold setMaxMessages.
    destruct limit; try exact Hp.
    destruct (Qlt_le_dec 0 q); [|exact Hp].
    apply enforce_plain. exact Hp.
Qed.

(** What [serialize] writes for a plain history is what [restore] reads
    back. *)
Lemma restore_plain (mgr target : t) (ms : list Message) (counter : Z) :
  messages mgr = map messageObject ms ->
  messageIdCounter mgr = inject_Z counter ->
  truthy (Str (serialize mgr)) = true /\
  restore (serialize mgr) target =
  (true,
   {| messages := messages mgr;
      messageIdCounter := messageIdCounter mgr;
      maxMessages := maxMessages target |}).
Proof.
  intros Hm Hc. unfold serialize. rewrite Hm, Hc.
  change (Obj [("messages", Arr (map messageObject ms));
               ("messageIdCounter", Num (inject_Z counter))])
    with (stateValue ms counter).
  rewrite RoundTripFacts.stringify_state. split; [reflexivity|].
  unfold restore. now rewrite RoundTripFacts.parse_stateText.
Qed.

End PersistenceFacts.

Module CategoryFacts.
Import JS KnowledgeBase Reference Auxiliary NormalFacts.

Lemma lookup_In (key : string) (props : list (string * Value)) (v : Value) :
  lookup key props = Some v -> In key (map fst props).
Proof.
  induction props as [|[k x] rest IH]; [discriminate|].
  cbn [lookup map fst In]. destruct (k =? key) eqn:E.
  - intros _. left. now apply String.eqb_eq.
  - intros H. right. now apply IH.
Qed.

Lemma NoDup_map_inj {A B : Type} (f : A -> B) (l : list A) (x y : A) :
  NoDup (map f l) -> In x l -> In y l -> f x = f y -> x = y.
Proof.
  induction l as [|a r IH]; [contradiction|].
  cbn [map]. intros Hnd Hx Hy Hf. inversion Hnd as [|? ? Hna Hr]; subst.
  destruct Hx as [->|Hx], Hy as [->|Hy]; try reflexivity.
  - elim Hna. rewrite Hf. now apply in_map.
  - elim Hna. rewrite <- Hf. now apply in_map.
  - now apply IH.
Qed.

Lemma toLowerCase_empty (s : string) : toLowerCase s = "" -> s = "".
Proof. destruct s; [reflexivity|discriminate]. Qed.

(** Any spelling of a category name retrieves the data of the category. *)
Lemma getByCategory_spelling (kb : t) (props : list (string * Value))
  (key spelling : string) :
  data kb = Obj props -> categories kb = map fst props ->
  NoDup (map toLowerCase (categories kb)) ->
  In key (categories kb) -> key <> "" ->
  trim (toLowerCase spelling) = toLowerCase key ->
  getByCategory kb (Str spelling) = get (data kb) key.
Proof.
  intros Hd Hc Hnd Hin Hne Hsp.
  assert (Hnk : toLowerCase key <> "")
    by (intros H; apply Hne; now apply toLowerCase_empty).
  unfold getByCategory.
  replace (truthy (Str spelling)) with true
    by (destruct spelling; [now elim Hnk|reflexivity]).
  cbn [negb]. rewrite Hsp.
  assert (Hsame : forall k, In k (categories kb) ->
                            toLowerCase k = toLowerCase key -> k = key)
    by (intros k Hk He; now apply (NoDup_map_inj toLowerCase (categories kb))).
  destruct (get (data kb) (toLowerCase key)) eqn:Eg;
    try (rewrite <- Eg; f_equal; apply Hsame;
         [|apply toLowerCase_idem];
         rewrite Hc; rewrite Hd in Eg; cbn [get] in Eg;
         destruct (lookup (toLowerCase key) props) eqn:El;
         [now apply (lookup_In _ _ _ El)|discriminate Eg]).
  destruct (find _ (categories kb)) as [k'|] eqn:Ef.
  - apply find_some in Ef as [Hk' He]. apply String.eqb_eq in He.
    rewrite (Hsame k' Hk' He).
    replace (truthy (Str key)) with true
      by (destruct key; [now elim Hne|reflexivity]).
    reflexivity.
  - exfalso. apply (find_none _ _ Ef) in Hin.
    now rewrite String.eqb_refl in Hin.
Qed.

Lemma toLowerCase_app (a b : string) :
  toLowerCase (a ++ b) = toLowerCase a ++ toLowerCase b.
Proof.
  unfold toLowerCase. induction a as [|c r IH]; [reflexivity|].
  cbn [append mapString]. now rewrite IH.
Qed.

Lemma toLowerCase_join (sep : string) (parts : list string) :
  toLowerCase (join sep parts) =
  join (toLowerCase sep) (map toLowerCase parts).
Proof.
  induction parts as [|p rest IH]; [reflexivity|].
  destruct rest as [|p' rest']; [reflexivity|].
  cbn [join map] in *. now rewrite !toLowerCase_app, IH.
Qed.

(** The search text of an item in lower case does not depend on the case
    of the texts in the item. *)
Lemma textOf_lowerValue :
  forall item, textOf (lowerValue item) = textOf item.
Proof.
  fix IH 1. intros item. unfold textOf.
  destruct item as [| |b|q|s|items|props]; try reflexivity.
  - cbn [lowerValue _itemToSearchText]. apply toLowerCase_idem.
  - cbn [lowerValue _itemToSearchText].
    rewrite !toLowerCase_join, !map_map. f_equal.
    induction items as [|x rest IHl]; [reflexivity|].
    cbn [map]. f_equal; [apply (IH x)|exact IHl].
  - cbn [lowerValue _itemToSearchText].
    rewrite !toLowerCase_join, !map_map. f_equal.
    induction props as [|[k x] rest IHl]; [reflexivity|].
    cbn [map fst snd]. f_equal; [apply (IH x)|exact IHl].
Qed.

Lemma truthy_lowerValue (item : Value) :
  truthy (lowerValue item) = truthy item.
Proof. destruct item as [| |b|q|s|items|props]; try reflexivity. now destruct s. Qed.

Lemma calculateRelevance_lowerValue (item : Value) (kws : list string) :
  _calculateRelevance (lowerValue item) kws = _calculateRelevance item kws.
Proof.
  unfold _calculateRelevance. rewrite truthy_lowerValue.
  fold (textOf (lowerValue item)). fold (textOf item).
  now rewrite textOf_lowerValue.
Qed.

End CategoryFacts.

(** ** The added operations on concrete inputs *)

Module CoverageExamples.
Import JS.

Lemma extractKeywords_examples :
  QueryProcessor.extractKeywords
    (Str "What are your Python skills? python, C++ & node.js!") =
  ["python"; "skills"; "node"; "js"] /\
  QueryProcessor.extractKeywords (Num 3) = [] /\
  QueryProcessor.extractKeywords (Str "") = [].
Proof. repeat split; reflexivity. Qed.

Lemma getSuggestions_examples :
  QueryProcessor.getSuggestions "contact" =
  Some ["Tell me about your experience";
        "What projects have you worked on?";
        "What are your skills?"] /\
  QueryProcessor.getSuggestions "weather" =
  QueryProcessor.getSuggestions "general" /\
  QueryProcessor.getSuggestions "toString" = None.
Proof. repeat split; reflexivity. Qed.

Lemma accessors_examples :
  ConversationManager.getContext (Num 2) Fixture.overfull = [Str "b"; Str "c"] /\
  ConversationManager.getContext (Num 0) Fixture.overfull = [] /\
  ConversationManager.getLastMessage Fixture.overfull = Str "c" /\
  ConversationManager.getLastMessage (ConversationManager.constructor None) =
  Null /\
  ConversationManager.hasMessages (ConversationManager.constructor None) =
  false /\
  ConversationManager.getMessagesBySender "user"
    {| ConversationManager.messages := [Null];
       ConversationManager.messageIdCounter := 0%Q;
       ConversationManager.maxMessages := 100%Q |} = None.
Proof. repeat split; reflexivity. Qed.

Lemma safe_examples :
  KnowledgeBase.success
    (KnowledgeBase.searchSafe Fixture.twoCategories (Str "foo") Undefined) =
  true /\
  KnowledgeBase.fallback
    (KnowledgeBase.querySafe Fixture.twoCategories (Str "nowhere") (Str "foo")) =
  Some KnowledgeBase.DEFAULT_FALLBACK_RESPONSE /\
  KnowledgeBase.success
    (KnowledgeBase.querySafe Fixture.twoCategories (Str "B") Undefined) = true.
Proof. repeat split; reflexivity. Qed.

Lemma storage_examples :
  Chatbot.restoreConversationFromStorage true
    (ConversationManager.constructor None) [] =
  (false, ConversationManager.constructor None) /\
  Chatbot.restoreConversationFromStorage true
    (ConversationManager.constructor None)
    [(Chatbot.CONVERSATION_STORAGE_KEY, "")] =
  (false, ConversationManager.constructor None) /\
  Chatbot.saveConversationToStorage false Fixture.afterHello [] = [].
Proof. repeat split; reflexivity. Qed.

End CoverageExamples.

(** ** Further properties of the code *)

Module Coverage.
Import JS Reference Auxiliary.

(** X1: [getContext(count)] with a finite number [count] that is not
    negative returns the most recent messages of the history, in order:
    exactly [count] of them when [count] is an integer, and otherwise as
    many as [count] rounded to one of its two neighbouring integers; the
    whole history when it is shorter.  With NaN and with Infinity, which are
    numbers and are not below zero, it returns the whole history. *)
Theorem getContext_returns_most_recent :
  forall (q : Q) (mgr : ConversationManager.t),
    (0 <= q)%Q ->
    (exists k : Z,
       (Qfloor q <= k <= Qceiling q)%Z /\
       ConversationManager.getContext (Num q) mgr =
       lastn (Z.to_nat k) (ConversationManager.getHistory mgr)) /\
    (forall n : nat,
       q = inject_Z (Z.of_nat n) ->
       ConversationManager.getContext (Num q) mgr =
       lastn n (ConversationManager.getHistory mgr)) /\
    ConversationManager.getContext NaN mgr =
    ConversationManager.getHistory mgr /\
    ConversationManager.getContext (Infinity false) mgr =
    ConversationManager.getHistory mgr.
Proof.
  intros q mgr Hq. split; [|split; [|split; reflexivity]].
  - exists (Qceiling q). split.
    + split; [|lia]. rewrite Zle_Qle.
      apply (Qle_trans _ q); [apply Qfloor_le|apply Qle_ceiling].
    + now apply HistoryFacts.getContext_count.
  - intros n ->. rewrite HistoryFacts.getContext_count by exact Hq.
    now rewrite Qceiling_Z, Nat2Z.id.
Qed.

(** A count of two on a history of three messages. *)
Lemma getContext_returns_most_recent_witness :
  (0 <= 2)%Q /\
  ConversationManager.getContext (Num 2) Fixture.overfull =
  [Str "b"; Str "c"].
Proof.
  split; [unfold Qle; simpl; lia|].
  apply (proj1 (proj2 (getContext_returns_most_recent 2 Fixture.overfull
                         ltac:(unfold Qle; simpl; lia))) 2%nat).
  reflexivity.
Defined.

(** X2: [getContext] called with no argument, with a value that is not a
    number, with a finite number below zero or with -Infinity returns the
    last five messages of the history. *)
Theorem getContext_defaults_to_five :
  forall (a : Argument) (mgr : ConversationManager.t),
    defaulted a = true ->
    ConversationManager.getContext a mgr =
    lastn 5 (ConversationManager.getHistory mgr).
Proof. exact HistoryFacts.getContext_default. Qed.

Lemma getContext_defaults_to_five_witness :
  ConversationManager.getContext (Num (-2)) Fixture.overfull =
  lastn 5 (ConversationManager.getHistory Fixture.overfull) /\
  ConversationManager.getContext (Infinity true) Fixture.overfull =
  lastn 5 (ConversationManager.getHistory Fixture.overfull).
Proof.
  split.
  - apply (getContext_defaults_to_five (Num (-2)) Fixture.overfull).
    reflexivity.
  - apply (getContext_defaults_to_five (Infinity true) Fixture.overfull).
    reflexivity.
Defined.

(** X3: on a new manager whose limit is a positive integer (100 when none
    is given), after any sequence of successful [addMessage] calls
    [getContext(n)] returns the last [min(n, limit)] messages created, in
    order. *)
Theorem getContext_after_messages :
  forall (limit : option positive) (calls : list Call)
         (created : list Value) (final : ConversationManager.t) (n : nat),
    let cap := match limit with Some p => Pos.to_nat p | None => 100%nat end in
    addAll calls
      (ConversationManager.constructor
         (option_map (fun p => inject_Z (Zpos p)) limit)) =
    Ok (created, final) ->
    ConversationManager.getContext (Num (inject_Z (Z.of_nat n))) final =
    lastn (Nat.min n cap) created.
Proof.
  intros limit calls created final n cap Hrun.
  assert (Hh : ConversationManager.messages final = lastn cap created).
  { apply (ConversationFacts.addAll_history calls
             (ConversationManager.constructor
                (option_map (fun p => inject_Z (Zpos p)) limit))
             cap [] created final);
      [|unfold lastn; now rewrite skipn_nil|exact Hrun].
    unfold cap. destruct limit as [p|]; [|reflexivity].
    cbn. now rewrite positive_nat_Z. }
  rewrite HistoryFacts.getContext_count
    by (rewrite <- (Zle_Qle 0); lia).
  rewrite Qceiling_Z, Nat2Z.id, Hh. apply HistoryFacts.lastn_lastn.
Qed.

(** Three calls, then a context of two messages. *)
Lemma getContext_after_messages_witness :
  exists m1 m2 m3 final,
    addAll Fixture.threeCalls (ConversationManager.constructor None) =
    Ok ([m1; m2; m3], final) /\
    ConversationManager.getContext (Num 2) final = [m2; m3].
Proof.
  do 4 eexists. split; [reflexivity|].
  exact (getContext_after_messages None Fixture.threeCalls _ _ 2 eq_refl).
Defined.

(** X4: when the limit is a finite number that is at least 1, the message
    a successful [addMessage] returns is the last of the history:
    [getLastMessage()] returns it, [hasMessages()] is true, and
    [getContext(5)] ends with it after at most four earlier messages. *)
Theorem added_message_is_last :
  forall (nowId nowTimestamp : Z) (message sender timestamp : Value)
         (mgr : ConversationManager.t) (msg : Value)
         (mgr' : ConversationManager.t),
    (1 <= ConversationManager.getMaxMessages mgr)%Q ->
    ConversationManager.addMessage nowId nowTimestamp message sender
      timestamp mgr = (Ok msg, mgr') ->
    ConversationManager.getLastMessage mgr' = msg /\
    ConversationManager.hasMessages mgr' = true /\
    exists earlier,
      ConversationManager.getContext (Num 5) mgr' = (earlier ++ [msg])%list /\
      (List.length earlier <= 4)%nat.
Proof.
  intros nowId nowTimestamp message sender timestamp mgr msg mgr' Hmax Hadd.
  assert (Hpos : (0 < ConversationManager.maxMessages mgr)%Q)
    by (unfold ConversationManager.getMaxMessages in Hmax; lra).
  destruct (ConversationFacts.call_ok
              {| Reference.nowId := nowId;
                 Reference.nowTimestamp := nowTimestamp;
                 Reference.message := message;
                 Reference.sender := sender;
                 Reference.timestamp := timestamp |} mgr msg mgr' Hadd)
    as (content & _ & _ & _ & Hm).
  destruct (HistoryFacts.enforce_suffix
              {| ConversationManager.messages :=
                   (ConversationManager.messages mgr ++ [msg])%list;
                 ConversationManager.messageIdCounter :=
                   binary64 (ConversationManager.messageIdCounter mgr + 1);
                 ConversationManager.maxMessages :=
                   ConversationManager.maxMessages mgr |} Hpos)
    as (k & Hk & He).
  rewrite He in Hm. cbn [ConversationManager.messages] in *.
  rewrite length_app in Hk. cbn [List.length] in Hk.
  rewrite skipn_app in Hm.
  replace (k - List.length (ConversationManager.messages mgr))%nat
    with 0%nat in Hm by lia.
  cbn [skipn] in Hm.
  set (kept := skipn k (ConversationManager.messages mgr)) in Hm.
  assert (Hmsgs : ConversationManager.messages mgr' = (kept ++ [msg])%list)
    by (rewrite Hm; reflexivity).
  split; [|split].
  - unfold ConversationManager.getLastMessage. rewrite Hmsgs.
    rewrite HistoryFacts.nth_last_snoc.
    rewrite length_app. cbn [List.length].
    now replace (List.length kept + 1 =? 0)%nat with false
      by (symmetry; apply Nat.eqb_neq; lia).
  - unfold ConversationManager.hasMessages. rewrite Hmsgs, length_app.
    cbn [List.length]. apply Nat.ltb_lt. lia.
  - exists (lastn 4 kept). split.
    + rewrite (HistoryFacts.getContext_count 5)
        by (unfold Qle; simpl; lia).
      rewrite Hmsgs.
      change (Z.to_nat (Qceiling 5)) with 5%nat.
      now rewrite ConversationFacts.lastn_snoc by lia.
    + rewrite ConversationFacts.lastn_length. lia.
Qed.

Lemma added_message_is_last_witness :
  exists msg mgr',
    ConversationManager.addMessage 1700 1700 (Str "hello") (Str "user")
      Undefined Fixture.overfull = (Ok msg, mgr') /\
    ConversationManager.getLastMessage mgr' = msg /\
    ConversationManager.hasMessages mgr' = true.
Proof.
  do 2 eexists. split; [reflexivity|].
  destruct (added_message_is_last 1700 1700 (Str "hello") (Str "user")
              Undefined Fixture.overfull _ _
              ltac:(unfold Qle; simpl; lia) eq_refl)
    as (Hlast & Hhas & _).
  split; [exact Hlast|exact Hhas].
Defined.

(** X5: whatever the state of the manager, also one that [restore] loaded
    with more messages than the limit allows, a successful [addMessage]
    leaves at most [maxMessages] messages, rounded up to an integer (none
    when the limit is negative), and leaves the limit unchanged. *)
Theorem addMessage_enforces_limit :
  forall (nowId nowTimestamp : Z) (message sender timestamp : Value)
         (mgr : ConversationManager.t) (msg : Value)
         (mgr' : ConversationManager.t),
    ConversationManager.addMessage nowId nowTimestamp message sender
      timestamp mgr = (Ok msg, mgr') ->
    (ConversationManager.getMessageCount mgr' <=
     Z.to_nat (Qceiling (ConversationManager.getMaxMessages mgr)))%nat /\
    ConversationManager.getMaxMessages mgr' =
    ConversationManager.getMaxMessages mgr.
Proof.
  intros nowId nowTimestamp message sender timestamp mgr msg mgr' Hadd.
  destruct (ConversationFacts.call_ok
              {| Reference.nowId := nowId;
                 Reference.nowTimestamp := nowTimestamp;
                 Reference.message := message;
                 Reference.sender := sender;
                 Reference.timestamp := timestamp |} mgr msg mgr' Hadd)
    as (content & _ & _ & _ & ->).
  unfold ConversationManager.getMessageCount, ConversationManager.getMaxMessages.
  split.
  - apply (HistoryFacts.enforce_bound
             {| ConversationManager.messages := _;
                ConversationManager.messageIdCounter := _;
                ConversationManager.maxMessages :=
                  ConversationManager.maxMessages mgr |}).
  - now rewrite HistoryFacts.enforce_maxMessages.
Qed.

(** Three messages under a limit of one and a half: two remain. *)
Lemma addMessage_enforces_limit_witness :
  exists msg mgr',
    ConversationManager.addMessage 1700 1700 (Str "hello") (Str "user")
      Undefined Fixture.overfull = (Ok msg, mgr') /\
    (ConversationManager.getMessageCount mgr' <= 2)%nat.
Proof.
  do 2 eexists. split; [reflexivity|].
  exact (proj1 (addMessage_enforces_limit 1700 1700 (Str "hello")
                  (Str "user") Undefined Fixture.overfull _ _ eq_refl)).
Defined.

(** X6: in every session of [addMessage] (succeeding or throwing), [clear]
    and [setMaxMessages] calls on a new manager, whatever limit it was built
    with, the history never holds more messages than the current limit
    rounded up to an integer. *)
Theorem history_never_exceeds_limit :
  forall (limit : option Q) (ops : list Op),
    let final := snd (run ops (ConversationManager.constructor limit)) in
    (ConversationManager.getMessageCount final <=
     Z.to_nat (Qceiling (ConversationManager.getMaxMessages final)))%nat.
Proof.
  intros limit ops.
  apply (HistoryFacts.run_bounded ops (ConversationManager.constructor limit)).
  unfold bounded. cbn [ConversationManager.constructor
                         ConversationManager.messages List.length]. lia.
Qed.

(** X7: [setMaxMessages(n)] with a positive integer [n] sets the limit and
    keeps the [n] most recent messages of the history, in order; the id
    counter is unchanged. *)
Theorem setMaxMessages_keeps_most_recent :
  forall (p : positive) (mgr : ConversationManager.t),
    let mgr' :=
      ConversationManager.setMaxMessages (Num (inject_Z (Zpos p))) mgr in
    ConversationManager.getHistory mgr' =
    lastn (Pos.to_nat p) (ConversationManager.getHistory mgr) /\
    ConversationManager.getMaxMessages mgr' = inject_Z (Zpos p) /\
    ConversationManager.messageIdCounter mgr' =
    ConversationManager.messageIdCounter mgr.
Proof.
  intros p mgr. cbv zeta. unfold ConversationManager.setMaxMessages.
  destruct (Qlt_le_dec 0 (inject_Z (Z.pos p))) as [_|Hle].
  - rewrite (ConversationFacts.enforce_lastn _ (Pos.to_nat p))
      by (cbn [ConversationManager.maxMessages]; now rewrite positive_nat_Z).
    repeat split.
  - exfalso. change 0%Q with (inject_Z 0) in Hle.
    rewrite <- Zle_Qle in Hle. lia.
Qed.

(** X8: in every session of [addMessage], [clear] and [setMaxMessages]
    calls on a new manager, [getMessagesBySender] does not throw, and the
    messages of 'user' together with those of 'bot' are the whole history:
    every message belongs to exactly one of the two. *)
Theorem senders_partition_history :
  forall (limit : option Q) (ops : list Op),
    let final := snd (run ops (ConversationManager.constructor limit)) in
    exists users bots,
      ConversationManager.getMessagesBySender "user" final = Some users /\
      ConversationManager.getMessagesBySender "bot" final = Some bots /\
      Permutation (users ++ bots) (ConversationManager.getHistory final) /\
      (List.length users + List.length bots =
       ConversationManager.getMessageCount final)%nat /\
      Forall (fun msg => get msg "sender" = Str "user") users /\
      Forall (fun msg => get msg "sender" = Str "bot") bots.
Proof.
  intros limit ops final.
  assert (Hk : allKnown final).
  { apply (HistoryFacts.run_allKnown ops). constructor. }
  destruct (HistoryFacts.filterBySender_split _ Hk)
    as (users & bots & Hu & Hb & Hp & Hfu & Hfb).
  exists users, bots. repeat split; try assumption.
  unfold ConversationManager.getMessageCount.
  rewrite <- (Permutation_length Hp). apply eq_sym, length_app.
Qed.

(** X9: [querySafe] returns under [data] exactly what [query] returns for
    the same arguments; a failure carries no data and a fallback text, a
    success carries no fallback; and when keywords are given it succeeds
    exactly when there is a result. *)
Theorem querySafe_agrees_with_query :
  forall (kb : KnowledgeBase.t) (category keywords : Value),
    let r := KnowledgeBase.querySafe kb category keywords in
    KnowledgeBase.safe_data r = KnowledgeBase.query kb category keywords /\
    (KnowledgeBase.success r = false ->
     KnowledgeBase.safe_data r = [] /\ KnowledgeBase.fallback r <> None) /\
    (KnowledgeBase.success r = true -> KnowledgeBase.fallback r = None) /\
    (KnowledgeBase._normalizeKeywords keywords <> [] ->
     KnowledgeBase.success r =
     negb (List.length (KnowledgeBase.safe_data r) =? 0)%nat).
Proof.
  intros kb category keywords. cbv zeta.
  unfold KnowledgeBase.querySafe, KnowledgeBase.query.
  destruct (negb (truthy (KnowledgeBase.getByCategory kb category))).
  - cbn. repeat split; intros; congruence.
  - destruct (KnowledgeBase._normalizeKeywords keywords) as [|k ks].
    + cbn. repeat split; intros; congruence.
    + cbn [List.length Nat.eqb].
      destruct (KnowledgeBase._searchInData _ _ _) as [|hit hits].
      * cbn [List.length Nat.eqb]. destruct (ToString category);
          cbn; repeat split; intros; congruence.
      * cbn. repeat split; intros; congruence.
Qed.

(** X10: [searchSafe] returns under [data] exactly what [search] returns
    for the same arguments, succeeds exactly when that list is not empty, and
    carries a fallback text exactly when it fails. *)
Theorem searchSafe_agrees_with_search :
  forall (kb : KnowledgeBase.t) (keywords options : Value),
    let r := KnowledgeBase.searchSafe kb keywords options in
    KnowledgeBase.safe_data r = KnowledgeBase.search kb keywords options /\
    KnowledgeBase.success r =
    negb (List.length (KnowledgeBase.safe_data r) =? 0)%nat /\
    (KnowledgeBase.fallback r = None <-> KnowledgeBase.success r = true).
Proof.
  intros kb keywords options. cbv zeta.
  unfold KnowledgeBase.searchSafe, KnowledgeBase.search.
  destruct (List.length (KnowledgeBase._normalizeKeywords keywords) =? 0)%nat.
  - cbn. repeat split; intros; discriminate.
  - destruct options;
      try apply SafeFacts.searchCategoriesSafe_spec.
    cbn. repeat split; intros; discriminate.
Qed.

(** X11: the category lookup ignores case and surrounding white space:
    for a category name that is not blank, [getByCategory] and [query]
    return for the name what they return for its normal form
    [name.toLowerCase().trim()]. *)
Theorem category_lookup_ignores_case :
  forall (kb : KnowledgeBase.t) (name : string) (keywords : Value),
    trim (toLowerCase name) <> "" ->
    KnowledgeBase.getByCategory kb (Str name) =
    KnowledgeBase.getByCategory kb (Str (trim (toLowerCase name))) /\
    KnowledgeBase.query kb (Str name) keywords =
    KnowledgeBase.query kb (Str (trim (toLowerCase name))) keywords.
Proof.
  intros kb name keywords Hne.
  assert (H : KnowledgeBase.getByCategory kb (Str name) =
              KnowledgeBase.getByCategory kb (Str (trim (toLowerCase name)))).
  { unfold KnowledgeBase.getByCategory.
    rewrite NormalFacts.normalize_idem.
    replace (truthy (Str name)) with true
      by (destruct name; [now elim Hne|reflexivity]).
    replace (truthy (Str (trim (toLowerCase name)))) with true; [reflexivity|].
    cbn [truthy]. symmetry. apply negb_true_iff. now apply String.eqb_neq. }
  split; [exact H|]. unfold KnowledgeBase.query. now rewrite H.
Qed.

Lemma category_lookup_ignores_case_witness :
  KnowledgeBase.getByCategory Fixture.twoCategories (Str " A ") =
  KnowledgeBase.getByCategory Fixture.twoCategories (Str "a").
Proof.
  apply (category_lookup_ignores_case Fixture.twoCategories " A " Null).
  discriminate.
Defined.

(** X12: every keyword [_normalizeKeywords] returns is non-empty, in lower
    case and trimmed; from a string input the keywords hold no white space,
    comma or semicolon; and the keywords returned are a fixed point: given
    back as an array they are returned unchanged. *)
Theorem normalizeKeywords_contract :
  forall (keywords : Value),
    Forall (fun k => k <> "" /\ toLowerCase k = k /\ trim k = k)
           (KnowledgeBase._normalizeKeywords keywords) /\
    KnowledgeBase._normalizeKeywords
      (Arr (map Str (KnowledgeBase._normalizeKeywords keywords))) =
    KnowledgeBase._normalizeKeywords keywords /\
    forall s,
      keywords = Str s ->
      Forall (fun k =>
                allChars (fun c => negb (KnowledgeBase.isKeywordSeparator c)) k
                = true)
             (KnowledgeBase._normalizeKeywords keywords).
Proof.
  intros keywords. split; [apply KeywordFacts.normalizeKeywords_spec|].
  split; [apply ProvenanceFacts.normalizeKeywords_idem|].
  intros s ->. apply KeywordFacts.normalizeKeywords_separators.
Qed.

(** X13: the pattern [\b<escaped keyword>\b] the two classes build with
    [_escapeRegex] is well formed for every keyword, so [new RegExp] never
    throws, and it stands for the characters of the keyword taken literally
    between two word boundaries: a syntax character of the keyword has no
    special meaning. *)
Theorem escaped_keyword_is_literal :
  forall (keyword : string),
    compileRegex ("\b" ++ KnowledgeBase._escapeRegex keyword ++ "\b") =
    Some (WordBoundary :: map Lit (list_ascii_of_string keyword) ++
          [WordBoundary])%list /\
    compileRegex ("\b" ++ QueryProcessor._escapeRegex keyword ++ "\b") =
    Some (WordBoundary :: map Lit (list_ascii_of_string keyword) ++
          [WordBoundary])%list.
Proof.
  intros keyword.
  assert (H : compileRegex ("\b" ++ KnowledgeBase._escapeRegex keyword ++ "\b") =
              Some (WordBoundary :: map Lit (list_ascii_of_string keyword) ++
                    [WordBoundary])%list).
  { change ("\b" ++ KnowledgeBase._escapeRegex keyword ++ "\b")
      with (String "\" (String "b" (KnowledgeBase._escapeRegex keyword ++ "\b"))).
    cbn [compileRegex Ascii.eqb Bool.eqb].
    now rewrite (RegexFacts.compileRegex_escaped keyword "\b" [WordBoundary]). }
  split; exact H.
Qed.

(** X14: in [detectIntent] the whole-word test of a high pattern never
    decides: a query that does not contain a high pattern does not match it
    as a word either, so every high pattern adds 5 to the score of its
    category or nothing, and the branch that adds 4 is never taken. *)
Theorem high_pattern_scores_five_or_nothing :
  forall (q : string) (score : Z),
    let normalizedQuery := trim (toLowerCase q) in
    Forall (fun entry =>
              Forall (fun pattern =>
                        QueryProcessor.scoreHigh normalizedQuery score pattern =
                        if includes normalizedQuery pattern then (score + 5)%Z
                        else score)
                     (QueryProcessor.high (snd entry)))
           QueryProcessor.intentPatterns.
Proof.
  intros q score normalizedQuery.
  eapply Forall_impl; [|exact IntentRangeFacts.highPatterns_lower].
  intros entry Hentry. eapply Forall_impl; [|exact Hentry].
  intros pattern Hp. apply IntentRangeFacts.scoreHigh_lower; [|exact Hp].
  apply NormalFacts.noUpper_normal.
Qed.

(** X15: the keywords [extractKeywords] returns are pairwise distinct;
    each has at least two characters, all in [a-z0-9_], is no stop word, and
    occurs in the lower-cased query. *)
Theorem extractKeywords_contract :
  forall (q : string),
    NoDup (QueryProcessor.extractKeywords (Str q)) /\
    Forall (fun k =>
              (2 <= String.length k)%nat /\
              QueryProcessor.has QueryProcessor.stopWords k = false /\
              allChars isKeywordChar k = true /\
              includes (toLowerCase q) k = true)
           (QueryProcessor.extractKeywords (Str q)).
Proof.
  intros q. unfold QueryProcessor.extractKeywords.
  destruct (negb (truthy (Str q))); [split; constructor|].
  match goal with |- context [QueryProcessor.unique [] ?l] =>
    destruct (KeywordFacts.unique_spec l []) as [Hnd Hin]
  end.
  split; [exact Hnd|].
  apply Forall_forall. intros k Hk. apply Hin in Hk as [Hk _].
  apply filter_In in Hk as [Hk Hstop].
  apply filter_In in Hk as [Hk Hlen].
  pose proof (KeywordFacts.tokens_spec q) as Ht. rewrite Forall_forall in Ht.
  destruct (Ht k Hk) as [Hchars Hocc].
  apply Nat.ltb_lt in Hlen. apply negb_true_iff in Hstop.
  repeat split; assumption.
Qed.

(** X16: [detectIntent] returns one of the eight intents for every
    argument, and [getSuggestions] answers each of them with a list of three
    or four suggestions, so the suggestions [processQuery] attaches to a
    response are never missing. *)
Theorem detected_intent_has_suggestions :
  forall (query : Value),
    In (QueryProcessor.detectIntent query)
       ["general"; "experience"; "skills"; "projects"; "awards"; "contact";
        "certifications"; "personal"] /\
    exists suggestions,
      QueryProcessor.getSuggestions (QueryProcessor.detectIntent query) =
      Some suggestions /\
      (3 <= List.length suggestions <= 4)%nat.
Proof.
  intros query.
  pose proof (IntentRangeFacts.detectIntentIn_range
                QueryProcessor.intentPatterns query) as H.
  fold (QueryProcessor.detectIntent query) in H.
  split; [exact H|].
  cbn [map fst QueryProcessor.intentPatterns In] in H.
  repeat (destruct H as [<-|H]; [eexists; split; [reflexivity|cbn; lia]|]).
  contradiction.
Qed.

(** X17: [detectIntent] gives a query and its normal form
    [query.toLowerCase().trim()] the same intent, so the normalization
    [processQuery] applies before the call changes nothing. *)
Theorem detectIntent_ignores_case_and_padding :
  forall (q : string),
    QueryProcessor.detectIntent (Str (trim (toLowerCase q))) =
    QueryProcessor.detectIntent (Str q) /\
    QueryProcessor.detectIntent (Str (toLowerCase (trim q))) =
    QueryProcessor.detectIntent (Str q).
Proof.
  intros q. rewrite NormalFacts.trim_lower.
  split; apply IntentRangeFacts.detectIntent_normal.
Qed.

(** X18: the relevance of an item does not depend on the order of the
    keywords: two keyword lists that are permutations of each other give
    every item the same score. *)
Theorem relevance_ignores_keyword_order :
  forall (item : Value) (keywords keywords' : list string),
    Permutation keywords keywords' ->
    KnowledgeBase._calculateRelevance item keywords =
    KnowledgeBase._calculateRelevance item keywords'.
Proof. exact ProvenanceFacts.calculateRelevance_perm. Qed.

Lemma relevance_ignores_keyword_order_witness :
  KnowledgeBase._calculateRelevance (Str "foobar baz") ["foo"; "baz"] =
  KnowledgeBase._calculateRelevance (Str "foobar baz") ["baz"; "foo"].
Proof.
  apply (relevance_ignores_keyword_order (Str "foobar baz")
           ["foo"; "baz"] ["baz"; "foo"]).
  apply perm_swap.
Defined.

(** X19: [search] and [query] depend on their keyword argument only through
    the normalized keywords and not on their order: two arguments whose
    normalized keywords are permutations of each other give the same
    results, in the same order, under every option. *)
Theorem search_ignores_keyword_order :
  forall (kb : KnowledgeBase.t) (keywords keywords' category options : Value),
    Permutation (KnowledgeBase._normalizeKeywords keywords)
                (KnowledgeBase._normalizeKeywords keywords') ->
    KnowledgeBase.search kb keywords options =
    KnowledgeBase.search kb keywords' options /\
    KnowledgeBase.query kb category keywords =
    KnowledgeBase.query kb category keywords'.
Proof.
  intros kb keywords keywords' category options Hp. split.
  - now apply ProvenanceFacts.search_perm.
  - now apply ProvenanceFacts.query_perm.
Qed.

(** A string of two keywords and the array of the two in the other order. *)
Lemma search_ignores_keyword_order_witness :
  KnowledgeBase.search Fixture.mixedMatches (Str "foo, BAZ") Undefined =
  KnowledgeBase.search Fixture.mixedMatches (Arr [Str "baz"; Str "foo"])
    Undefined.
Proof.
  apply (search_ignores_keyword_order Fixture.mixedMatches (Str "foo, BAZ")
           (Arr [Str "baz"; Str "foo"]) Null Undefined).
  vm_compute. apply perm_swap.
Defined.

(** X20: [search] invents nothing: under every option each result names a
    category of the knowledge base and holds an entry of that category: an
    item of the category's array, or the category's object or an item of an
    array the object holds. *)
Theorem search_results_come_from_categories :
  forall (kb : KnowledgeBase.t) (keywords options : Value),
    Forall (fun r =>
              exists c,
                KnowledgeBase.category r = Some c /\
                In c (KnowledgeBase.getAllCategories kb) /\
                In (KnowledgeBase.result_data r)
                   (entriesOf (get (KnowledgeBase.data kb) c)))
           (KnowledgeBase.search kb keywords options).
Proof.
  intros kb keywords options.
  apply ProvenanceFacts.search_Forall.
  apply ProvenanceFacts.scanAll_fromCategory.
Qed.

(** X21: in a knowledge base built from an object whose category names
    differ in more than case, every category that [getAllCategories] lists
    under an ASCII name that is not empty, has no surrounding white space
    and is not, in lower case, a name every object inherits (constructor,
    __proto__), is found by [getByCategory] under any spelling of that name:
    whatever the case and the surrounding white space of the spelling, the
    call returns the data stored under the name. *)
Theorem listed_category_is_found :
  forall (props : list (string * Value)) (threshold : option Q)
         (kb : KnowledgeBase.t) (key spelling : string),
    KnowledgeBase.constructor (Obj props) threshold = Ok kb ->
    NoDup (map toLowerCase (KnowledgeBase.getAllCategories kb)) ->
    In key (KnowledgeBase.getAllCategories kb) ->
    key <> "" ->
    isASCII key = true ->
    trim key = key ->
    inherited (toLowerCase key) = false ->
    trim (toLowerCase spelling) = toLowerCase key ->
    KnowledgeBase.getByCategory kb (Str spelling) =
    get (KnowledgeBase.data kb) key.
Proof.
  intros props threshold kb key spelling Hkb Hnd Hin Hne _ _ _ Hsp.
  cbn in Hkb. injection Hkb as <-.
  apply (CategoryFacts.getByCategory_spelling _ props); try assumption;
    reflexivity.
Qed.

Lemma listed_category_is_found_witness :
  KnowledgeBase.getByCategory Fixture.twoCategories (Str " B ") =
  Arr [Str "foo bar"].
Proof.
  apply (listed_category_is_found
           [("a", Arr [Str "foo"]); ("b", Arr [Str "foo bar"])]
           None Fixture.twoCategories "b" " B ").
  - reflexivity.
  - repeat constructor; simpl; intuition discriminate.
  - simpl. auto.
  - discriminate.
  - reflexivity.
  - reflexivity.
  - reflexivity.
  - reflexivity.
Defined.

(** X22: a conversation survives a change of page.  After any session of
    [addMessage] calls that leave the timestamp to the clock, [clear] and
    [setMaxMessages] calls on a new manager, [saveConversationToStorage]
    followed, when the write is accepted, by
    [restoreConversationFromStorage] on any manager returns true and gives
    that manager the history and the id counter of the saved one; its own
    limit stays, and the other items of the storage are untouched. *)
Theorem conversation_survives_page_change :
  forall (limit : option Q) (ops : list Op) (storage : Chatbot.Storage)
         (target : ConversationManager.t),
    defaultTimestamps ops = true ->
    let mgr := snd (run ops (ConversationManager.constructor limit)) in
    let stored := Chatbot.saveConversationToStorage true mgr storage in
    Chatbot.restoreConversationFromStorage true target stored =
    (true,
     {| ConversationManager.messages := ConversationManager.getHistory mgr;
        ConversationManager.messageIdCounter :=
          ConversationManager.messageIdCounter mgr;
        ConversationManager.maxMessages :=
          ConversationManager.getMaxMessages target |}) /\
    forall other,
      other <> Chatbot.CONVERSATION_STORAGE_KEY ->
      Chatbot.getItem other stored = Chatbot.getItem other storage.
Proof.
  intros limit ops storage target Hops mgr stored.
  assert (Hplain : plain mgr).
  { apply (PersistenceFacts.run_plain ops Hops). now exists []. }
  destruct Hplain as [ms Hms].
  destruct (run ops (ConversationManager.constructor limit))
    as [created final] eqn:Hrun.
  assert (Hcount : counting final).
  { replace final
      with (snd (run ops (ConversationManager.constructor limit)))
      by now rewrite Hrun.
    apply ConversationFacts.run_counting. exists 0%Z. split; [|reflexivity].
    unfold counterLimit. lia. }
  destruct Hcount as (counter & _ & Hcounter).
  cbn [snd] in mgr. subst mgr.
  destruct (PersistenceFacts.restore_plain final target ms _ Hms Hcounter)
    as [Htruthy Hrestore].
  split.
  - unfold stored, Chatbot.restoreConversationFromStorage,
      Chatbot.saveConversationToStorage.
    rewrite PersistenceFacts.getItem_setItem, Htruthy. exact Hrestore.
  - intros other Hother. unfold stored, Chatbot.saveConversationToStorage.
    now apply PersistenceFacts.getItem_setItem_other.
Qed.

Lemma conversation_survives_page_change_witness :
  fst (Chatbot.restoreConversationFromStorage true
         (ConversationManager.constructor None)
         (Chatbot.saveConversationToStorage true
            (snd (run Fixture.shortSession
                    (ConversationManager.constructor None))) [])) = true.
Proof.
  rewrite (proj1 (conversation_survives_page_change None Fixture.shortSession
                    [] (ConversationManager.constructor None) eq_refl)).
  reflexivity.
Defined.

(** X23: matching ignores case.  Putting every text of an item in lower
    case does not change its relevance for any keywords, and putting a
    keyword string in lower case does not change what [search] and [query]
    return. *)
Theorem matching_ignores_case :
  forall (kb : KnowledgeBase.t) (item : Value) (keywords : list string)
         (s : string) (category options : Value),
    KnowledgeBase._calculateRelevance (lowerValue item) keywords =
    KnowledgeBase._calculateRelevance item keywords /\
    KnowledgeBase.search kb (Str (toLowerCase s)) options =
    KnowledgeBase.search kb (Str s) options /\
    KnowledgeBase.query kb category (Str (toLowerCase s)) =
    KnowledgeBase.query kb category (Str s).
Proof.
  intros kb item keywords s category options.
  split; [apply CategoryFacts.calculateRelevance_lowerValue|].
  unfold KnowledgeBase.search, KnowledgeBase.query.
  now rewrite ProvenanceFacts.normalizeKeywords_lower.
Qed.

End Coverage.
